(** * Ammlytics: the quantitative engine of [liquidity_positions.py]

    A shallow embedding of the position tracker's numeric core
    (tick/price conversion, range amounts, impermanent loss, yield and
    breakeven projection, duration formatting), of the control flow of
    [find_and_display_positions], of the helpers that read the node and the
    baseline table, and of the endpoint of [app.py], followed by the
    properties of the specification that were checked against it and by
    further properties of the code. *)

From Stdlib Require Import ZArith QArith Qround Qabs Qpower Lia Lqa.
From Stdlib Require Import String Ascii List DecimalString.
From Stdlib Require DecimalPos.
From stdpp Require Import gmap strings list.

Local Open Scope Z_scope.

(** ** Exceptions and the error monad

    Python code either returns or raises; [res A] is the outcome of a call. *)

Inductive exn : Type :=
  | DivisionByZero
  | InvalidOperation
  | KeyError
  | UnboundLocalError
  | ValueError
  | RpcError.

Inductive res (A : Type) : Type :=
  | Ok (a : A)
  | Raise (e : exn).
Arguments Ok {A} a.
Arguments Raise {A} e.

#[global] Instance res_ret : MRet res := fun A a => Ok a.

#[global] Instance res_bind : MBind res := fun A B k r =>
  match r with
  | Ok a => k a
  | Raise e => Raise e
  end.

(** ** Decimal numbers under the module's context

    A finite [decimal.Decimal] is a signed coefficient and an exponent; its
    value is [coef * 10^expo].  The module sets [getcontext().prec = 50] and
    leaves the rounding mode at ROUND_HALF_EVEN, so every arithmetic result is
    the exact result rounded to 50 significant digits, ties to even.  The
    program observes decimals through comparison, truth value, [int()] and
    fixed-point formatting only, all of which depend on the value alone; the
    model therefore does not track which of several equal-valued
    representations Python picks (results here always carry a full 50-digit
    coefficient).  The context's exponent limits (10^±999999) are far from any
    quantity of the program and are not modelled. *)

Record Decimal : Type := mkDec { coef : Z; expo : Z }.

(** [getcontext().prec = 50] *)
Definition prec : Z := 50.

Definition ten : Q := 10 # 1.

Definition dval (d : Decimal) : Q := (inject_Z (coef d) * ten ^ expo d)%Q.

(** [Decimal(n)] for a Python int [n] is exact. *)
Definition Dec (n : Z) : Decimal := mkDec n 0.

(** Number of decimal digits of a positive integer. *)
Fixpoint ndigits_aux (fuel : nat) (n : Z) : Z :=
  match fuel with
  | O => 0
  | S f => if n <? 10 then 1 else 1 + ndigits_aux f (n / 10)
  end.

Definition ndigits (n : Z) : Z := ndigits_aux (S (Z.to_nat (Z.log2 n))) n.

(** [ilog10 q] is the integer [L] with [10^L <= q < 10^(L+1)], for [q > 0]. *)
Definition ilog10 (q : Q) : Z :=
  let k := ndigits (Qnum q) - ndigits (Zpos (Qden q)) in
  if Qle_bool (ten ^ k) q then k else k - 1.

(** Nearest integer, ties to even (ROUND_HALF_EVEN). *)
Definition round_half_even (q : Q) : Z :=
  let f := Qfloor q in
  match ((q - inject_Z f) ?= (1 # 2))%Q with
  | Lt => f
  | Gt => f + 1
  | Eq => if Z.even f then f else f + 1
  end.

(** A coefficient that rounded up to [10^prec] is written with one digit less. *)
Definition carry (m e : Z) : Decimal :=
  if Z.abs m =? 10 ^ prec then mkDec (m / 10) (e + 1) else mkDec m e.

(** The context's rounding of an exact result [q]. *)
Definition round_ctx (q : Q) : Decimal :=
  if Qeq_bool q 0 then mkDec 0 0
  else
    let e := ilog10 (Qabs q) - (prec - 1) in
    carry (round_half_even (q * ten ^ (- e))%Q) e.

(** The square root of [s >= 0] rounded to the nearest integer, ties to even:
    [m0] is the integer square root, and the result is [m0 + 1] when [s] lies
    beyond [(m0 + 1/2)^2]. *)
Definition sqrt_half_even (s : Q) : Z :=
  let m0 := Z.sqrt (Qfloor s) in
  match (s ?= inject_Z (m0 * m0 + m0) + (1 # 4))%Q with
  | Lt => m0
  | Gt => m0 + 1
  | Eq => if Z.even m0 then m0 else m0 + 1
  end.

(** The correctly rounded square root of an exact [q]. *)
Definition round_sqrt (q : Q) : Decimal :=
  if Qle_bool q 0 then mkDec 0 0
  else
    let e := (ilog10 q - (2 * prec - 2)) / 2 in
    carry (sqrt_half_even (q * ten ^ (- (2 * e)))%Q) e.

Definition dadd (a b : Decimal) : Decimal := round_ctx (dval a + dval b)%Q.
Definition dsub (a b : Decimal) : Decimal := round_ctx (dval a - dval b)%Q.
Definition dmul (a b : Decimal) : Decimal := round_ctx (dval a * dval b)%Q.

(** [a / b]: the default context traps division by zero. *)
Definition ddiv (a b : Decimal) : res Decimal :=
  if coef b =? 0 then
    Raise (if coef a =? 0 then InvalidOperation else DivisionByZero)
  else Ok (round_ctx (dval a / dval b)%Q).

(** [abs(a)] rounds like every other operation. *)
Definition dabs (a : Decimal) : Decimal := round_ctx (Qabs (dval a)).

(** [a.sqrt()] *)
Definition dsqrt (a : Decimal) : res Decimal :=
  if coef a <? 0 then Raise InvalidOperation else Ok (round_sqrt (dval a)).

(** [x ** n] for an integral exponent and a non-zero base (the program's
    bases are the constants 1.0001 and 10): the exact power, rounded once. *)
Definition dpow (x : Decimal) (n : Z) : Decimal := round_ctx (dval x ^ n)%Q.

(** [x ** (Decimal(t) / 2)] for an int [t]: the exponent is an integer or a
    half-integer, and the result is the rounded square root of [x^t]. *)
Definition dpow_half (x : Decimal) (t : Z) : Decimal := round_sqrt (dval x ^ t)%Q.

(** Comparisons are numeric. *)
Definition dle (a b : Decimal) : bool := Qle_bool (dval a) (dval b).
Definition dlt (a b : Decimal) : bool := negb (Qle_bool (dval b) (dval a)).
Definition dge (a b : Decimal) : bool := dle b a.
Definition dgt (a b : Decimal) : bool := dlt b a.
Definition deq (a b : Decimal) : bool := Qeq_bool (dval a) (dval b).

(** Truth value of a decimal: false exactly for zero. *)
Definition dtruth (a : Decimal) : bool := negb (coef a =? 0).

(** [int(a)] truncates toward zero. *)
Definition dint (a : Decimal) : Z :=
  let q := dval a in
  if Qle_bool 0 q then Qfloor q else Qceiling q.

(** [Decimal(1.0001)]: the argument is a Python float, and the constructor
    converts the binary double exactly, without rounding to the context. *)
Definition float_1_0001_mantissa : Z := 4504049987333233.

Definition Decimal_1_0001 : Decimal :=
  mkDec 10000999999999999889865875957184471189975738525390625 (-52).

(** ** Tick and price conversion *)

(** [tick_to_price(tick, decimals0, decimals1)] *)
Definition tick_to_price (tick decimals0 decimals1 : Z) : Decimal :=
  let price_ratio := dpow Decimal_1_0001 tick in
  let price_adjustment := dpow (Dec 10) (decimals0 - decimals1) in
  dmul price_ratio price_adjustment.

(** [calculate_token_amounts(liquidity, current_sqrt_price, lower_tick, upper_tick)] *)
Definition calculate_token_amounts
    (liquidity : Z) (current_sqrt_price : Decimal) (lower_tick upper_tick : Z)
    : res (Z * Z) :=
  let liquidity := Dec liquidity in
  let sqrt_price_lower := dpow_half Decimal_1_0001 lower_tick in
  let sqrt_price_upper := dpow_half Decimal_1_0001 upper_tick in
  if dle current_sqrt_price sqrt_price_lower then
    r ← ddiv (dsub sqrt_price_upper sqrt_price_lower)
             (dmul sqrt_price_lower sqrt_price_upper);
    Ok (dint (dmul liquidity r), 0)
  else if dge current_sqrt_price sqrt_price_upper then
    Ok (0, dint (dmul liquidity (dsub sqrt_price_upper sqrt_price_lower)))
  else
    r ← ddiv (dsub sqrt_price_upper current_sqrt_price)
             (dmul current_sqrt_price sqrt_price_upper);
    Ok (dint (dmul liquidity r),
        dint (dmul liquidity (dsub current_sqrt_price sqrt_price_lower))).

(** ** Impermanent loss *)

(** [calculate_il_percentage(entry_price, target_price, lower_price, upper_price)] *)
Definition calculate_il_percentage
    (entry_price target_price lower_price upper_price : Decimal) : res Decimal :=
  let p_entry := entry_price in
  let p_target := target_price in
  let p_lower := lower_price in
  let p_upper := upper_price in
  if deq p_target p_entry || dge p_lower p_upper then Ok (Dec 0)
  else
    sqrt_entry ← dsqrt p_entry;
    sqrt_target ← dsqrt p_target;
    sqrt_lower ← dsqrt p_lower;
    sqrt_upper ← dsqrt p_upper;
    let L := Dec 1 in
    '(amount0_entry, amount1_entry) ←
      (if dle p_entry p_lower then
         a ← ddiv (dmul L (dsub sqrt_upper sqrt_lower)) (dmul sqrt_lower sqrt_upper);
         Ok (a, Dec 0)
       else if dge p_entry p_upper then
         Ok (Dec 0, dmul L (dsub sqrt_upper sqrt_lower))
       else
         a ← ddiv (dmul L (dsub sqrt_upper sqrt_entry)) (dmul sqrt_entry sqrt_upper);
         Ok (a, dmul L (dsub sqrt_entry sqrt_lower)));
    '(amount0_target, amount1_target) ←
      (if dle p_target p_lower then
         a ← ddiv (dmul L (dsub sqrt_upper sqrt_lower)) (dmul sqrt_lower sqrt_upper);
         Ok (a, Dec 0)
       else if dge p_target p_upper then
         Ok (Dec 0, dmul L (dsub sqrt_upper sqrt_lower))
       else
         a ← ddiv (dmul L (dsub sqrt_upper sqrt_target)) (dmul sqrt_target sqrt_upper);
         Ok (a, dmul L (dsub sqrt_target sqrt_lower)));
    let hodl_value := dadd (dmul amount0_entry p_target) amount1_entry in
    let lp_value := dadd (dmul amount0_target p_target) amount1_target in
    if deq hodl_value (Dec 0) then Ok (Dec 0)
    else
      r ← ddiv lp_value hodl_value;
      let il := dsub r (Dec 1) in
      Ok (dabs il).

(** ** Duration formatting *)

(** What [format_timedelta] may be handed: [None], an object that is not a
    [Decimal], a non-finite [Decimal], or a finite one. *)
Inductive days_arg : Type :=
  | DaysNone
  | DaysNotDecimal
  | DaysNaN
  | DaysInfinity (negative : bool)
  | DaysDec (d : Decimal).

(** [str(n)] for an int. *)
Definition str_of_int (n : Z) : string := NilZero.string_of_int (Z.to_int n).

(** The loop that copies components into [display_parts] and breaks once
    three are there. *)
Fixpoint display_loop (components : list (Z * string)) (display_parts : list string)
    : list string :=
  match components with
  | [] => display_parts
  | (value, unit) :: rest =>
      let display_parts := display_parts ++ [str_of_int value ++ unit]%string in
      if (length display_parts =? 3)%nat then display_parts
      else display_loop rest display_parts
  end.

(** [time_components_ordered.append(...)] under its guard. *)
Definition append_if_positive (value : Z) (unit : string) (l : list (Z * string))
    : list (Z * string) :=
  if 0 <? value then l ++ [(value, unit)] else l.

(** [format_timedelta(days)] *)
Definition format_timedelta (days : days_arg) : string :=
  match days with
  | DaysNone | DaysNotDecimal | DaysNaN | DaysInfinity _ => "N/A"
  | DaysDec days =>
      if dlt days (Dec 0) then "Met"
      else
        let total_minutes := dint (dmul (dmul days (Dec 24)) (Dec 60)) in
        if total_minutes =? 0 then "<1m"
        else
          let years := total_minutes / (365 * 24 * 60) in
          let total_minutes := total_minutes mod (365 * 24 * 60) in
          let months := total_minutes / (30 * 24 * 60) in
          let total_minutes := total_minutes mod (30 * 24 * 60) in
          let weeks := total_minutes / (7 * 24 * 60) in
          let total_minutes := total_minutes mod (7 * 24 * 60) in
          let days_part := total_minutes / (24 * 60) in
          let total_minutes := total_minutes mod (24 * 60) in
          let hours_part := total_minutes / 60 in
          let minutes_part := total_minutes mod 60 in
          let time_components_ordered := [] in
          let time_components_ordered := append_if_positive years "y" time_components_ordered in
          let time_components_ordered := append_if_positive months "mo" time_components_ordered in
          let time_components_ordered := append_if_positive weeks "w" time_components_ordered in
          let time_components_ordered := append_if_positive days_part "d" time_components_ordered in
          let time_components_ordered := append_if_positive hours_part "h" time_components_ordered in
          let time_components_ordered := append_if_positive minutes_part "m" time_components_ordered in
          let display_parts := display_loop time_components_ordered [] in
          match display_parts with
          | [] => "N/A"
          | _ => String.concat " " display_parts
          end
  end.

(** ** Fixed-point formatting

    [f"{x:,.2f}"] and its relatives quantize the value to the requested number
    of fractional digits under the context's rounding and print it, with or
    without thousands separators. *)

Fixpoint group_rev (digits_rev : list ascii) (n : nat) : list ascii :=
  match digits_rev with
  | [] => []
  | c :: rest =>
      match n, rest with
      | 2%nat, _ :: _ => c :: ","%char :: group_rev rest 0
      | _, _ => c :: group_rev rest (S n)
      end
  end.

(** Thousands separators in a string of digits. *)
Definition group_thousands (s : string) : string :=
  string_of_list_ascii (rev (group_rev (rev (list_ascii_of_string s)) 0)).

Definition pad_zeros (width : nat) (s : string) : string :=
  (String.concat "" (repeat "0" (width - String.length s)) ++ s)%string.

(** The value rounded to [places] fractional digits, as an integer number of
    units of [10^-places]. *)
Definition quantize (places : nat) (q : Q) : Z :=
  round_half_even (q * ten ^ Z.of_nat places)%Q.

Definition format_fixed (comma : bool) (places : nat) (q : Q) : string :=
  let n := quantize places (Qabs q) in
  let int_part := str_of_int (n / 10 ^ Z.of_nat places) in
  let frac_part := pad_zeros places (str_of_int (n mod 10 ^ Z.of_nat places)) in
  ((if Qle_bool 0 q then "" else "-")
   ++ (if comma then group_thousands int_part else int_part)
   ++ (match places with O => "" | _ => "." ++ frac_part end))%string.

(** [f"{x:,.2f}"], [f"{x:,.0f}"], [f"{x:.8f}"], [f"{x:.4f}"], [f"{x:.2%}"] *)
Definition fmt_money (x : Decimal) : string := format_fixed true 2 (dval x).
Definition fmt_whole (x : Decimal) : string := format_fixed true 0 (dval x).
Definition fmt_8f (x : Decimal) : string := format_fixed false 8 (dval x).
Definition fmt_4f (x : Decimal) : string := format_fixed false 4 (dval x).
Definition fmt_percent (x : Decimal) : string :=
  (format_fixed false 2 (dval x * (100 # 1)) ++ "%")%string.

(** [Decimal(s.replace(",", ""))] for a string produced by [fmt_money]. *)
Fixpoint digits_value (cs : list ascii) (acc : Z) : Z :=
  match cs with
  | [] => acc
  | c :: rest =>
      let n := Z.of_nat (nat_of_ascii c) - 48 in
      if (0 <=? n) && (n <=? 9) then digits_value rest (10 * acc + n)
      else digits_value rest acc
  end.

Definition parse_money (s : string) : Decimal :=
  let cs := list_ascii_of_string s in
  let v := digits_value cs 0 in
  match cs with
  | "-"%char :: _ => mkDec (- v) (-2)
  | _ => mkDec v (-2)
  end.

(** The float literal [0.0001] that [format_amount] compares with: a
    [Decimal] is compared with a float by the float's exact value. *)
Definition float_0_0001 : Decimal :=
  mkDec 100000000000000004792173602385929598312941379845142364501953125 (-66).

(** [format_amount(amount, decimals)] *)
Definition format_amount (amount decimals : Z) : res string :=
  if amount =? 0 then Ok "0"%string
  else
    adjusted ← ddiv (Dec amount) (Dec (10 ^ decimals));
    if deq adjusted (Dec 0) then Ok "0"%string
    else if dlt adjusted float_0_0001 then Ok (fmt_8f adjusted)
    else if dlt adjusted (Dec 1) then Ok (fmt_4f adjusted)
    else Ok (fmt_money adjusted).

(** ** Chain data, baseline store and report records *)

Definition address : Type := string.

(** [{'symbol': ..., 'decimals': ...}] *)
Record token_info : Type := mk_token_info { ti_symbol : string; ti_decimals : Z }.

(** The fields of the tuple returned by [positions(tokenId)] that the report
    reads: token0, token1, tickLower, tickUpper and liquidity (index 5). *)
Record position_data : Type := mk_position_data {
  pd_token0 : address;
  pd_token1 : address;
  pd_tickLower : Z;
  pd_tickUpper : Z;
  pd_liquidity : Z
}.

(** The dictionary returned by [get_pool_info]. *)
Record pool_info : Type := mk_pool_info {
  pi_pool_address : address;
  pi_sqrt_price : Decimal;
  pi_current_tick : Z
}.

(** The dictionary returned by [get_position_creation_info]. *)
Record creation_info : Type := mk_creation_info { ci_block_number : Z; ci_timestamp : Z }.

Inductive block_identifier : Type :=
  | Latest
  | AtBlock (n : Z).

Inductive block_field : Type :=
  | BlockNumber (n : Z)
  | BlockNA.

(** A baseline snapshot of the store.  The price is kept as text; [None]
    stands for a text that is ['N/A'] or does not read as a number. *)
Record initial_position : Type := mk_initial_position {
  ip_date : string;
  ip_block : block_field;
  ip_amount0 : Z;
  ip_amount1 : Z;
  ip_price : option Decimal
}.

(** The collaborators of one report request: contract reads, log scan, the
    pool price oracle, the baseline store and the clock.  Every read that the
    source wraps in [try/except] and turns into [None] or a default is an
    [option] or a total function here; reads that may raise are [res]. *)
Record chain : Type := mk_chain {
  is_connected : bool;
  balanceOf : address -> res Z;
  tokenOfOwnerByIndex : address -> Z -> res Z;
  positions : Z -> res position_data;
  get_token_info : address -> token_info;
  get_pool_info : address -> address -> block_identifier -> option pool_info;
  get_position_creation_info : Z -> address -> option creation_info;
  get_emissions_rewards : Z -> address -> list (address * Z);
  get_pool_price : address -> option Decimal;
  db_load_initial_positions : gmap string initial_position;
  (** [datetime.now().strftime('%a %Y-%m-%d %H:%M:%S')] *)
  now_strftime : string;
  (** [datetime.fromtimestamp(ts).strftime('%a %Y-%m-%d %H:%M:%S')] *)
  fromtimestamp_strftime : Z -> string;
  (** [Decimal((datetime.now() - datetime.strptime(s, fmt)).total_seconds())],
      raising [ValueError] when [s] does not match the format. *)
  seconds_since : string -> res Decimal
}.

Definition WBTC_USDC_POOL : address := "0x8BC2f9e725cbB07c338df4e77c82190119ddd823".
Definition SHADOW_USDC_POOL : address := "0xAca297ecC8cbAF15Bd78Cd0757Ee93D6ef82c6b7".

Definition KNOWN_TOKENS : list (address * token_info) :=
  [ ("0x0555E30da8f98308EdB960aa94C0Db47230d2B9c", mk_token_info "WBTC" 8);
    ("0x29219dd400f2Bf60E5a23d13Be72B486D4038894", mk_token_info "USDC" 6);
    ("0x3333b97138D4b086720b5aE8A7844b1345a33333", mk_token_info "SHADOW" 18);
    ("0x5050bc082FF4A74Fb6B0B04385dEfdDB114b2424", mk_token_info "xSHADOW" 18) ].

(** Truth value of [d.get(key)]: [None] and zero are false. *)
Definition truthy (o : option Decimal) : bool :=
  match o with
  | Some p => dtruth p
  | None => false
  end.

(** One round of the price pre-fetch loop over [KNOWN_TOKENS.items()]. *)
Definition prefetch_step (c : chain) (price_cache : gmap string Decimal)
    (item : address * token_info) : gmap string Decimal :=
  let token_info := item.2 in
  if String.eqb (ti_symbol token_info) "USDC" then
    <[ti_symbol token_info := mkDec 10 (-1)]> price_cache
  else if String.eqb (ti_symbol token_info) "WBTC" then
    match get_pool_price c WBTC_USDC_POOL with
    | Some price => if dtruth price then <[ti_symbol token_info := price]> price_cache
                    else price_cache
    | None => price_cache
    end
  else if String.eqb (ti_symbol token_info) "SHADOW"
          || String.eqb (ti_symbol token_info) "xSHADOW" then
    match get_pool_price c SHADOW_USDC_POOL with
    | Some price => if dtruth price then <[ti_symbol token_info := price]> price_cache
                    else price_cache
    | None => price_cache
    end
  else price_cache.

Definition prefetch_prices (c : chain) : gmap string Decimal :=
  fold_left (prefetch_step c) KNOWN_TOKENS ∅.

(** ** Enumeration of the wallet's positions *)

(** The body of [for i in range(balance - 1, -1, -1)], over the indices still
    to visit. *)
Fixpoint enumerate_loop (c : chain) (wallet_address : address) (indices : list Z)
    (active_positions : list (Z * position_data)) (consecutive_closed : Z)
    : list (Z * position_data) :=
  match indices with
  | [] => active_positions
  | i :: rest =>
      match (token_id ← tokenOfOwnerByIndex c wallet_address i;
             pos_data ← positions c token_id;
             Ok (token_id, pos_data)) with
      | Raise _ =>
          (* pass: silently skip positions that cause errors *)
          enumerate_loop c wallet_address rest active_positions consecutive_closed
      | Ok (token_id, pos_data) =>
          let '(active_positions, consecutive_closed) :=
            if 0 <? pd_liquidity pos_data
            then (active_positions ++ [(token_id, pos_data)], 0)
            else (active_positions, consecutive_closed + 1) in
          if 5 <=? consecutive_closed then active_positions
          else enumerate_loop c wallet_address rest active_positions consecutive_closed
      end
  end.

(** [range(balance - 1, -1, -1)] *)
Definition descending_range (balance : Z) : list Z := rev (seqZ 0 balance).

(** The list [active_positions] after the scan and [active_positions.reverse()]. *)
Definition enumerate_active (c : chain) (wallet_address : address) (balance : Z)
    : list (Z * position_data) :=
  rev (enumerate_loop c wallet_address (descending_range balance) [] 0).

(** ** Rewards *)

(** One element of [rewards_data]. *)
Record reward_entry : Type := mk_reward_entry {
  rw_amount : string;
  rw_symbol : string;
  rw_usd_value : string
}.

(** The body of [for token_addr, amount in emissions.items()]. *)
Definition rewards_step (c : chain) (price_cache : gmap string Decimal)
    (st : list reward_entry * Decimal) (item : address * Z)
    : res (list reward_entry * Decimal) :=
  let '(rewards_data, total_rewards_usd) := st in
  let '(token_addr, amount) := item in
  let reward_token_info := get_token_info c token_addr in
  display_amount ← format_amount amount (ti_decimals reward_token_info);
  let usd_value := Dec 0 in
  let reward_price := price_cache !! ti_symbol reward_token_info in
  '(usd_value, total_rewards_usd) ←
    match reward_price with
    | Some reward_price =>
        if dtruth reward_price then
          raw_amount ← ddiv (Dec amount) (Dec (10 ^ ti_decimals reward_token_info));
          let usd_value := dmul raw_amount reward_price in
          if String.eqb (ti_symbol reward_token_info) "xSHADOW" then
            half ← ddiv usd_value (Dec 2);
            Ok (usd_value, dadd total_rewards_usd half)
          else Ok (usd_value, dadd total_rewards_usd usd_value)
        else Ok (usd_value, total_rewards_usd)
    | None => Ok (usd_value, total_rewards_usd)
    end;
  shown ← (if String.eqb (ti_symbol reward_token_info) "xSHADOW"
           then ddiv usd_value (Dec 2) else Ok usd_value);
  Ok (rewards_data ++
        [mk_reward_entry display_amount (ti_symbol reward_token_info) (fmt_money shown)],
      total_rewards_usd).

Fixpoint rewards_loop (c : chain) (price_cache : gmap string Decimal)
    (emissions : list (address * Z)) (st : list reward_entry * Decimal)
    : res (list reward_entry * Decimal) :=
  match emissions with
  | [] => Ok st
  | item :: rest =>
      st ← rewards_step c price_cache st item;
      rewards_loop c price_cache rest st
  end.

(** Lines 728-749: [rewards_data] and [total_rewards_usd] of a position. *)
Definition rewards_block (c : chain) (price_cache : gmap string Decimal)
    (token_id : Z) (pool_address : address) : res (list reward_entry * Decimal) :=
  let emissions := get_emissions_rewards c token_id pool_address in
  rewards_loop c price_cache emissions ([], Dec 0).

(** ** Yield projection *)

(** [needle in s] for strings. *)
Fixpoint contains (needle s : string) : bool :=
  String.prefix needle s ||
  match s with
  | EmptyString => false
  | String _ rest => contains needle rest
  end.

(** The four variables that lines 751-769 leave behind. *)
Record apr_vars : Type := mk_apr_vars {
  annualized_apr : Decimal;
  days_active : Decimal;
  daily_projected_usd_earnings : Decimal;
  annual_projected_usd_earnings : Decimal
}.

(** Lines 751-769.  [initial_info] is [None] for the empty dictionary.  The
    variables start at [Decimal(0)]; the [try] body assigns them one after
    the other, and the handler resets [annualized_apr] only, so a failing
    statement keeps what was assigned before it. *)
Definition apr_block (c : chain) (initial_info : option initial_position)
    (position_usd_value total_rewards_usd : Decimal) : apr_vars :=
  let zero := mk_apr_vars (Dec 0) (Dec 0) (Dec 0) (Dec 0) in
  match initial_info with
  | None => zero
  | Some initial_info =>
  if negb (contains " (Current)" (ip_date initial_info)) then
    match (seconds ← seconds_since c (ip_date initial_info);
           ddiv seconds (Dec 86400)) with
    | Raise _ => zero
    | Ok days_active =>
        if dgt position_usd_value (Dec 0) && dgt days_active (Dec 0) then
          match (a ← ddiv total_rewards_usd position_usd_value;
                 b ← ddiv days_active (Dec 365);
                 r ← ddiv a b;
                 Ok (dmul r (Dec 100))) with
          | Raise _ => mk_apr_vars (Dec 0) days_active (Dec 0) (Dec 0)
          | Ok annualized_apr =>
              match (h ← ddiv annualized_apr (Dec 100);
                     Ok (dmul position_usd_value h)) with
              | Raise _ => mk_apr_vars (Dec 0) days_active (Dec 0) (Dec 0)
              | Ok annual_projected_usd_earnings =>
                  match ddiv annual_projected_usd_earnings (Dec 365) with
                  | Raise _ =>
                      mk_apr_vars (Dec 0) days_active (Dec 0)
                        annual_projected_usd_earnings
                  | Ok daily_projected_usd_earnings =>
                      mk_apr_vars annualized_apr days_active
                        daily_projected_usd_earnings annual_projected_usd_earnings
                  end
              end
          end
        else mk_apr_vars (Dec 0) days_active (Dec 0) (Dec 0)
    end
  else zero
  end.

(** ** Breakeven estimate and impermanent-loss data *)

(** Lines 788-797: [daily_rewards_usd] and the two [days_to_breakeven]. *)
Definition breakeven_days (annualized_apr position_usd_value il_usd_lower il_usd_upper : Decimal)
    : res (Decimal * Decimal * Decimal) :=
  let days_to_breakeven_lower := Dec 0 in
  let days_to_breakeven_upper := Dec 0 in
  let daily_rewards_usd := Dec 0 in
  if dgt annualized_apr (Dec 0) then
    h ← ddiv annualized_apr (Dec 100);
    daily_rewards_usd ← ddiv (dmul position_usd_value h) (Dec 365);
    if dgt daily_rewards_usd (Dec 0) then
      days_to_breakeven_lower ←
        (if dgt il_usd_lower (Dec 0) then ddiv il_usd_lower daily_rewards_usd
         else Ok (Dec 0));
      days_to_breakeven_upper ←
        (if dgt il_usd_upper (Dec 0) then ddiv il_usd_upper daily_rewards_usd
         else Ok (Dec 0));
      Ok (daily_rewards_usd, days_to_breakeven_lower, days_to_breakeven_upper)
    else Ok (daily_rewards_usd, days_to_breakeven_lower, days_to_breakeven_upper)
  else Ok (daily_rewards_usd, days_to_breakeven_lower, days_to_breakeven_upper).

(** Lines 810-822: the breakeven display string of one bound. *)
Definition breakeven_str (days_to_breakeven time_remaining : Decimal) : string :=
  let breakeven_str := "N/A"%string in
  if dgt days_to_breakeven (Dec 0) then
    let total_time_str := format_timedelta (DaysDec days_to_breakeven) in
    let remaining_time_str := format_timedelta (DaysDec time_remaining) in
    if negb (String.eqb remaining_time_str "Met")
    then (total_time_str ++ " (" ++ remaining_time_str ++ " left)")%string
    else (total_time_str ++ " (Met)")%string
  else breakeven_str.

(** Lines 825-831: the completion percentage of one bound. *)
Definition time_remaining_perc (days_to_breakeven time_remaining : Decimal) : res Decimal :=
  if dgt days_to_breakeven (Dec 0) then
    r ← ddiv time_remaining days_to_breakeven;
    Ok (dmul r (Dec 100))
  else Ok (Dec 0).

Record bound_block : Type := mk_bound_block {
  bb_price : string;
  bb_il_usd : string;
  bb_il_perc : string;
  bb_breakeven_time : string;
  bb_breakeven_time_perc : Decimal;
  bb_fees_vs_il : string
}.

Record current_block : Type := mk_current_block {
  cb_il_usd : string;
  cb_il_perc : string;
  cb_net_gain_loss : string
}.

(** A populated [il_data] dictionary. *)
Record il_data : Type := mk_il_data {
  il_lower_bound : bound_block;
  il_upper_bound : bound_block;
  il_current : current_block;
  il_position_age : string
}.

(** What the IL block leaves behind: [il_data] ([None] is the empty
    dictionary) and the function-level variables [perc_to_lower] and
    [perc_to_upper] ([None] while never assigned). *)
Record il_vars : Type := mk_il_vars {
  v_il_data : option il_data;
  v_perc_to_lower : option Decimal;
  v_perc_to_upper : option Decimal
}.

(** Lines 774-831 of the [try] body: everything up to the percentages.
    ([time_remaining.is_finite()] holds of every finite decimal, so the
    sentinel -1 of lines 827 and 831 is never taken.) *)
Definition il_figures (initial_info : initial_position)
    (initial_price_val position_usd_value days_active annualized_apr
       total_rewards_usd price_lower price_upper current_price : Decimal)
    (decimals0 decimals1 : Z) : res (bound_block * bound_block * current_block) :=
  let initial_price := initial_price_val in
  il_perc_lower ← calculate_il_percentage initial_price price_lower price_lower price_upper;
  il_perc_upper ← calculate_il_percentage initial_price price_upper price_lower price_upper;
  initial_amount0_adj ← ddiv (Dec (ip_amount0 initial_info)) (Dec (10 ^ decimals0));
  initial_amount1_adj ← ddiv (Dec (ip_amount1 initial_info)) (Dec (10 ^ decimals1));
  let hodl_val_at_lower := dadd (dmul initial_amount0_adj price_lower) initial_amount1_adj in
  let il_usd_lower := dmul il_perc_lower hodl_val_at_lower in
  let hodl_val_at_upper := dadd (dmul initial_amount0_adj price_upper) initial_amount1_adj in
  let il_usd_upper := dmul il_perc_upper hodl_val_at_upper in
  '(daily_rewards_usd, days_to_breakeven_lower, days_to_breakeven_upper) ←
    breakeven_days annualized_apr position_usd_value il_usd_lower il_usd_upper;
  let time_remaining_lower := dsub days_to_breakeven_lower days_active in
  let fee_il_diff_lower := dsub total_rewards_usd il_usd_lower in
  let time_remaining_upper := dsub days_to_breakeven_upper days_active in
  let fee_il_diff_upper := dsub total_rewards_usd il_usd_upper in
  il_perc_current ← calculate_il_percentage initial_price current_price price_lower price_upper;
  let hodl_val_at_current := dadd (dmul initial_amount0_adj current_price) initial_amount1_adj in
  let il_usd_current := dmul il_perc_current hodl_val_at_current in
  let net_gain_loss := dsub total_rewards_usd il_usd_current in
  let breakeven_lower_str := breakeven_str days_to_breakeven_lower time_remaining_lower in
  let breakeven_upper_str := breakeven_str days_to_breakeven_upper time_remaining_upper in
  time_remaining_perc_lower ← time_remaining_perc days_to_breakeven_lower time_remaining_lower;
  time_remaining_perc_upper ← time_remaining_perc days_to_breakeven_upper time_remaining_upper;
  Ok (mk_bound_block (fmt_whole price_lower) (fmt_money il_usd_lower)
        (fmt_percent il_perc_lower) breakeven_lower_str time_remaining_perc_lower
        (fmt_money fee_il_diff_lower),
      mk_bound_block (fmt_whole price_upper) (fmt_money il_usd_upper)
        (fmt_percent il_perc_upper) breakeven_upper_str time_remaining_perc_upper
        (fmt_money fee_il_diff_upper),
      mk_current_block (fmt_money il_usd_current) (fmt_percent il_perc_current)
        (fmt_money net_gain_loss)).

(** Lines 833-843: signed distance of the current price to one bound. *)
Definition perc_to_bound (current_price numerator : Decimal) : res Decimal :=
  if dgt current_price (Dec 0) then
    r ← ddiv numerator current_price;
    Ok (dmul r (Dec 100))
  else Ok (Dec 0).

(** Lines 771-872.  The block runs only for a position with a positive
    baseline price, a positive value and a positive age; an exception inside
    it empties [il_data] and keeps the variables assigned so far. *)
Definition il_block (initial_info : option initial_position)
    (initial_price_val position_usd_value days_active annualized_apr
       total_rewards_usd price_lower price_upper current_price : Decimal)
    (decimals0 decimals1 : Z) (perc_to_lower perc_to_upper : option Decimal) : il_vars :=
  match initial_info with
  | None => mk_il_vars None perc_to_lower perc_to_upper
  | Some initial_info =>
  if dgt initial_price_val (Dec 0) && dgt position_usd_value (Dec 0)
     && dgt days_active (Dec 0) then
    match il_figures initial_info initial_price_val position_usd_value days_active
            annualized_apr total_rewards_usd price_lower price_upper current_price
            decimals0 decimals1 with
    | Raise _ => mk_il_vars None perc_to_lower perc_to_upper
    | Ok (lower, upper, current) =>
        match perc_to_bound current_price (dsub current_price price_lower) with
        | Raise _ => mk_il_vars None (Some (Dec 0)) perc_to_upper
        | Ok perc_to_lower =>
            match perc_to_bound current_price (dsub price_upper current_price) with
            | Raise _ => mk_il_vars None (Some perc_to_lower) (Some (Dec 0))
            | Ok perc_to_upper =>
                mk_il_vars
                  (Some (mk_il_data lower upper current
                           (format_timedelta (DaysDec days_active))))
                  (Some perc_to_lower) (Some perc_to_upper)
            end
        end
    end
  else mk_il_vars None perc_to_lower perc_to_upper
  end.

(** ** The per-position pipeline *)

Record initial_state : Type := mk_initial_state {
  is_date : string;
  is_balances : string;
  is_price : string;
  is_usd_value : string
}.

(** One element of [all_positions_data]. *)
Record position_report : Type := mk_position_report {
  pr_token_id : Z;
  pr_pair : string;
  pr_status : string;
  pr_estimated_value_usd : string;
  pr_price_range : string;
  pr_price_range_lower : string;
  pr_price_range_upper : string;
  pr_price_range_percentage : Decimal;
  pr_perc_to_lower : string;
  pr_perc_to_upper : string;
  pr_current_price : string;
  pr_initial_state : initial_state;
  pr_current_balances : string;
  pr_rewards : list reward_entry;
  pr_total_rewards_usd : string;
  pr_annualized_apr : string;
  pr_daily_projected_usd_earnings : string;
  pr_annual_projected_usd_earnings : string;
  pr_impermanent_loss_data : option il_data
}.

(** Lines 651-677: the baseline of a position that the store does not know
    yet is captured from its mint event, or from the current state when no
    mint event is found; then the entry is read back for [db_save]. *)
Definition capture_baseline (c : chain) (wallet_address : address) (token_id : Z)
    (pos : position_data) (token0_info token1_info : token_info)
    (amount0 amount1 : Z) (current_price : Decimal)
    (initial_data_cache : gmap string initial_position)
    : res (gmap string initial_position) :=
  let token_id_str := str_of_int token_id in
  initial_data_cache ←
    match initial_data_cache !! token_id_str with
    | Some _ => Ok initial_data_cache
    | None =>
        match get_position_creation_info c token_id wallet_address with
        | Some creation_info =>
            match get_pool_info c (pd_token0 pos) (pd_token1 pos)
                    (AtBlock (ci_block_number creation_info)) with
            | Some hist_pool_info =>
                '(initial_amount0, initial_amount1) ←
                  calculate_token_amounts (pd_liquidity pos) (pi_sqrt_price hist_pool_info)
                    (pd_tickLower pos) (pd_tickUpper pos);
                let initial_price :=
                  tick_to_price (pi_current_tick hist_pool_info)
                    (ti_decimals token0_info) (ti_decimals token1_info) in
                Ok (<[token_id_str :=
                       mk_initial_position
                         (fromtimestamp_strftime c (ci_timestamp creation_info))
                         (BlockNumber (ci_block_number creation_info))
                         initial_amount0 initial_amount1 (Some initial_price)]>
                      initial_data_cache)
            | None => Ok initial_data_cache
            end
        | None =>
            Ok (<[token_id_str :=
                   mk_initial_position (now_strftime c ++ " (Current)")%string BlockNA
                     amount0 amount1 (Some current_price)]>
                  initial_data_cache)
        end
    end;
  (* db_save_initial_position(token_id_str, initial_data_cache[token_id_str]) *)
  match initial_data_cache !! token_id_str with
  | Some _ => Ok initial_data_cache
  | None => Raise KeyError
  end.

(** Lines 679-695: the USD value of the current amounts. *)
Definition position_value (token0_info token1_info : token_info) (amount0 amount1 : Z)
    (price0 price1 : option Decimal) : res Decimal :=
  let position_usd_value := Dec 0 in
  position_usd_value ←
    match price0 with
    | Some p0 =>
        if dtruth p0 then
          a ← ddiv (Dec amount0) (Dec (10 ^ ti_decimals token0_info));
          Ok (dadd position_usd_value (dmul a p0))
        else Ok position_usd_value
    | None => Ok position_usd_value
    end;
  position_usd_value ←
    match price1 with
    | Some p1 =>
        if dtruth p1 then
          a ← ddiv (Dec amount1) (Dec (10 ^ ti_decimals token1_info));
          Ok (dadd position_usd_value (dmul a p1))
        else Ok position_usd_value
    | None => Ok position_usd_value
    end;
  if deq position_usd_value (Dec 0) then
    if String.eqb (ti_symbol token1_info) "USDC" && truthy price0 then
      a ← ddiv (Dec amount0) (Dec (10 ^ ti_decimals token0_info));
      b ← ddiv (Dec amount1) (Dec (10 ^ ti_decimals token1_info));
      Ok (dadd (dmul a (default (Dec 0) price0)) b)
    else if String.eqb (ti_symbol token0_info) "USDC" && truthy price1 then
      a ← ddiv (Dec amount1) (Dec (10 ^ ti_decimals token1_info));
      b ← ddiv (Dec amount0) (Dec (10 ^ ti_decimals token0_info));
      Ok (dadd (dmul a (default (Dec 0) price1)) b)
    else Ok (Dec 0)
  else Ok position_usd_value.

(** Lines 706-711: the baseline price as a number, 0 when it does not read. *)
Definition initial_price_of (initial_info : option initial_position) : Decimal :=
  match initial_info with
  | Some initial_info =>
      match ip_price initial_info with
      | Some p => p
      | None => Dec 0
      end
  | None => Dec 0
  end.

(** Lines 705 and 714-725: the USD value of the baseline amounts. *)
Definition initial_value (token0_info token1_info : token_info)
    (initial_info : option initial_position) (initial_price_val : Decimal)
    (price0 price1 : option Decimal) : res Decimal :=
  match initial_info with
  | None => Ok (Dec 0)
  | Some initial_info =>
  if dgt initial_price_val (Dec 0) then
    initial_amount0_adj ←
      ddiv (Dec (ip_amount0 initial_info)) (Dec (10 ^ ti_decimals token0_info));
    initial_amount1_adj ←
      ddiv (Dec (ip_amount1 initial_info)) (Dec (10 ^ ti_decimals token1_info));
    if String.eqb (ti_symbol token1_info) "USDC" then
      Ok (dadd (dmul initial_amount0_adj initial_price_val) initial_amount1_adj)
    else if String.eqb (ti_symbol token0_info) "USDC" then
      inv ← ddiv (Dec 1) initial_price_val;
      Ok (dadd (dmul initial_amount1_adj inv) initial_amount0_adj)
    else if truthy price0 && truthy price1 then
      Ok (dadd (dmul initial_amount0_adj (default (Dec 0) price0))
               (dmul initial_amount1_adj (default (Dec 0) price1)))
    else Ok (Dec 0)
  else Ok (Dec 0)
  end.

(** The variables of [find_and_display_positions] that live across the
    rounds of the loop over [active_positions]. *)
Record loop_state : Type := mk_loop_state {
  ls_initial_data_cache : gmap string initial_position;
  ls_total_portfolio_value : Decimal;
  ls_all_positions_data : list position_report;
  ls_perc_to_lower : option Decimal;
  ls_perc_to_upper : option Decimal
}.

(** Reading a local variable that may never have been assigned. *)
Definition read_local (v : option Decimal) : res Decimal :=
  match v with
  | Some d => Ok d
  | None => Raise UnboundLocalError
  end.

(** Lines 632-903: one round of [for i, pos_container in enumerate(active_positions)].
    [Ok] with the state unchanged is [continue]; [Raise] leaves the function. *)
Definition position_step (c : chain) (wallet_address : address)
    (price_cache : gmap string Decimal) (st : loop_state)
    (pos_container : Z * position_data) : res loop_state :=
  let '(token_id, pos) := pos_container in
  let token_id_str := str_of_int token_id in
  let tickLower := pd_tickLower pos in
  let tickUpper := pd_tickUpper pos in
  let token0_info := get_token_info c (pd_token0 pos) in
  let token1_info := get_token_info c (pd_token1 pos) in
  match get_pool_info c (pd_token0 pos) (pd_token1 pos) Latest with
  | None => Ok st
  | Some current_pool_info =>
      let current_sqrt_price := pi_sqrt_price current_pool_info in
      let current_tick := pi_current_tick current_pool_info in
      '(amount0, amount1) ←
        calculate_token_amounts (pd_liquidity pos) current_sqrt_price tickLower tickUpper;
      let current_price :=
        tick_to_price current_tick (ti_decimals token0_info) (ti_decimals token1_info) in
      initial_data_cache ←
        capture_baseline c wallet_address token_id pos token0_info token1_info
          amount0 amount1 current_price (ls_initial_data_cache st);
      let price0 := price_cache !! ti_symbol token0_info in
      let price1 := price_cache !! ti_symbol token1_info in
      position_usd_value ←
        position_value token0_info token1_info amount0 amount1 price0 price1;
      let total_portfolio_value := dadd (ls_total_portfolio_value st) position_usd_value in
      let position_status :=
        if (tickLower <=? current_tick) && (current_tick <=? tickUpper)
        then "IN RANGE"%string else "OUT OF RANGE"%string in
      let price_lower :=
        tick_to_price tickLower (ti_decimals token0_info) (ti_decimals token1_info) in
      let price_upper :=
        tick_to_price tickUpper (ti_decimals token0_info) (ti_decimals token1_info) in
      (* initial_data_cache.get(token_id_str, {}) *)
      let initial_info := initial_data_cache !! token_id_str in
      let initial_date := from_option ip_date "N/A"%string initial_info in
      let initial_amount0 := from_option ip_amount0 0 initial_info in
      let initial_amount1 := from_option ip_amount1 0 initial_info in
      let initial_price_val := initial_price_of initial_info in
      initial_usd_value ←
        initial_value token0_info token1_info initial_info initial_price_val price0 price1;
      '(rewards_data, total_rewards_usd) ←
        rewards_block c price_cache token_id (pi_pool_address current_pool_info);
      let apr := apr_block c initial_info position_usd_value total_rewards_usd in
      let il :=
        il_block initial_info initial_price_val position_usd_value (days_active apr)
          (annualized_apr apr) total_rewards_usd price_lower price_upper current_price
          (ti_decimals token0_info) (ti_decimals token1_info)
          (ls_perc_to_lower st) (ls_perc_to_upper st) in
      price_range_percentage ←
        (if dgt (dsub price_upper price_lower) (Dec 0) then
           r ← ddiv (dsub current_price price_lower) (dsub price_upper price_lower);
           Ok (dmul r (Dec 100))
         else Ok (Dec 0));
      perc_to_lower ← read_local (v_perc_to_lower il);
      perc_to_upper ← read_local (v_perc_to_upper il);
      initial_balance0 ← format_amount initial_amount0 (ti_decimals token0_info);
      initial_balance1 ← format_amount initial_amount1 (ti_decimals token1_info);
      current_balance0 ← format_amount amount0 (ti_decimals token0_info);
      current_balance1 ← format_amount amount1 (ti_decimals token1_info);
      let sym0 := ti_symbol token0_info in
      let sym1 := ti_symbol token1_info in
      let report :=
        mk_position_report token_id
          (sym0 ++ "/" ++ sym1)%string
          position_status
          (fmt_money position_usd_value)
          (fmt_whole price_lower ++ " - " ++ fmt_whole price_upper)%string
          (fmt_whole price_lower)
          (fmt_whole price_upper)
          price_range_percentage
          (fmt_money perc_to_lower ++ "%")%string
          (fmt_money perc_to_upper ++ "%")%string
          (fmt_whole current_price ++ " " ++ sym1 ++ "/" ++ sym0)%string
          (mk_initial_state initial_date
             (initial_balance0 ++ " " ++ sym0 ++ " & " ++ initial_balance1 ++ " " ++ sym1)%string
             (fmt_whole initial_price_val ++ " " ++ sym1 ++ "/" ++ sym0)%string
             (fmt_money initial_usd_value))
          (current_balance0 ++ " " ++ sym0 ++ " & " ++ current_balance1 ++ " " ++ sym1)%string
          rewards_data
          (fmt_money total_rewards_usd)
          (fmt_money (annualized_apr apr) ++ "%")%string
          (fmt_money (daily_projected_usd_earnings apr))
          (fmt_money (annual_projected_usd_earnings apr))
          (v_il_data il) in
      Ok (mk_loop_state initial_data_cache total_portfolio_value
            (ls_all_positions_data st ++ [report])
            (v_perc_to_lower il) (v_perc_to_upper il))
  end.

Fixpoint positions_loop (c : chain) (wallet_address : address)
    (price_cache : gmap string Decimal) (active_positions : list (Z * position_data))
    (st : loop_state) : res loop_state :=
  match active_positions with
  | [] => Ok st
  | pos_container :: rest =>
      st ← position_step c wallet_address price_cache st pos_container;
      positions_loop c wallet_address price_cache rest st
  end.

(** ** The report *)

Record portfolio_report : Type := mk_portfolio_report {
  total_portfolio_value : string;
  num_active_positions : Z;
  total_daily_projected_usd_earnings : string;
  total_annual_projected_usd_earnings : string;
  total_annual_yield : string;
  report_positions : list position_report
}.

(** What [find_and_display_positions] returns: an [error] object, a
    [message] object or the portfolio report. *)
Inductive response : Type :=
  | ErrorResponse (error : string)
  | MessageResponse (message : string)
  | Portfolio (report : portfolio_report).

(** Lines 908-916: the totals are read back from the formatted fields. *)
Definition sum_field (field : position_report -> string)
    (all_positions_data : list position_report) : Decimal :=
  fold_left (fun total pos_data => dadd total (parse_money (field pos_data)))
    all_positions_data (Dec 0).

(** [find_and_display_positions(wallet_address)].  The two [error] texts
    stand for the source's f-strings, which append the RPC URL and the text
    of the exception. *)
Definition find_and_display_positions (c : chain) (wallet_address : address)
    : res response :=
  if negb (is_connected c) then Ok (ErrorResponse "Failed to connect to Sonic RPC")
  else
    let initial_data_cache := db_load_initial_positions c in
    let price_cache := prefetch_prices c in
    match balanceOf c wallet_address with
    | Raise _ => Ok (ErrorResponse "Error getting wallet balance")
    | Ok balance =>
        if balance =? 0 then Ok (MessageResponse "No positions found for this wallet.")
        else
          let active_positions := enumerate_active c wallet_address balance in
          match active_positions with
          | [] => Ok (MessageResponse "No active positions found.")
          | _ =>
              st ← positions_loop c wallet_address price_cache active_positions
                     (mk_loop_state initial_data_cache (Dec 0) [] None None);
              let all_positions_data := ls_all_positions_data st in
              let total_daily :=
                sum_field pr_daily_projected_usd_earnings all_positions_data in
              let total_annual :=
                sum_field pr_annual_projected_usd_earnings all_positions_data in
              total_annual_yield ←
                (if dgt (ls_total_portfolio_value st) (Dec 0) then
                   r ← ddiv total_annual (ls_total_portfolio_value st);
                   Ok (dmul r (Dec 100))
                 else Ok (Dec 0));
              Ok (Portfolio
                    (mk_portfolio_report
                       (fmt_money (ls_total_portfolio_value st))
                       (Z.of_nat (length active_positions))
                       (fmt_money total_daily)
                       (fmt_money total_annual)
                       (fmt_money total_annual_yield ++ "%")%string
                       all_positions_data))
          end
    end.

(** ** Reads of the node

    The helper functions that the report calls, over the raw contract reads
    of the node.  [to_checksum_address] raises on a malformed address; every
    [.call()] may raise. *)

Record node : Type := mk_node {
  to_checksum_address : address -> res address;
  (** ERC-20 [symbol()] and [decimals()] (a uint8) *)
  symbol_call : address -> res string;
  decimals_call : address -> res N;
  (** pool [slot0()] at a block: [sqrtPriceX96] (a uint160) and [tick] *)
  slot0_call : address -> block_identifier -> res (N * Z);
  token0_call : address -> res address;
  token1_call : address -> res address;
  (** V2 pool [getReserves()]: [reserve0] and [reserve1] (uint112) *)
  getReserves_call : address -> res (N * N);
  (** voter [gaugeForPool(pool)] *)
  gaugeForPool_call : address -> address -> res address;
  (** gauge [getRewardTokens()] and [earned(token, tokenId)] *)
  getRewardTokens_call : address -> res (list address);
  earned_call : address -> address -> Z -> res N
}.

Definition VOTER_CONTRACT : address := "0x9f59398d0a397b2eeb8a6123a6c7295cb0b0062d".

Definition KNOWN_POOLS : list (address * address * address) :=
  [ ("0x0555E30da8f98308EdB960aa94C0Db47230d2B9c",
     "0x29219dd400f2Bf60E5a23d13Be72B486D4038894", WBTC_USDC_POOL);
    ("0x3333b97138D4b086720b5aE8A7844b1345a33333",
     "0x29219dd400f2Bf60E5a23d13Be72B486D4038894", SHADOW_USDC_POOL) ].

(** [KNOWN_TOKENS.get(address)] and [KNOWN_POOLS.get((a, b))] *)
Definition known_token (a : address) : option token_info :=
  snd <$> List.find (fun k => String.eqb k.1 a) KNOWN_TOKENS.

Definition known_pool (a b : address) : option address :=
  snd <$> List.find (fun k => String.eqb k.1.1 a && String.eqb k.1.2 b) KNOWN_POOLS.

(** [calculate_price_from_sqrt_price_x96(sqrt_price_x96, token0_decimals, token1_decimals)] *)
Definition calculate_price_from_sqrt_price_x96
    (sqrt_price_x96 token0_decimals token1_decimals : Z) : res Decimal :=
  let Q96 := Dec (2 ^ 96) in
  r ← ddiv (Dec sqrt_price_x96) Q96;
  let price_ratio := dpow r 2 in
  decimal_adjustment ←
    ddiv (dpow (Dec 10) token0_decimals) (dpow (Dec 10) token1_decimals);
  let adjusted_price := dmul price_ratio decimal_adjustment in
  Ok adjusted_price.

Module Node.

(** [get_token_info(token_address, cache)]: the info and the cache after the
    call. *)
Definition get_token_info (n : node) (token_address : address)
    (cache : gmap address token_info) : res (token_info * gmap address token_info) :=
  checksum_address ← to_checksum_address n token_address;
  match cache !! checksum_address with
  | Some info => Ok (info, cache)
  | None =>
      match known_token checksum_address with
      | Some info => Ok (info, <[checksum_address := info]> cache)
      | None =>
          let symbol :=
            match symbol_call n checksum_address with
            | Ok symbol => symbol
            | Raise _ => ("Unknown (" ++ substring 0 6 checksum_address ++ "...)")%string
            end in
          let decimals :=
            match decimals_call n checksum_address with
            | Ok decimals => Z.of_N decimals
            | Raise _ => 18
            end in
          let info := mk_token_info symbol decimals in
          Ok (info, <[checksum_address := info]> cache)
      end
  end.

(** [symbol in ['USDC', 'USDC.e']] *)
Definition is_usdc (symbol : string) : bool :=
  String.eqb symbol "USDC" || String.eqb symbol "USDC.e".

(** [get_v3_pool_price(pool_address)] *)
Definition get_v3_pool_price (n : node) (pool_address : address) : option Decimal :=
  match (pool ← to_checksum_address n pool_address;
         slot0 ← slot0_call n pool Latest;
         let sqrt_price_x96 := Z.of_N slot0.1 in
         token0_address ← token0_call n pool;
         token1_address ← token1_call n pool;
         let token_info_cache := ∅ in
         '(token0_info, token_info_cache) ←
           get_token_info n token0_address token_info_cache;
         '(token1_info, token_info_cache) ←
           get_token_info n token1_address token_info_cache;
         price ← calculate_price_from_sqrt_price_x96 sqrt_price_x96
                   (ti_decimals token0_info) (ti_decimals token1_info);
         if is_usdc (ti_symbol token1_info) then Ok (Some price)
         else if is_usdc (ti_symbol token0_info) then
           inverse ← ddiv (Dec 1) price;
           Ok (Some inverse)
         else Ok None) with
  | Ok price => price
  | Raise _ => None
  end.

(** [get_v2_pool_price(pool_address)] *)
Definition get_v2_pool_price (n : node) (pool_address : address) : option Decimal :=
  match (pool ← to_checksum_address n pool_address;
         reserves ← getReserves_call n pool;
         token0_address ← token0_call n pool;
         token1_address ← token1_call n pool;
         let token_info_cache := ∅ in
         '(token0_info, token_info_cache) ←
           get_token_info n token0_address token_info_cache;
         '(token1_info, token_info_cache) ←
           get_token_info n token1_address token_info_cache;
         let reserve0 := Dec (Z.of_N reserves.1) in
         let reserve1 := Dec (Z.of_N reserves.2) in
         reserve0_adjusted ← ddiv reserve0 (Dec (10 ^ ti_decimals token0_info));
         reserve1_adjusted ← ddiv reserve1 (Dec (10 ^ ti_decimals token1_info));
         if dgt reserve0_adjusted (Dec 0) then
           price ← ddiv reserve1_adjusted reserve0_adjusted;
           if is_usdc (ti_symbol token1_info) then Ok (Some price)
           else if is_usdc (ti_symbol token0_info) then
             inverse ← ddiv (Dec 1) price;
             Ok (Some inverse)
           else Ok None
         else Ok None) with
  | Ok price => price
  | Raise _ => None
  end.

(** The module-level price cache: [_price_cache] and
    [_price_cache_timestamp].  Instants are counted in microseconds, the
    resolution of [datetime], from [datetime.min], the initial timestamp. *)
Record price_cache_state : Type := mk_price_cache_state {
  _price_cache : gmap address Decimal;
  _price_cache_timestamp : Z
}.

Definition initial_price_cache_state : price_cache_state :=
  mk_price_cache_state ∅ 0.

(** [timedelta(seconds=PRICE_CACHE_DURATION)] *)
Definition PRICE_CACHE_DURATION : Z := 60.
Definition cache_duration : Z := PRICE_CACHE_DURATION * 1000000.

(** [get_pool_price(pool_address)] at the instant [current_time]
    ([datetime.now()]), on the node as it answers then. *)
Definition get_pool_price (n : node) (current_time : Z) (pool_address : address)
    (st : price_cache_state) : option Decimal * price_cache_state :=
  let fetch (st : price_cache_state) :=
    match get_v3_pool_price n pool_address with
    | Some v3_price =>
        (Some v3_price,
         mk_price_cache_state (<[pool_address := v3_price]> (_price_cache st))
           current_time)
    | None =>
        match get_v2_pool_price n pool_address with
        | Some v2_price =>
            (Some v2_price,
             mk_price_cache_state (<[pool_address := v2_price]> (_price_cache st))
               current_time)
        | None => (None, st)
        end
    end in
  if current_time - _price_cache_timestamp st <? cache_duration then
    match _price_cache st !! pool_address with
    | Some price => (Some price, st)
    | None => fetch st
    end
  else fetch (mk_price_cache_state ∅ (_price_cache_timestamp st)).

(** [get_pool_info(web3, token0, token1, block_identifier)] *)
Definition get_pool_info (n : node) (token0 token1 : address)
    (block_identifier : block_identifier) : res (option pool_info) :=
  token0_cs ← to_checksum_address n token0;
  token1_cs ← to_checksum_address n token1;
  let pool_address :=
    match known_pool token0_cs token1_cs with
    | Some pool_address => Some pool_address
    | None => known_pool token1_cs token0_cs
    end in
  match pool_address with
  | None => Ok None
  | Some pool_address =>
      match (pool ← to_checksum_address n pool_address;
             slot0 ← slot0_call n pool block_identifier;
             let sqrt_price_x96 := Z.of_N slot0.1 in
             let current_tick := slot0.2 in
             sqrt_price ← ddiv (Dec sqrt_price_x96) (Dec (2 ^ 96));
             Ok (mk_pool_info pool_address sqrt_price current_tick)) with
      | Ok info => Ok (Some info)
      | Raise _ => Ok None
      end
  end.

(** [rewards[token_address] = earned] on a dictionary kept in insertion
    order. *)
Fixpoint dict_set (key : address) (value : Z) (d : list (address * Z))
    : list (address * Z) :=
  match d with
  | [] => [(key, value)]
  | (k, v) :: rest =>
      if String.eqb k key then (k, value) :: rest
      else (k, v) :: dict_set key value rest
  end.

(** The loop over [reward_tokens]; an exception ends it with the rewards
    collected so far. *)
Fixpoint earned_loop (n : node) (gauge : address) (token_id : Z)
    (reward_tokens : list address) (rewards : list (address * Z))
    : list (address * Z) :=
  match reward_tokens with
  | [] => rewards
  | token_address :: rest =>
      match (token ← to_checksum_address n token_address;
             earned_call n gauge token token_id) with
      | Raise _ => rewards
      | Ok earned =>
          let rewards :=
            if (0 <? earned)%N then dict_set token_address (Z.of_N earned) rewards
            else rewards in
          earned_loop n gauge token_id rest rewards
      end
  end.

Definition zero_address : address := "0x0000000000000000000000000000000000000000".

(** [get_emissions_rewards(web3, token_id, pool_address)]: the items of the
    returned dictionary. *)
Definition get_emissions_rewards (n : node) (token_id : Z) (pool_address : address)
    : list (address * Z) :=
  let rewards := [] in
  match (voter ← to_checksum_address n VOTER_CONTRACT;
         pool ← to_checksum_address n pool_address;
         gauge_address ← gaugeForPool_call n voter pool;
         if String.eqb gauge_address zero_address then Ok rewards
         else
           gauge ← to_checksum_address n gauge_address;
           reward_tokens ← getRewardTokens_call n gauge;
           Ok (earned_loop n gauge token_id reward_tokens rewards)) with
  | Ok rewards => rewards
  | Raise _ => rewards
  end.

(** What the node answers for a pool at the moment: the V3 price, or else
    the V2 price. *)
Definition fresh_price (n : node) (pool_address : address) : option Decimal :=
  match get_v3_pool_price n pool_address with
  | Some v3_price => Some v3_price
  | None => get_v2_pool_price n pool_address
  end.

(** No cached price is negative. *)
Definition prices_nonneg (st : price_cache_state) : Prop :=
  forall pool_address price,
    _price_cache st !! pool_address = Some price -> 0 <= coef price.

End Node.

(** ** The baseline table

    A row of [initial_positions], in column order, and the dictionary that
    [db_load_initial_positions] makes of it. *)
Record db_row : Type := mk_db_row {
  row_token_id : string;
  row_creation_date : string;
  row_block_number : Z;
  row_amount0 : string;
  row_amount1 : string;
  row_price : string
}.

Record stored_position : Type := mk_stored_position {
  sp_date : string;
  sp_block : Z;
  sp_amount0 : Z;
  sp_amount1 : Z;
  sp_price : string
}.

(** The loop over the fetched rows; [int] is Python's [int()] on text.  The
    [try] is around the whole loop, so the first row that raises ends the
    load, with the dictionary as it is. *)
Fixpoint load_rows (int : string -> res Z) (rows : list db_row)
    (initial_data : gmap string stored_position) : gmap string stored_position :=
  match rows with
  | [] => initial_data
  | row :: rest =>
      match (amount0 ← int (row_amount0 row);
             amount1 ← int (row_amount1 row);
             Ok (mk_stored_position (row_creation_date row) (row_block_number row)
                   amount0 amount1 (row_price row))) with
      | Ok entry => load_rows int rest (<[row_token_id row := entry]> initial_data)
      | Raise _ => initial_data
      end
  end.

Module Db.

(** [db_load_initial_positions()], on the outcome of
    [conn.execute(select_sql).fetchall()]. *)
Definition db_load_initial_positions (int : string -> res Z)
    (fetchall : res (list db_row)) : gmap string stored_position :=
  let initial_data := ∅ in
  match fetchall with
  | Ok rows => load_rows int rows initial_data
  | Raise _ => initial_data
  end.

End Db.

(** ** The HTTP endpoint of [app.py] *)

Inductive http_body : Type :=
  | JsonData (json : string)
  | JsonError (error : string).

(** [get_data()] for the query parameter [wallet_address] ([None] when the
    request carries none); [jsonify] is Flask's serializer.  The text of the
    exception that the last message appends is left out. *)
Definition get_data (jsonify : response -> res string) (c : chain)
    (wallet_address : option string) : http_body * Z :=
  match wallet_address with
  | None => (JsonError "Wallet address is required.", 400)
  | Some wallet_address =>
      if String.eqb wallet_address "" then (JsonError "Wallet address is required.", 400)
      else
        match (data ← find_and_display_positions c wallet_address; jsonify data) with
        | Ok json => (JsonData json, 200)
        | Raise _ => (JsonError "An unexpected error occurred", 500)
        end
  end.

(** *** Duration formatting, as the specification words it *)

(** [int(days * 24 * 60)] *)
Definition minutes_of_days (days : Decimal) : Z :=
  dint (dmul (dmul days (Dec 24)) (Dec 60)).

(** Greedy decomposition of a number of minutes into years of 365 days,
    months of 30 days, weeks, days, hours and minutes. *)
Definition greedy_components (total_minutes : Z) : list (Z * string) :=
  let years := total_minutes / 525600 in
  let rest := total_minutes mod 525600 in
  let months := rest / 43200 in
  let rest := rest mod 43200 in
  let weeks := rest / 10080 in
  let rest := rest mod 10080 in
  let days := rest / 1440 in
  let rest := rest mod 1440 in
  let hours := rest / 60 in
  let minutes := rest mod 60 in
  [(years, "y"); (months, "mo"); (weeks, "w"); (days, "d"); (hours, "h");
   (minutes, "m")]%string.

Definition render_component (c : Z * string) : string :=
  (str_of_int c.1 ++ c.2)%string.

(** The three most significant non-zero components, in descending order. *)
Definition shown_components (total_minutes : Z) : list string :=
  map render_component
    (firstn 3 (List.filter (fun c => negb (c.1 =? 0)) (greedy_components total_minutes))).

(** *** Range amounts, as the specification words it *)

(** [Decimal('1.0001')]: the base 1.0001 of the specification. *)
Definition base_1_0001 : Decimal := mkDec 10001 (-4).

(** The three-case decomposition of the specification, with the square-root
    prices of the two ticks derived as [base^(tick/2)] and every result
    truncated to an integer. *)
Definition range_amounts_on (base : Decimal) (liquidity : Z) (current : Decimal)
    (lower_tick upper_tick : Z) : res (Z * Z) :=
  let L := Dec liquidity in
  let sqrtLower := dpow_half base lower_tick in
  let sqrtUpper := dpow_half base upper_tick in
  if dle current sqrtLower then
    r ← ddiv (dsub sqrtUpper sqrtLower) (dmul sqrtLower sqrtUpper);
    Ok (dint (dmul L r), 0)
  else if dge current sqrtUpper then
    Ok (0, dint (dmul L (dsub sqrtUpper sqrtLower)))
  else
    r ← ddiv (dsub sqrtUpper current) (dmul current sqrtUpper);
    Ok (dint (dmul L r), dint (dmul L (dsub current sqrtLower))).

(** The amounts of the specification: square-root prices [1.0001^(tick/2)]. *)
Definition range_amounts_by_spec (liquidity : Z) (current : Decimal)
    (lower_tick upper_tick : Z) : res (Z * Z) :=
  range_amounts_on base_1_0001 liquidity current lower_tick upper_tick.

(** *** Impermanent loss, as the specification words it *)

(** The three-case range decomposition for liquidity 1, on price square
    roots: the amounts of token0 and token1 that the range [[p_lower, p_upper]]
    holds at price [p]. *)
Definition region_amounts (p p_lower p_upper : Decimal) : res (Decimal * Decimal) :=
  sqrt_p ← dsqrt p;
  sqrt_lower ← dsqrt p_lower;
  sqrt_upper ← dsqrt p_upper;
  if dle p p_lower then
    a ← ddiv (dmul (Dec 1) (dsub sqrt_upper sqrt_lower)) (dmul sqrt_lower sqrt_upper);
    Ok (a, Dec 0)
  else if dge p p_upper then
    Ok (Dec 0, dmul (Dec 1) (dsub sqrt_upper sqrt_lower))
  else
    a ← ddiv (dmul (Dec 1) (dsub sqrt_upper sqrt_p)) (dmul sqrt_p sqrt_upper);
    Ok (a, dmul (Dec 1) (dsub sqrt_p sqrt_lower)).

(** The value at price [p] of a pair of amounts, in units of token1. *)
Definition value_at (p : Decimal) (amounts : Decimal * Decimal) : Decimal :=
  dadd (dmul amounts.1 p) amounts.2.

(** *** Reward credit, as the specification words it *)





(** *** Auxiliary notions of the statements *)

(** A read of index [i] that finds a position without liquidity. *)
Definition closed_at (c : chain) (wallet_address : address) (i : Z) : Prop :=
  exists token_id pos_data,
    tokenOfOwnerByIndex c wallet_address i = Ok token_id
    /\ positions c token_id = Ok pos_data
    /\ pd_liquidity pos_data = 0.

(** How a number of days to breakeven follows from the daily reward and the
    impermanent loss in USD. *)
Definition days_rule (daily_rewards_usd il_usd days_to_breakeven : Decimal) : Prop :=
  (dgt daily_rewards_usd (Dec 0) = true -> dgt il_usd (Dec 0) = true ->
     ddiv il_usd daily_rewards_usd = Ok days_to_breakeven)
  /\ (dgt daily_rewards_usd (Dec 0) = false \/ dgt il_usd (Dec 0) = false ->
      days_to_breakeven = Dec 0).

(** *** Notions of the further properties *)

(** What the scan keeps of index [i]: the token id and the data of a position
    that was read and has liquidity. *)
Definition open_at (c : chain) (wallet_address : address) (i : Z)
    : option (Z * position_data) :=
  match tokenOfOwnerByIndex c wallet_address i with
  | Ok token_id =>
      match positions c token_id with
      | Ok pos_data =>
          if 0 <? pd_liquidity pos_data then Some (token_id, pos_data) else None
      | Raise _ => None
      end
  | Raise _ => None
  end.

(** Index [i] reads as a position without liquidity. *)
Definition reads_closed (c : chain) (wallet_address : address) (i : Z) : bool :=
  match tokenOfOwnerByIndex c wallet_address i with
  | Ok token_id =>
      match positions c token_id with
      | Ok pos_data => negb (0 <? pd_liquidity pos_data)
      | Raise _ => false
      end
  | Raise _ => false
  end.

(** The current state of the position's pool can be read. *)
Definition pool_readable (c : chain) (p : Z * position_data) : bool :=
  match get_pool_info c (pd_token0 p.2) (pd_token1 p.2) Latest with
  | Some _ => true
  | None => false
  end.


(** A character that [Decimal(...)] reads as a digit of the amount. *)
Definition is_digit (c : ascii) : bool :=
  let n := Z.of_nat (nat_of_ascii c) - 48 in (0 <=? n) && (n <=? 9).

(** The two characters of a number below 100. *)
Definition two_digits (r : Z) : list ascii :=
  [ascii_of_nat (Z.to_nat (48 + r / 10)); ascii_of_nat (Z.to_nat (48 + r mod 10))].

(** Half a unit of the last of the 50 digits, relative to the leading digit. *)
Definition half_ulp : Q := ((1 # 2) * ten ^ (- (prec - 1)))%Q.

(** ** A small wallet to run the report on

    WBTC/USDC positions in the range of ticks [-2, 2] around a pool at tick 0
    (100 USDC per WBTC after the decimal adjustment), with 5 xSHADOW of
    accrued emissions each and a SHADOW price of 2 USD.  [holdings] lists the
    wallet's positions by index; [mint_found] tells whether the log scan finds
    the mint event of a position and [history_readable] whether the pool can
    be read at the block of that event. *)

Definition WBTC : address := "0x0555E30da8f98308EdB960aa94C0Db47230d2B9c".
Definition USDC : address := "0x29219dd400f2Bf60E5a23d13Be72B486D4038894".
Definition xSHADOW : address := "0x5050bc082FF4A74Fb6B0B04385dEfdDB114b2424".

Definition open_position : position_data :=
  mk_position_data WBTC USDC (-2) 2 5000000000000.

Definition closed_position : position_data :=
  mk_position_data WBTC USDC (-2) 2 0.

Definition known_baseline : initial_position :=
  mk_initial_position "Sat 2026-10-24 12:00:00" (BlockNumber 1000)
    499950004 499950004 (Some (Dec 100)).

Definition example_chain (holdings : list (Z * position_data))
    (store : gmap string initial_position)
    (mint_found : Z -> bool) (history_readable : bool) : chain :=
  {| is_connected := true;
     balanceOf := fun _ => Ok (Z.of_nat (length holdings));
     tokenOfOwnerByIndex := fun _ i =>
       match holdings !! Z.to_nat i with
       | Some (token_id, _) => Ok token_id
       | None => Raise RpcError
       end;
     positions := fun token_id =>
       match List.find (fun h => h.1 =? token_id) holdings with
       | Some (_, pos_data) => Ok pos_data
       | None => Raise RpcError
       end;
     get_token_info := fun a =>
       match List.find (fun k => String.eqb k.1 a) KNOWN_TOKENS with
       | Some (_, info) => info
       | None => mk_token_info "Unknown" 18
       end;
     get_pool_info := fun _ _ block =>
       match block with
       | Latest => Some (mk_pool_info WBTC_USDC_POOL (Dec 1) 0)
       | AtBlock _ =>
           if history_readable
           then Some (mk_pool_info WBTC_USDC_POOL (mkDec 99997 (-5)) (-1))
           else None
       end;
     get_position_creation_info := fun token_id _ =>
       if mint_found token_id then Some (mk_creation_info 1000 1792843200) else None;
     get_emissions_rewards := fun _ _ => [(xSHADOW, 5000000000000000000)];
     get_pool_price := fun pool =>
       if String.eqb pool WBTC_USDC_POOL then Some (Dec 100) else Some (Dec 2);
     db_load_initial_positions := store;
     now_strftime := "Tue 2026-11-03 12:00:00";
     fromtimestamp_strftime := fun _ => "Sat 2026-10-24 12:00:00";
     seconds_since := fun _ => Ok (Dec 864000) |}.

Definition example_wallet : address := "0x00000000000000000000000000000000000000A1".

(** A wallet of seven positions: the newest (index 6, token 107) is open,
    the next five are closed, the oldest (index 0, token 101) is open. *)
Definition wallet_with_hidden_position : chain :=
  example_chain
    [(101, open_position); (102, closed_position); (103, closed_position);
     (104, closed_position); (105, closed_position); (106, closed_position);
     (107, open_position)]
    {[ "107"%string := known_baseline ]} (fun _ => true) true.

(** The response of the report on that wallet. *)
Definition response_with_hidden_position : res response :=
  Eval vm_compute in
    find_and_display_positions wallet_with_hidden_position example_wallet.

(** Two open positions, token 107 with a stored baseline and token 108
    without one. *)
Definition two_position_holdings : list (Z * position_data) :=
  [(107, open_position); (108, open_position)].

Definition store_with_107 : gmap string initial_position :=
  {[ "107"%string := known_baseline ]}.

(** The mint event of 108 is found, but the pool cannot be read at its block. *)
Definition wallet_with_unreadable_history : chain :=
  example_chain two_position_holdings store_with_107 (fun _ => true) false.

(** The same wallet when the pool can be read at that block. *)
Definition wallet_with_readable_history : chain :=
  example_chain two_position_holdings store_with_107 (fun _ => true) true.

(** The log scan finds no mint event: the baseline of 108 is captured from
    the current state. *)
Definition wallet_with_fresh_baseline : chain :=
  example_chain two_position_holdings store_with_107 (fun _ => false) true.

(** A wallet whose only position has no stored baseline and no mint event. *)
Definition wallet_of_one_fresh_position : chain :=
  example_chain [(108, open_position)] ∅ (fun _ => false) true.

Definition response_with_fresh_baseline : res response :=
  Eval vm_compute in find_and_display_positions wallet_with_fresh_baseline example_wallet.

(** The round of position 108 on that wallet, after a round that has
    assigned the percentages. *)
Definition state_before_108 : loop_state :=
  mk_loop_state store_with_107 (Dec 0) [] (Some (Dec 0)) (Some (Dec 0)).

Definition round_of_108 : res loop_state :=
  Eval vm_compute in
    position_step wallet_with_fresh_baseline example_wallet
      (prefetch_prices wallet_with_fresh_baseline) state_before_108
      (108, open_position).

(** A node to run the helpers on: every address is in checksum form, every
    pool is a WBTC/USDC V3 pool at price 1 (100 USDC per WBTC after the
    decimal adjustment), and the gauge lists three reward tokens, the second
    of which cannot be read. *)
Definition example_gauge : address := "0x00000000000000000000000000000000000000C3".

Definition example_node : node :=
  {| to_checksum_address := fun a => Ok a;
     symbol_call := fun _ => Raise RpcError;
     decimals_call := fun _ => Raise RpcError;
     slot0_call := fun _ _ => Ok ((2 ^ 96)%N, 0);
     token0_call := fun _ => Ok "0x0555E30da8f98308EdB960aa94C0Db47230d2B9c"%string;
     token1_call := fun _ => Ok "0x29219dd400f2Bf60E5a23d13Be72B486D4038894"%string;
     getReserves_call := fun _ => Raise RpcError;
     gaugeForPool_call := fun _ _ => Ok example_gauge;
     getRewardTokens_call := fun _ =>
       Ok [ "0x5050bc082FF4A74Fb6B0B04385dEfdDB114b2424";
            "0x3333b97138D4b086720b5aE8A7844b1345a33333";
            "0x0555E30da8f98308EdB960aa94C0Db47230d2B9c" ]%string;
     earned_call := fun _ token _ =>
       if String.eqb token "0x3333b97138D4b086720b5aE8A7844b1345a33333"
       then Raise RpcError else Ok 5000000000000000000%N |}.

(** A node that answers no call. *)
Definition unreachable_node : node :=
  {| to_checksum_address := fun a => Ok a;
     symbol_call := fun _ => Raise RpcError;
     decimals_call := fun _ => Raise RpcError;
     slot0_call := fun _ _ => Raise RpcError;
     token0_call := fun _ => Raise RpcError;
     token1_call := fun _ => Raise RpcError;
     getReserves_call := fun _ => Raise RpcError;
     gaugeForPool_call := fun _ _ => Raise RpcError;
     getRewardTokens_call := fun _ => Raise RpcError;
     earned_call := fun _ _ _ => Raise RpcError |}.

(** * Properties *)

(** ** Arithmetic of the decimal model *)

Lemma ten_pow_pos (e : Z) : (0 < ten ^ e)%Q.
Proof. apply Qpower_0_lt. reflexivity. Qed.

Lemma ten_pow_add (a b : Z) : (ten ^ (a + b) == ten ^ a * ten ^ b)%Q.
Proof. apply Qpower_plus. discriminate. Qed.

Lemma ten_pow_Z (a : Z) : 0 <= a -> (inject_Z (10 ^ a) == ten ^ a)%Q.
Proof. intros Ha. rewrite Zpower_Qpower by exact Ha. reflexivity. Qed.

Lemma ten_pow_le (a b : Z) : a <= b -> (ten ^ a <= ten ^ b)%Q.
Proof. intros H. apply Qpower_le_compat_l; [exact H | discriminate]. Qed.

Lemma ten_pow_lt (a b : Z) : a < b -> (ten ^ a < ten ^ b)%Q.
Proof. intros H. apply Qpower_lt_compat_l; [exact H | reflexivity]. Qed.

Lemma ten_pow_ge_1 (a : Z) : 0 <= a -> (1 <= ten ^ a)%Q.
Proof. intros H. apply Qpower_1_le; [discriminate | exact H]. Qed.

Lemma dval_pos (d : Decimal) : 0 < coef d <-> (0 < dval d)%Q.
Proof.
  unfold dval. pose proof (ten_pow_pos (expo d)) as Hp. split; intros H.
  - apply Qmult_lt_0_compat; [| exact Hp].
    change 0%Q with (inject_Z 0). rewrite <- Zlt_Qlt. exact H.
  - destruct (Z_lt_le_dec 0 (coef d)) as [Hc | Hc]; [exact Hc | exfalso].
    assert (inject_Z (coef d) <= 0)%Q as Hq.
    { change 0%Q with (inject_Z 0). rewrite <- Zle_Qle. exact Hc. }
    nra.
Qed.

Lemma dval_neg (d : Decimal) : coef d < 0 <-> (dval d < 0)%Q.
Proof.
  unfold dval. pose proof (ten_pow_pos (expo d)) as Hp. split; intros H.
  - assert (inject_Z (coef d) < 0)%Q as Hq.
    { change 0%Q with (inject_Z 0). rewrite <- Zlt_Qlt. exact H. }
    nra.
  - destruct (Z_lt_le_dec (coef d) 0) as [Hc | Hc]; [exact Hc | exfalso].
    assert (0 <= inject_Z (coef d))%Q as Hq.
    { change 0%Q with (inject_Z 0). rewrite <- Zle_Qle. exact Hc. }
    nra.
Qed.

Lemma dval_zero (d : Decimal) : coef d = 0 <-> (dval d == 0)%Q.
Proof.
  split; intros H.
  - unfold dval. rewrite H. ring.
  - destruct (Z.lt_trichotomy (coef d) 0) as [Hc | [Hc | Hc]]; [| exact Hc |].
    + apply dval_neg in Hc. lra.
    + apply dval_pos in Hc. lra.
Qed.

Lemma ndigits_aux_spec (fuel : nat) : forall n : Z,
  0 < n < 2 ^ Z.of_nat fuel ->
  1 <= ndigits_aux fuel n /\
  10 ^ (ndigits_aux fuel n - 1) <= n < 10 ^ ndigits_aux fuel n.
Proof.
  induction fuel as [| fuel IH]; intros n Hn.
  - simpl in Hn. lia.
  - cbn [ndigits_aux]. destruct (Z.ltb_spec n 10) as [Hlt | Hge].
    + simpl. lia.
    + assert (0 < n / 10 < 2 ^ Z.of_nat fuel) as Hq.
      { rewrite Nat2Z.inj_succ, Z.pow_succ_r in Hn by lia.
        split.
        - apply Z.div_str_pos. lia.
        - apply Z.div_lt_upper_bound; lia. }
      destruct (IH _ Hq) as [Hr [Hlo Hhi]].
      set (r := ndigits_aux fuel (n / 10)) in *.
      replace (1 + r - 1) with (Z.succ (r - 1)) by lia.
      replace (1 + r) with (Z.succ r) by lia.
      rewrite !Z.pow_succ_r by lia.
      pose proof (Z.div_mod n 10 ltac:(lia)) as Hdm.
      pose proof (Z.mod_pos_bound n 10 ltac:(lia)) as Hmb.
      lia.
Qed.

Lemma ndigits_spec (n : Z) : 0 < n ->
  1 <= ndigits n /\ 10 ^ (ndigits n - 1) <= n < 10 ^ ndigits n.
Proof.
  intros Hn. unfold ndigits. apply ndigits_aux_spec.
  split; [exact Hn |].
  rewrite Nat2Z.inj_succ, Z2Nat.id by apply Z.log2_nonneg.
  apply Z.log2_spec. exact Hn.
Qed.

(** [ilog10] brackets a positive rational between two powers of ten. *)
Lemma ilog10_spec (q : Q) : (0 < q)%Q ->
  (ten ^ ilog10 q <= q)%Q /\ (q < ten ^ (ilog10 q + 1))%Q.
Proof.
  intros Hq. unfold ilog10.
  destruct q as [n d]. cbn [Qnum Qden].
  assert (0 < n) as Hn.
  { unfold Qlt in Hq. simpl in Hq. lia. }
  destruct (ndigits_spec n Hn) as [Hn1 [Hnlo Hnhi]].
  destruct (ndigits_spec (Zpos d) ltac:(lia)) as [Hd1 [Hdlo Hdhi]].
  set (a := ndigits n) in *. set (b := ndigits (Z.pos d)) in *.
  assert (forall x y : Z, 0 <= x -> (inject_Z (10 ^ x) == ten ^ x)%Q) as HZ
    by (intros; apply ten_pow_Z; assumption).
  assert (n # d == inject_Z n / inject_Z (Z.pos d))%Q as Hnd by apply Qmake_Qdiv.
  assert (0 < inject_Z (Z.pos d))%Q as HD by reflexivity.
  assert (0 < inject_Z n)%Q as HN.
  { change 0%Q with (inject_Z 0). rewrite <- Zlt_Qlt. exact Hn. }
  assert (ten ^ (a - 1) <= inject_Z n)%Q as H1.
  { rewrite <- ten_pow_Z by lia. rewrite <- Zle_Qle. exact Hnlo. }
  assert (inject_Z n < ten ^ a)%Q as H2.
  { rewrite <- ten_pow_Z by lia. rewrite <- Zlt_Qlt. exact Hnhi. }
  assert (ten ^ (b - 1) <= inject_Z (Z.pos d))%Q as H3.
  { rewrite <- ten_pow_Z by lia. rewrite <- Zle_Qle. exact Hdlo. }
  assert (inject_Z (Z.pos d) < ten ^ b)%Q as H4.
  { rewrite <- ten_pow_Z by lia. rewrite <- Zlt_Qlt. exact Hdhi. }
  destruct (Qle_bool (ten ^ (a - b)) (n # d)) eqn:Htest.
  - apply Qle_bool_iff in Htest. split; [exact Htest |].
    rewrite Hnd. apply Qlt_shift_div_r; [exact HD |].
    replace (a - b + 1) with (a + - (b - 1)) by lia.
    rewrite ten_pow_add, Qpower_opp.
    pose proof (ten_pow_pos (b - 1)) as Hb. pose proof (ten_pow_pos a) as Ha.
    assert (ten ^ a * / ten ^ (b - 1) * ten ^ (b - 1) == ten ^ a)%Q as Heq
      by (field; lra).
    assert (0 < ten ^ a * / ten ^ (b - 1))%Q as Hpos.
    { apply Qmult_lt_0_compat; [exact Ha | apply Qinv_lt_0_compat; exact Hb]. }
    nra.
  - assert (n # d < ten ^ (a - b))%Q as Hlt.
    { apply Qnot_le_lt. intros Hc. apply Qle_bool_iff in Hc. congruence. }
    split.
    + rewrite Hnd. apply Qle_shift_div_l; [exact HD |].
      replace (a - b - 1) with ((a - 1) + - b) by lia.
      rewrite ten_pow_add, Qpower_opp.
      pose proof (ten_pow_pos b) as Hb. pose proof (ten_pow_pos (a - 1)) as Ha.
      assert (ten ^ (a - 1) * / ten ^ b * ten ^ b == ten ^ (a - 1))%Q as Heq
        by (field; lra).
      assert (0 < ten ^ (a - 1) * / ten ^ b)%Q as Hpos.
      { apply Qmult_lt_0_compat; [exact Ha | apply Qinv_lt_0_compat; exact Hb]. }
      nra.
    + replace (a - b - 1 + 1) with (a - b) by lia. exact Hlt.
Qed.

Lemma round_half_even_bounds (q : Q) :
  Qfloor q <= round_half_even q <= Qfloor q + 1.
Proof.
  unfold round_half_even.
  destruct (q - inject_Z (Qfloor q) ?= 1 # 2)%Q; [destruct (Z.even _) | |]; lia.
Qed.

Lemma Qfloor_ge_1 (q : Q) : (1 <= q)%Q -> 1 <= Qfloor q.
Proof. intros H. change 1 with (Qfloor 1). apply Qfloor_resp_le. exact H. Qed.

Lemma Qfloor_lt_0 (q : Q) : (q < 0)%Q -> Qfloor q < 0.
Proof.
  intros H. destruct (Z_lt_le_dec (Qfloor q) 0) as [Hc | Hc]; [exact Hc | exfalso].
  pose proof (Qfloor_le q) as Hf.
  assert (0 <= inject_Z (Qfloor q))%Q as H0.
  { change 0%Q with (inject_Z 0). rewrite <- Zle_Qle. exact Hc. }
  lra.
Qed.

Lemma Qfloor_le_neg_1 (q : Q) : (q <= -1)%Q -> Qfloor q <= -1.
Proof. intros H. change (-1) with (Qfloor (-1)). apply Qfloor_resp_le. exact H. Qed.

Lemma carry_pos (m e : Z) : 0 < m -> 0 < coef (carry m e).
Proof.
  intros Hm. unfold carry. destruct (Z.eqb_spec (Z.abs m) (10 ^ prec)) as [He | Hne].
  - cbn [coef]. apply Z.div_str_pos. rewrite Z.abs_eq in He by lia.
    rewrite He. unfold prec. lia.
  - exact Hm.
Qed.

Lemma carry_neg (m e : Z) : m < 0 -> coef (carry m e) < 0.
Proof.
  intros Hm. unfold carry. destruct (Z.eqb_spec (Z.abs m) (10 ^ prec)) as [He | Hne].
  - cbn [coef]. apply Z.div_lt_upper_bound; lia.
  - exact Hm.
Qed.

(** The represented value of a carried coefficient is that of the plain one. *)
Lemma carry_val (m e : Z) : (dval (carry m e) == inject_Z m * ten ^ e)%Q.
Proof.
  unfold carry. destruct (Z.eqb_spec (Z.abs m) (10 ^ prec)) as [He | Hne];
    [| reflexivity].
  unfold dval. cbn [coef expo]. rewrite ten_pow_add.
  assert (m = 10 * (m / 10)) as Hm.
  { apply Z_div_exact_full_2; [lia |].
    destruct (Z.abs_eq_or_opp m) as [Ha | Ha].
    - rewrite <- Ha, He. reflexivity.
    - assert (m = - 10 ^ prec) as -> by lia. reflexivity. }
  rewrite Hm at 2. rewrite inject_Z_mult.
  change (ten ^ 1)%Q with ten. unfold ten at 2.
  change (inject_Z 10) with (10 # 1). ring.
Qed.

Lemma round_ctx_zero (q : Q) : (q == 0)%Q -> round_ctx q = mkDec 0 0.
Proof.
  intros H. unfold round_ctx. apply Qeq_bool_iff in H. rewrite H. reflexivity.
Qed.

Lemma scaled_ge_1 (q : Q) (k : Z) :
  (0 < q)%Q -> 0 <= k -> (1 <= q * ten ^ (- (ilog10 q - k)))%Q.
Proof.
  intros Hq Hk. destruct (ilog10_spec q Hq) as [Hlo _].
  replace (- (ilog10 q - k)) with (k + - ilog10 q) by lia.
  rewrite ten_pow_add, Qpower_opp.
  pose proof (ten_pow_pos (ilog10 q)) as HL. pose proof (ten_pow_ge_1 k Hk) as Hk1.
  assert (/ ten ^ ilog10 q * ten ^ ilog10 q == 1)%Q as Hinv by (field; lra).
  assert (0 < / ten ^ ilog10 q)%Q as Hi by (apply Qinv_lt_0_compat; exact HL).
  generalize dependent (/ ten ^ ilog10 q)%Q. intros I HI1 HI2.
  generalize dependent (ten ^ ilog10 q)%Q. intros T HT1 HT2 HT3.
  generalize dependent (ten ^ k)%Q. intros K HK.
  assert (1 <= q * I)%Q as Hq1 by nra.
  assert (q * (K * I) == K * (q * I))%Q as -> by ring.
  nra.
Qed.

Lemma round_ctx_pos (q : Q) : (0 < q)%Q -> 0 < coef (round_ctx q).
Proof.
  intros Hq. unfold round_ctx.
  destruct (Qeq_bool q 0) eqn:Hz.
  { apply Qeq_bool_iff in Hz. lra. }
  apply carry_pos.
  assert (Qabs q == q)%Q as Habs by (apply Qabs_pos; lra).
  assert (ilog10 (Qabs q) = ilog10 q) as ->.
  { unfold ilog10. destruct q as [n d]. unfold Qlt in Hq. simpl in Hq.
    destruct n; try lia. reflexivity. }
  pose proof (scaled_ge_1 q (prec - 1) Hq ltac:(unfold prec; lia)) as Hs.
  pose proof (Qfloor_ge_1 _ Hs) as Hf.
  pose proof (round_half_even_bounds (q * ten ^ (- (ilog10 q - (prec - 1))))%Q).
  lia.
Qed.

Lemma round_ctx_neg (q : Q) : (q < 0)%Q -> coef (round_ctx q) < 0.
Proof.
  intros Hq. unfold round_ctx.
  destruct (Qeq_bool q 0) eqn:Hz.
  { apply Qeq_bool_iff in Hz. lra. }
  apply carry_neg.
  assert (0 < Qabs q)%Q as Hpos.
  { rewrite Qabs_neg by lra. lra. }
  pose proof (scaled_ge_1 (Qabs q) (prec - 1) Hpos ltac:(unfold prec; lia)) as Hs.
  set (e := ilog10 (Qabs q) - (prec - 1)) in *.
  assert (q * ten ^ (- e) <= -1)%Q as Hle.
  { rewrite Qabs_neg in Hs by lra. lra. }
  pose proof (Qfloor_le_neg_1 _ Hle) as Hf.
  pose proof (round_half_even_bounds (q * ten ^ (- e))%Q) as Hb.
  assert (round_half_even (q * ten ^ (- e)) <= 0) as H0 by lia.
  destruct (Z.eq_dec (round_half_even (q * ten ^ (- e))) 0) as [Heq | Hne]; [| lia].
  exfalso.
  (* the rounding of a value at most -1 is not 0 *)
  unfold round_half_even in Heq.
  assert (Qfloor (q * ten ^ (- e)) = -1) as Hfl.
  { destruct (_ ?= _)%Q in Heq; [destruct (Z.even _) in Heq | |]; lia. }
  rewrite Hfl in Heq.
  pose proof (Qfloor_le (q * ten ^ (- e))) as Hfle. rewrite Hfl in Hfle.
  assert (q * ten ^ (- e) == -1)%Q as Hex.
  { change (inject_Z (-1)) with (-1)%Q in Hfle. lra. }
  change (inject_Z (-1)) with (-1)%Q in Heq.
  destruct (q * ten ^ (- e) - -1 ?= 1 # 2)%Q eqn:Hc; simpl in Heq; try lia.
  - apply Qeq_alt in Hc. lra.
  - apply Qgt_alt in Hc. lra.
Qed.

Lemma round_ctx_nonneg (q : Q) : (0 <= q)%Q -> 0 <= coef (round_ctx q).
Proof.
  intros Hq. destruct (Qlt_le_dec 0 q) as [Hp | Hz].
  - pose proof (round_ctx_pos q Hp). lia.
  - rewrite round_ctx_zero by lra. simpl. lia.
Qed.

Lemma round_ctx_coef_zero (q : Q) : coef (round_ctx q) = 0 <-> (q == 0)%Q.
Proof.
  split; intros H.
  - destruct (Q_dec q 0) as [[Hl | Hg] | He]; [| | exact He].
    + pose proof (round_ctx_neg q Hl). lia.
    + pose proof (round_ctx_pos q Hg). lia.
  - rewrite round_ctx_zero by exact H. reflexivity.
Qed.

(** *** The rounded square root *)

Lemma sqrt_half_even_bounds (s : Q) :
  Z.sqrt (Qfloor s) <= sqrt_half_even s <= Z.sqrt (Qfloor s) + 1.
Proof.
  unfold sqrt_half_even.
  destruct (_ ?= _)%Q; [destruct (Z.even _) | |]; lia.
Qed.

Lemma sqrt_half_even_mono (s1 s2 : Q) :
  (s1 <= s2)%Q -> sqrt_half_even s1 <= sqrt_half_even s2.
Proof.
  intros Hle.
  pose proof (Qfloor_resp_le _ _ Hle) as Hfl.
  pose proof (Z.sqrt_le_mono _ _ Hfl) as Hsq.
  pose proof (sqrt_half_even_bounds s1) as Hb1.
  pose proof (sqrt_half_even_bounds s2) as Hb2.
  destruct (Z.eq_dec (Z.sqrt (Qfloor s1)) (Z.sqrt (Qfloor s2))) as [Heq | Hne];
    [| lia].
  unfold sqrt_half_even. rewrite <- Heq.
  set (m0 := Z.sqrt (Qfloor s1)).
  set (mid := (inject_Z (m0 * m0 + m0) + (1 # 4))%Q).
  destruct (s1 ?= mid)%Q eqn:Hc1; destruct (s2 ?= mid)%Q eqn:Hc2;
    try (destruct (Z.even m0)); try lia; exfalso.
  - apply Qeq_alt in Hc1. apply Qlt_alt in Hc2. lra.
  - apply Qgt_alt in Hc1. apply Qeq_alt in Hc2. lra.
  - apply Qgt_alt in Hc1. apply Qlt_alt in Hc2. lra.
  - apply Qgt_alt in Hc1. apply Qlt_alt in Hc2. lra.
Qed.

(** The scaled argument of [round_sqrt] has 99 or 100 integer digits. *)
Lemma round_sqrt_scaled (q : Q) : (0 < q)%Q ->
  let e := (ilog10 q - (2 * prec - 2)) / 2 in
  (ten ^ (2 * prec - 2) <= q * ten ^ (- (2 * e)))%Q /\
  (q * ten ^ (- (2 * e)) < ten ^ (2 * prec))%Q.
Proof.
  intros Hq e. destruct (ilog10_spec q Hq) as [Hlo Hhi].
  set (L := ilog10 q) in *.
  assert (2 * e <= L - (2 * prec - 2) <= 2 * e + 1) as He.
  { subst e. pose proof (Z.div_mod (L - (2 * prec - 2)) 2 ltac:(lia)) as Hdm.
    pose proof (Z.mod_pos_bound (L - (2 * prec - 2)) 2 ltac:(lia)) as Hmb. lia. }
  pose proof (ten_pow_pos (- (2 * e))) as Hp.
  split.
  - apply Qle_trans with (ten ^ (L + - (2 * e)))%Q.
    + apply ten_pow_le. lia.
    + rewrite ten_pow_add. nra.
  - apply Qlt_le_trans with (ten ^ (L + 1 + - (2 * e)))%Q.
    + rewrite ten_pow_add. nra.
    + apply ten_pow_le. lia.
Qed.

Lemma sqrt_half_even_range (s : Q) :
  (ten ^ (2 * prec - 2) <= s)%Q -> (s < ten ^ (2 * prec))%Q ->
  10 ^ (prec - 1) <= sqrt_half_even s <= 10 ^ prec.
Proof.
  intros Hlo Hhi.
  assert (10 ^ (2 * prec - 2) <= Qfloor s) as Hfl.
  { rewrite <- (Qfloor_Z (10 ^ (2 * prec - 2))). apply Qfloor_resp_le.
    rewrite ten_pow_Z by (unfold prec; lia). exact Hlo. }
  assert (Qfloor s < 10 ^ (2 * prec)) as Hfu.
  { rewrite Zlt_Qlt. apply Qle_lt_trans with s; [apply Qfloor_le |].
    rewrite ten_pow_Z by (unfold prec; lia). exact Hhi. }
  pose proof (sqrt_half_even_bounds s) as Hb.
  assert (10 ^ (prec - 1) <= Z.sqrt (Qfloor s)) as H1.
  { replace (10 ^ (prec - 1)) with (Z.sqrt (10 ^ (2 * prec - 2))) by reflexivity.
    apply Z.sqrt_le_mono. exact Hfl. }
  assert (Z.sqrt (Qfloor s) < 10 ^ prec) as H2.
  { apply Z.sqrt_lt_square; [lia | unfold prec; lia |].
    replace (10 ^ prec * 10 ^ prec) with (10 ^ (2 * prec)) by reflexivity.
    exact Hfu. }
  lia.
Qed.

Lemma round_sqrt_pos (q : Q) : (0 < q)%Q -> 0 < coef (round_sqrt q).
Proof.
  intros Hq. unfold round_sqrt.
  destruct (Qle_bool q 0) eqn:Hz.
  { apply Qle_bool_iff in Hz. lra. }
  apply carry_pos.
  destruct (round_sqrt_scaled q Hq) as [Hlo Hhi].
  pose proof (sqrt_half_even_range _ Hlo Hhi) as Hr.
  assert (0 < 10 ^ (prec - 1)) by (unfold prec; lia). lia.
Qed.

(** Rounding the square root is monotone. *)
Lemma round_sqrt_mono (q1 q2 : Q) :
  (0 < q1)%Q -> (q1 <= q2)%Q -> (dval (round_sqrt q1) <= dval (round_sqrt q2))%Q.
Proof.
  intros H1 H12. assert (0 < q2)%Q as H2 by lra.
  unfold round_sqrt.
  destruct (Qle_bool q1 0) eqn:Hz1; [apply Qle_bool_iff in Hz1; lra |].
  destruct (Qle_bool q2 0) eqn:Hz2; [apply Qle_bool_iff in Hz2; lra |].
  rewrite !carry_val.
  destruct (round_sqrt_scaled q1 H1) as [Hlo1 Hhi1].
  destruct (round_sqrt_scaled q2 H2) as [Hlo2 Hhi2].
  pose proof (sqrt_half_even_range _ Hlo1 Hhi1) as Hr1.
  pose proof (sqrt_half_even_range _ Hlo2 Hhi2) as Hr2.
  destruct (ilog10_spec q1 H1) as [Ha1 Hb1].
  destruct (ilog10_spec q2 H2) as [Ha2 Hb2].
  set (e1 := (ilog10 q1 - (2 * prec - 2)) / 2) in *.
  set (e2 := (ilog10 q2 - (2 * prec - 2)) / 2) in *.
  set (m1 := sqrt_half_even (q1 * ten ^ (- (2 * e1)))) in *.
  set (m2 := sqrt_half_even (q2 * ten ^ (- (2 * e2)))) in *.
  assert (ilog10 q1 <= ilog10 q2) as HL.
  { destruct (Z_le_gt_dec (ilog10 q1) (ilog10 q2)) as [Hok | Hgt]; [exact Hok |].
    exfalso. pose proof (ten_pow_le (ilog10 q2 + 1) (ilog10 q1) ltac:(lia)). lra. }
  assert (e1 <= e2) as He.
  { subst e1 e2. apply Z.div_le_mono; lia. }
  destruct (Z.eq_dec e1 e2) as [Heq | Hne].
  - assert (m1 <= m2) as Hm.
    { subst m1 m2. apply sqrt_half_even_mono. rewrite <- Heq.
      pose proof (ten_pow_pos (- (2 * e1))). nra. }
    rewrite <- Heq. pose proof (ten_pow_pos e1).
    apply Qmult_le_compat_r; [| lra]. rewrite <- Zle_Qle. exact Hm.
  - apply Qle_trans with (ten ^ (prec + e1))%Q.
    + rewrite ten_pow_add, <- (ten_pow_Z prec) by (unfold prec; lia).
      pose proof (ten_pow_pos e1).
      apply Qmult_le_compat_r; [| lra]. rewrite <- Zle_Qle. lia.
    + apply Qle_trans with (ten ^ (prec - 1 + e2))%Q.
      * apply ten_pow_le. lia.
      * rewrite ten_pow_add, <- (ten_pow_Z (prec - 1)) by (unfold prec; lia).
        pose proof (ten_pow_pos e2).
        apply Qmult_le_compat_r; [| lra]. rewrite <- Zle_Qle. lia.
Qed.

(** *** Comparisons, signs and [int()] *)

Lemma dle_iff (a b : Decimal) : dle a b = true <-> (dval a <= dval b)%Q.
Proof. unfold dle. apply Qle_bool_iff. Qed.

Lemma dle_false_iff (a b : Decimal) : dle a b = false <-> (dval b < dval a)%Q.
Proof.
  unfold dle. split; intros H.
  - apply Qnot_le_lt. intros Hc. apply Qle_bool_iff in Hc. congruence.
  - destruct (Qle_bool (dval a) (dval b)) eqn:Hb; [| reflexivity].
    apply Qle_bool_iff in Hb. lra.
Qed.

Lemma dlt_iff (a b : Decimal) : dlt a b = true <-> (dval a < dval b)%Q.
Proof.
  unfold dlt. rewrite negb_true_iff. apply (dle_false_iff b a).
Qed.

Lemma dlt_false_iff (a b : Decimal) : dlt a b = false <-> (dval b <= dval a)%Q.
Proof.
  unfold dlt. rewrite negb_false_iff. apply (dle_iff b a).
Qed.

Lemma deq_iff (a b : Decimal) : deq a b = true <-> (dval a == dval b)%Q.
Proof. unfold deq. apply Qeq_bool_iff. Qed.

Lemma dval_Dec (n : Z) : (dval (Dec n) == inject_Z n)%Q.
Proof. unfold dval, Dec. cbn [coef expo]. change (ten ^ 0)%Q with 1%Q. ring. Qed.

Lemma dgt_zero_iff (a : Decimal) : dgt a (Dec 0) = true <-> 0 < coef a.
Proof.
  unfold dgt. rewrite dlt_iff, dval_Dec, dval_pos. reflexivity.
Qed.

Lemma dint_nonneg (d : Decimal) : 0 <= coef d -> dint d = Qfloor (dval d) /\ 0 <= dint d.
Proof.
  intros Hc.
  assert (0 <= dval d)%Q as Hq.
  { destruct (Z.eq_dec (coef d) 0) as [Hz | Hnz].
    - apply dval_zero in Hz. lra.
    - assert (0 < coef d) as Hp by lia. apply dval_pos in Hp. lra. }
  unfold dint. apply Qle_bool_iff in Hq as Hb. rewrite Hb. split; [reflexivity |].
  change 0 with (Qfloor 0). apply Qfloor_resp_le. exact Hq.
Qed.

Lemma dint_zero (d : Decimal) : coef d = 0 -> dint d = 0.
Proof.
  intros Hc. destruct (dint_nonneg d ltac:(lia)) as [-> _].
  apply dval_zero in Hc. rewrite Hc. reflexivity.
Qed.

Lemma ddiv_ok (a b : Decimal) :
  coef b <> 0 -> ddiv a b = Ok (round_ctx (dval a / dval b)).
Proof.
  intros Hb. unfold ddiv. destruct (Z.eqb_spec (coef b) 0); [contradiction | reflexivity].
Qed.

Lemma dmul_pos (a b : Decimal) : 0 < coef a -> 0 < coef b -> 0 < coef (dmul a b).
Proof.
  intros Ha Hb. apply round_ctx_pos. apply dval_pos in Ha, Hb. nra.
Qed.

Lemma dmul_nonneg (a b : Decimal) : 0 <= coef a -> 0 <= coef b -> 0 <= coef (dmul a b).
Proof.
  intros Ha Hb. apply round_ctx_nonneg.
  assert (0 <= dval a)%Q.
  { destruct (Z.eq_dec (coef a) 0) as [Hz | Hnz]; [apply dval_zero in Hz; lra |].
    assert (0 < coef a) as Hp by lia. apply dval_pos in Hp. lra. }
  assert (0 <= dval b)%Q.
  { destruct (Z.eq_dec (coef b) 0) as [Hz | Hnz]; [apply dval_zero in Hz; lra |].
    assert (0 < coef b) as Hp by lia. apply dval_pos in Hp. lra. }
  nra.
Qed.

Lemma dmul_zero_l (a b : Decimal) : coef a = 0 -> dmul a b = mkDec 0 0.
Proof.
  intros Ha. apply round_ctx_zero. apply dval_zero in Ha. rewrite Ha. ring.
Qed.

Lemma dmul_zero_r (a b : Decimal) : coef b = 0 -> dmul a b = mkDec 0 0.
Proof.
  intros Hb. apply round_ctx_zero. apply dval_zero in Hb. rewrite Hb. ring.
Qed.

Lemma dsub_nonneg (a b : Decimal) : (dval b <= dval a)%Q -> 0 <= coef (dsub a b).
Proof. intros H. apply round_ctx_nonneg. lra. Qed.

Lemma dsub_pos (a b : Decimal) : (dval b < dval a)%Q -> 0 < coef (dsub a b).
Proof. intros H. apply round_ctx_pos. lra. Qed.

Lemma dsub_zero (a b : Decimal) : (dval a == dval b)%Q -> dsub a b = mkDec 0 0.
Proof. intros H. apply round_ctx_zero. lra. Qed.

Lemma Qdiv_nonneg (x y : Q) : (0 <= x)%Q -> (0 < y)%Q -> (0 <= x / y)%Q.
Proof.
  intros Hx Hy. apply Qle_shift_div_l; [exact Hy | lra].
Qed.

Lemma Qdiv_pos (x y : Q) : (0 < x)%Q -> (0 < y)%Q -> (0 < x / y)%Q.
Proof.
  intros Hx Hy. apply Qlt_shift_div_l; [exact Hy | lra].
Qed.

Lemma coef_nonneg_val (a : Decimal) : 0 <= coef a <-> (0 <= dval a)%Q.
Proof.
  split; intros H.
  - destruct (Z.eq_dec (coef a) 0) as [Hz | Hnz]; [apply dval_zero in Hz; lra |].
    assert (0 < coef a) as Hp by lia. apply dval_pos in Hp. lra.
  - destruct (Z_lt_le_dec (coef a) 0) as [Hn | Hp]; [| exact Hp].
    apply dval_neg in Hn. lra.
Qed.

(** A quotient of a non-negative by a positive decimal is a non-negative
    decimal, and the division does not raise. *)
Lemma ddiv_nonneg (a b : Decimal) :
  0 <= coef a -> 0 < coef b ->
  exists r, ddiv a b = Ok r /\ 0 <= coef r /\ (coef a = 0 -> coef r = 0)
            /\ (0 < coef a -> 0 < coef r).
Proof.
  intros Ha Hb. exists (round_ctx (dval a / dval b)).
  split; [apply ddiv_ok; lia |].
  apply coef_nonneg_val in Ha as Hqa. apply dval_pos in Hb as Hqb.
  split; [| split].
  - apply round_ctx_nonneg. apply Qdiv_nonneg; assumption.
  - intros Hz. apply round_ctx_coef_zero. apply dval_zero in Hz. rewrite Hz.
    unfold Qdiv. ring.
  - intros Hp. apply round_ctx_pos. apply dval_pos in Hp. apply Qdiv_pos; assumption.
Qed.

(** *** Square-root prices of ticks *)

Lemma base_gt_1 : (1 < dval Decimal_1_0001)%Q.
Proof. reflexivity. Qed.

Lemma base_pos : (0 < dval Decimal_1_0001)%Q.
Proof. reflexivity. Qed.

Lemma base_ge_1 : (1 <= dval Decimal_1_0001)%Q.
Proof. apply Qlt_le_weak. exact base_gt_1. Qed.

Lemma dpow_half_pos_gen (x : Decimal) (t : Z) :
  (0 < dval x)%Q -> 0 < coef (dpow_half x t).
Proof.
  intros Hx. apply round_sqrt_pos. apply Qpower_0_lt. exact Hx.
Qed.

Lemma dpow_half_mono_gen (x : Decimal) (t1 t2 : Z) :
  (1 <= dval x)%Q -> t1 <= t2 ->
  (dval (dpow_half x t1) <= dval (dpow_half x t2))%Q.
Proof.
  intros Hx H. apply round_sqrt_mono.
  - apply Qpower_0_lt. lra.
  - apply Qpower_le_compat_l; [exact H | exact Hx].
Qed.

Lemma dpow_half_pos (t : Z) : 0 < coef (dpow_half Decimal_1_0001 t).
Proof. exact (dpow_half_pos_gen Decimal_1_0001 t base_pos). Qed.

Lemma dpow_half_mono (t1 t2 : Z) : t1 <= t2 ->
  (dval (dpow_half Decimal_1_0001 t1) <= dval (dpow_half Decimal_1_0001 t2))%Q.
Proof. exact (dpow_half_mono_gen Decimal_1_0001 t1 t2 base_ge_1). Qed.

(** ** Claims *)

(** The three cases of [calculate_token_amounts], on the square-root prices
    that the code derives from its own base constant [Decimal(1.0001)].  For
    every liquidity [L >= 0], current square-root price and ticks
    [lower < upper], with [sqrtLower] and [sqrtUpper] these square-root prices
    of the two ticks, [calculate_token_amounts] returns (without raising) a
    pair of non-negative integers, both 0 when [L = 0], that is
    - [floor (L * ((sqrtUpper - sqrtLower) / (sqrtLower * sqrtUpper)))] and [0]
      when [current <= sqrtLower];
    - [0] and [floor (L * (sqrtUpper - sqrtLower))] when [current >= sqrtUpper];
    - [floor (L * ((sqrtUpper - current) / (current * sqrtUpper)))] and
      [floor (L * (current - sqrtLower))] otherwise,
    every operation being the context's decimal operation. *)
Theorem calculate_token_amounts_cases
    (liquidity : Z) (current : Decimal) (lower_tick upper_tick : Z) :
  0 <= liquidity -> lower_tick < upper_tick ->
  let L := Dec liquidity in
  let sqrtLower := dpow_half Decimal_1_0001 lower_tick in
  let sqrtUpper := dpow_half Decimal_1_0001 upper_tick in
  exists amount0 amount1 : Z,
    calculate_token_amounts liquidity current lower_tick upper_tick
      = Ok (amount0, amount1)
    /\ 0 <= amount0 /\ 0 <= amount1
    /\ (liquidity = 0 -> amount0 = 0 /\ amount1 = 0)
    /\ (dle current sqrtLower = true ->
        exists r, ddiv (dsub sqrtUpper sqrtLower) (dmul sqrtLower sqrtUpper) = Ok r
                  /\ amount0 = Qfloor (dval (dmul L r)) /\ amount1 = 0)
    /\ (dge current sqrtUpper = true ->
        amount0 = 0
        /\ amount1 = Qfloor (dval (dmul L (dsub sqrtUpper sqrtLower))))
    /\ (dle current sqrtLower = false -> dge current sqrtUpper = false ->
        exists r, ddiv (dsub sqrtUpper current) (dmul current sqrtUpper) = Ok r
                  /\ amount0 = Qfloor (dval (dmul L r))
                  /\ amount1 = Qfloor (dval (dmul L (dsub current sqrtLower)))).
Proof.
  intros HL Hticks L sqrtLower sqrtUpper.
  pose proof (dpow_half_pos lower_tick) as Hsl. fold sqrtLower in Hsl.
  pose proof (dpow_half_pos upper_tick) as Hsu. fold sqrtUpper in Hsu.
  pose proof (dpow_half_mono lower_tick upper_tick ltac:(lia)) as Hmono.
  fold sqrtLower sqrtUpper in Hmono.
  assert (0 <= coef L) as HcL by exact HL.
  assert (liquidity = 0 -> coef L = 0) as HL0 by (intros ->; reflexivity).
  unfold calculate_token_amounts. fold L sqrtLower sqrtUpper.
  destruct (dle current sqrtLower) eqn:Hlow.
  - (* at or below the range *)
    apply dle_iff in Hlow.
    destruct (ddiv_nonneg (dsub sqrtUpper sqrtLower) (dmul sqrtLower sqrtUpper)
                (dsub_nonneg _ _ Hmono) (dmul_pos _ _ Hsl Hsu))
      as (r & Hr & Hr0 & Hrz & _).
    rewrite Hr. cbn.
    destruct (dint_nonneg (dmul L r) (dmul_nonneg _ _ HcL Hr0)) as [Hint Hge].
    exists (dint (dmul L r)), 0.
    split; [reflexivity |]. split; [exact Hge |]. split; [lia |].
    split; [| split; [| split]].
    + intros Hz. split; [| reflexivity].
      apply dint_zero. rewrite dmul_zero_l by auto. reflexivity.
    + intros _. exists r. auto.
    + intros Hup. apply dle_iff in Hup.
      assert (dval sqrtUpper == dval sqrtLower)%Q as Heq by lra.
      assert (coef r = 0) as Hrc.
      { apply Hrz. rewrite dsub_zero by exact Heq. reflexivity. }
      split.
      * apply dint_zero. rewrite dmul_zero_r by exact Hrc. reflexivity.
      * rewrite dsub_zero by exact Heq. rewrite dmul_zero_r by reflexivity.
        reflexivity.
    + discriminate.
  - apply dle_false_iff in Hlow.
    destruct (dge current sqrtUpper) eqn:Hup.
    + (* at or above the range *)
      pose proof (dsub_nonneg _ _ Hmono) as Hd.
      destruct (dint_nonneg (dmul L (dsub sqrtUpper sqrtLower))
                  (dmul_nonneg _ _ HcL Hd)) as [Hint Hge].
      exists 0, (dint (dmul L (dsub sqrtUpper sqrtLower))).
      split; [reflexivity |]. split; [lia |]. split; [exact Hge |].
      split; [| split; [| split]].
      * intros Hz. split; [reflexivity |].
        apply dint_zero. rewrite dmul_zero_l by auto. reflexivity.
      * discriminate.
      * intros _. auto.
      * discriminate.
    + (* inside the range *)
      apply dle_false_iff in Hup.
      assert (0 < coef current) as Hcur.
      { apply dval_pos. apply dval_pos in Hsl. lra. }
      assert (dval current <= dval sqrtUpper)%Q as Hup' by lra.
      destruct (ddiv_nonneg (dsub sqrtUpper current) (dmul current sqrtUpper)
                  (dsub_nonneg _ _ Hup') (dmul_pos _ _ Hcur Hsu))
        as (r & Hr & Hr0 & _ & _).
      rewrite Hr. cbn.
      assert (dval sqrtLower <= dval current)%Q as Hlow' by lra.
      pose proof (dsub_nonneg current sqrtLower Hlow') as Hd.
      destruct (dint_nonneg (dmul L r) (dmul_nonneg _ _ HcL Hr0)) as [Hint0 Hge0].
      destruct (dint_nonneg (dmul L (dsub current sqrtLower))
                  (dmul_nonneg _ _ HcL Hd)) as [Hint1 Hge1].
      exists (dint (dmul L r)), (dint (dmul L (dsub current sqrtLower))).
      split; [reflexivity |]. split; [exact Hge0 |]. split; [exact Hge1 |].
      split; [| split; [| split]].
      * intros Hz. split; apply dint_zero; rewrite dmul_zero_l by auto; reflexivity.
      * discriminate.
      * discriminate.
      * intros _ _. exists r. auto.
Qed.

Lemma calculate_token_amounts_cases_witness :
  0 <= 1000000 /\ -10 < 10 /\
  exists amount0 amount1 : Z,
    calculate_token_amounts 1000000 (Dec 1) (-10) 10 = Ok (amount0, amount1)
    /\ 0 <= amount0 /\ 0 <= amount1.
Proof.
  split; [lia |]. split; [lia |].
  destruct (calculate_token_amounts_cases 1000000 (Dec 1) (-10) 10
              ltac:(lia) ltac:(lia)) as (a0 & a1 & H & H0 & H1 & _).
  exists a0, a1. auto.
Defined.

(** C3. [calculate_token_amounts] computes the three-case decomposition of
    the specification, truncated to integers, but derives the square-root
    prices of the ticks from [Decimal(1.0001)], the binary double next to
    1.0001, and not from 1.0001: for liquidity 10^18, a current square-root
    price of 1 and the ticks -10 and 10 it returns 499850034992946 of
    either token where [sqrtPrice(tick) = 1.0001^(tick/2)] gives
    499850034993001, and for the ticks -2 and 2 it returns 99990000999888
    where the specification gives 99990000999900. *)
Theorem calculate_token_amounts_misses_1_0001 :
  (forall (liquidity : Z) (current : Decimal) (lower_tick upper_tick : Z),
     calculate_token_amounts liquidity current lower_tick upper_tick
     = range_amounts_on Decimal_1_0001 liquidity current lower_tick upper_tick)
  /\ deq Decimal_1_0001 base_1_0001 = false
  /\ calculate_token_amounts (10 ^ 18) (Dec 1) (-10) 10
     = Ok (499850034992946, 499850034992946)
  /\ range_amounts_by_spec (10 ^ 18) (Dec 1) (-10) 10
     = Ok (499850034993001, 499850034993001)
  /\ calculate_token_amounts (10 ^ 18) (Dec 1) (-2) 2
     = Ok (99990000999888, 99990000999888)
  /\ range_amounts_by_spec (10 ^ 18) (Dec 1) (-2) 2
     = Ok (99990000999900, 99990000999900).
Proof.
  split; [intros; reflexivity |].
  split; [vm_compute; reflexivity |].
  split; [vm_compute; reflexivity |].
  split; [vm_compute; reflexivity |].
  split; vm_compute; reflexivity.
Qed.

(** *** Duration formatting *)

Lemma pos_test_nonzero (v : Z) : 0 <= v -> (0 <? v) = negb (v =? 0).
Proof. intros H. destruct (Z.ltb_spec 0 v), (Z.eqb_spec v 0); simpl; lia || reflexivity. Qed.

Lemma minutes_of_days_nonneg (d : Decimal) :
  dlt d (Dec 0) = false -> 0 <= minutes_of_days d.
Proof.
  intros H. apply dlt_false_iff in H. rewrite dval_Dec in H.
  unfold minutes_of_days. apply dint_nonneg.
  apply dmul_nonneg; [| simpl; lia].
  apply dmul_nonneg; [| simpl; lia].
  apply coef_nonneg_val. exact H.
Qed.

(** A non-negative value of at least one minute is shown as the first three
    non-zero components of its greedy decomposition. *)
Lemma format_timedelta_shown (d : Decimal) :
  dlt d (Dec 0) = false -> minutes_of_days d <> 0 ->
  format_timedelta (DaysDec d)
    = String.concat " " (shown_components (minutes_of_days d))
  /\ (1 <= length (shown_components (minutes_of_days d)) <= 3)%nat.
Proof.
  intros Hneg Hnz.
  pose proof (minutes_of_days_nonneg d Hneg) as Hge.
  unfold format_timedelta. rewrite Hneg. fold (minutes_of_days d).
  destruct (Z.eqb_spec (minutes_of_days d) 0) as [| _]; [contradiction |].
  unfold shown_components, greedy_components.
  set (tm := minutes_of_days d) in *.
  change (365 * 24 * 60) with 525600. change (30 * 24 * 60) with 43200.
  change (7 * 24 * 60) with 10080. change (24 * 60) with 1440.
  pose proof (Z.div_mod tm 525600 ltac:(lia)) as E1.
  pose proof (Z.mod_pos_bound tm 525600 ltac:(lia)) as B1.
  pose proof (Z.div_mod (tm mod 525600) 43200 ltac:(lia)) as E2.
  pose proof (Z.mod_pos_bound (tm mod 525600) 43200 ltac:(lia)) as B2.
  pose proof (Z.div_mod ((tm mod 525600) mod 43200) 10080 ltac:(lia)) as E3.
  pose proof (Z.mod_pos_bound ((tm mod 525600) mod 43200) 10080 ltac:(lia)) as B3.
  pose proof (Z.div_mod (((tm mod 525600) mod 43200) mod 10080) 1440 ltac:(lia)) as E4.
  pose proof (Z.mod_pos_bound (((tm mod 525600) mod 43200) mod 10080) 1440 ltac:(lia)) as B4.
  pose proof (Z.div_mod ((((tm mod 525600) mod 43200) mod 10080) mod 1440) 60 ltac:(lia)) as E5.
  pose proof (Z.mod_pos_bound ((((tm mod 525600) mod 43200) mod 10080) mod 1440) 60 ltac:(lia)) as B5.
  set (r1 := tm mod 525600) in *. set (r2 := r1 mod 43200) in *.
  set (r3 := r2 mod 10080) in *. set (r4 := r3 mod 1440) in *.
  set (years := tm / 525600) in *. set (months := r1 / 43200) in *.
  set (weeks := r2 / 10080) in *. set (days_part := r3 / 1440) in *.
  set (hours_part := r4 / 60) in *. set (minutes_part := r4 mod 60) in *.
  assert (0 <= years) as Hy by (subst years; apply Z.div_pos; lia).
  assert (0 <= months) as Hmo by (subst months; apply Z.div_pos; lia).
  assert (0 <= weeks) as Hw by (subst weeks; apply Z.div_pos; lia).
  assert (0 <= days_part) as Hd by (subst days_part; apply Z.div_pos; lia).
  assert (0 <= hours_part) as Hh by (subst hours_part; apply Z.div_pos; lia).
  assert (0 <= minutes_part) as Hm by lia.
  assert (~ (years = 0 /\ months = 0 /\ weeks = 0 /\ days_part = 0
             /\ hours_part = 0 /\ minutes_part = 0)) as Hsome by lia.
  unfold append_if_positive.
  rewrite !pos_test_nonzero by assumption.
  clearbody years months weeks days_part hours_part minutes_part.
  clear - Hsome. cbn [List.filter fst].
  destruct (Z.eqb_spec years 0), (Z.eqb_spec months 0), (Z.eqb_spec weeks 0),
    (Z.eqb_spec days_part 0), (Z.eqb_spec hours_part 0),
    (Z.eqb_spec minutes_part 0);
    try (exfalso; apply Hsome; repeat split; assumption);
    cbn; (split; [reflexivity | lia]).
Qed.

Lemma format_timedelta_negative (d : Decimal) :
  dlt d (Dec 0) = true -> format_timedelta (DaysDec d) = "Met"%string.
Proof. intros Hneg. unfold format_timedelta. rewrite Hneg. reflexivity. Qed.

Lemma format_timedelta_zero_minutes (d : Decimal) :
  dlt d (Dec 0) = false -> minutes_of_days d = 0 ->
  format_timedelta (DaysDec d) = "<1m"%string.
Proof.
  intros Hneg Hz. unfold format_timedelta. rewrite Hneg.
  fold (minutes_of_days d). rewrite Hz. reflexivity.
Qed.

(** C9. [format_timedelta] answers "N/A" to an absent, non-decimal or
    non-finite argument and "Met" to a negative one; a value of zero whole
    minutes gives "<1m"; any other value is truncated to whole minutes,
    decomposed greedily into years (365 d), months (30 d), weeks, days, hours
    and minutes, and shown as its first three non-zero components in
    descending order, joined by spaces: between one and three components.
    In particular 0 gives "<1m", -1 gives "Met", [None] gives "N/A" and 400
    days give "1y 1mo 5d". *)
Theorem format_timedelta_spec :
  format_timedelta DaysNone = "N/A"%string
  /\ format_timedelta DaysNotDecimal = "N/A"%string
  /\ format_timedelta DaysNaN = "N/A"%string
  /\ (forall negative, format_timedelta (DaysInfinity negative) = "N/A"%string)
  /\ (forall d, dlt d (Dec 0) = true -> format_timedelta (DaysDec d) = "Met"%string)
  /\ (forall d, dlt d (Dec 0) = false -> minutes_of_days d = 0 ->
        format_timedelta (DaysDec d) = "<1m"%string)
  /\ (forall d, dlt d (Dec 0) = false -> minutes_of_days d <> 0 ->
        format_timedelta (DaysDec d)
          = String.concat " " (shown_components (minutes_of_days d))
        /\ (1 <= length (shown_components (minutes_of_days d)) <= 3)%nat)
  /\ format_timedelta (DaysDec (Dec 0)) = "<1m"%string
  /\ format_timedelta (DaysDec (Dec (-1))) = "Met"%string
  /\ format_timedelta (DaysDec (Dec 400)) = "1y 1mo 5d"%string.
Proof.
  repeat match goal with |- _ /\ _ => split end; try reflexivity.
  - exact format_timedelta_negative.
  - exact format_timedelta_zero_minutes.
  - exact format_timedelta_shown.
Qed.

Lemma format_timedelta_spec_witness :
  dlt (Dec 400) (Dec 0) = false /\ minutes_of_days (Dec 400) <> 0
  /\ format_timedelta (DaysDec (Dec 400))
      = String.concat " " (shown_components (minutes_of_days (Dec 400))).
Proof.
  assert (dlt (Dec 400) (Dec 0) = false) as H1 by reflexivity.
  assert (minutes_of_days (Dec 400) <> 0) as H2 by (vm_compute; discriminate).
  split; [exact H1 |]. split; [exact H2 |].
  destruct format_timedelta_spec as (_ & _ & _ & _ & _ & _ & H & _).
  exact (proj1 (H (Dec 400) H1 H2)).
Defined.

(** *** Enumeration of positions *)

(** The scan visits the highest index first. *)
Example descending_range_of_7 : descending_range 7 = [6; 5; 4; 3; 2; 1; 0].
Proof. reflexivity. Qed.

Lemma enumerate_loop_stops (c : chain) (wallet_address : address)
    (closed rest : list Z) :
  forall (active : list (Z * position_data)) (cc : Z),
  0 <= cc -> 5 <= cc + Z.of_nat (length closed) ->
  (forall i, In i closed -> closed_at c wallet_address i) ->
  closed <> [] ->
  enumerate_loop c wallet_address (closed ++ rest) active cc = active.
Proof.
  induction closed as [| i closed IH]; intros active cc Hcc Hlen Hclosed Hne.
  - contradiction.
  - destruct (Hclosed i (or_introl eq_refl)) as (tid & pd & Htid & Hpd & Hliq).
    cbn [app enumerate_loop]. rewrite Htid. cbn. rewrite Hpd. cbn.
    rewrite Hliq. cbn.
    destruct (Z.leb_spec 5 (cc + 1)) as [Hstop | Hgo]; [reflexivity |].
    apply IH.
    + lia.
    + cbn [length] in Hlen. lia.
    + intros j Hj. apply Hclosed. right. exact Hj.
    + intros ->. cbn [length] in Hlen. lia.
Qed.

(** Whatever lies behind five consecutive closed positions is not read. *)
Lemma enumerate_loop_ignores_rest (c : chain) (wallet_address : address)
    (pre closed rest : list Z) :
  length closed = 5%nat ->
  (forall i, In i closed -> closed_at c wallet_address i) ->
  forall (active : list (Z * position_data)) (cc : Z), 0 <= cc ->
  enumerate_loop c wallet_address (pre ++ closed ++ rest) active cc
  = enumerate_loop c wallet_address (pre ++ closed) active cc.
Proof.
  intros Hlen Hclosed. induction pre as [| i pre IH]; intros active cc Hcc.
  - cbn [app].
    assert (closed <> []) as Hne by (intros ->; discriminate).
    rewrite (enumerate_loop_stops c wallet_address closed rest active cc)
      by (try assumption; lia).
    symmetry.
    pose proof (enumerate_loop_stops c wallet_address closed [] active cc
                  Hcc ltac:(lia) Hclosed Hne) as Hstop.
    rewrite app_nil_r in Hstop. exact Hstop.
  - cbn [app enumerate_loop].
    destruct (tokenOfOwnerByIndex c wallet_address i) as [tid | e]; cbn;
      [| apply IH; exact Hcc].
    destruct (positions c tid) as [pd | e]; cbn; [| apply IH; exact Hcc].
    destruct (0 <? pd_liquidity pd).
    + cbn. apply IH. lia.
    + destruct (5 <=? cc + 1); [reflexivity |]. apply IH. lia.
Qed.

(** Every enumerated position was read at one of the visited indices. *)
Lemma enumerate_loop_origin (c : chain) (wallet_address : address)
    (indices : list Z) :
  forall (active : list (Z * position_data)) (cc : Z) (p : Z * position_data),
  In p (enumerate_loop c wallet_address indices active cc) ->
  In p active \/
  exists i, In i indices /\ tokenOfOwnerByIndex c wallet_address i = Ok p.1
            /\ positions c p.1 = Ok p.2 /\ 0 < pd_liquidity p.2.
Proof.
  induction indices as [| i indices IH]; intros active cc p Hin.
  - left. exact Hin.
  - cbn [enumerate_loop] in Hin.
    destruct (tokenOfOwnerByIndex c wallet_address i) as [tid | e] eqn:Htid;
      cbn in Hin.
    2:{ destruct (IH _ _ _ Hin) as [H | (j & Hj & H)]; [left; exact H |].
        right. exists j. split; [right; exact Hj | exact H]. }
    destruct (positions c tid) as [pd | e] eqn:Hpd; cbn in Hin.
    2:{ destruct (IH _ _ _ Hin) as [H | (j & Hj & H)]; [left; exact H |].
        right. exists j. split; [right; exact Hj | exact H]. }
    destruct (Z.ltb_spec 0 (pd_liquidity pd)) as [Hliq | Hliq].
    + cbn in Hin.
      destruct (IH _ _ _ Hin) as [H | (j & Hj & H)].
      * apply in_app_or in H. destruct H as [H | [<- | []]]; [left; exact H |].
        right. exists i. cbn. auto.
      * right. exists j. split; [right; exact Hj | exact H].
    + destruct (5 <=? cc + 1); [left; exact Hin |].
      destruct (IH _ _ _ Hin) as [H | (j & Hj & H)]; [left; exact H |].
      right. exists j. split; [right; exact Hj | exact H].
Qed.

(** *** The loop over the active positions *)

Lemma bind_ok_inv {A B : Type} (m : res A) (k : A -> res B) (b : B) :
  (m ≫= k) = Ok b -> exists a, m = Ok a /\ k a = Ok b.
Proof.
  destruct m as [a | e]; cbn; intros H; [| discriminate].
  exists a. auto.
Qed.

Ltac bind_inv H :=
  let a := fresh "a" in
  let Ha := fresh "Ha" in
  apply bind_ok_inv in H; destruct H as (a & Ha & H);
  match type of a with
  | (_ * _)%type => destruct a
  | _ => idtac
  end.

(** A round of the loop leaves the list of reports alone or appends the
    report of its own position. *)
Lemma position_step_reports (c : chain) (wallet_address : address)
    (price_cache : gmap string Decimal) (st st' : loop_state)
    (token_id : Z) (pos : position_data) :
  position_step c wallet_address price_cache st (token_id, pos) = Ok st' ->
  ls_all_positions_data st' = ls_all_positions_data st
  \/ exists r, ls_all_positions_data st' = ls_all_positions_data st ++ [r]
               /\ pr_token_id r = token_id.
Proof.
  unfold position_step. intros H.
  destruct (get_pool_info c (pd_token0 pos) (pd_token1 pos) Latest) as [pool |].
  2:{ left. congruence. }
  do 12 bind_inv H.
  injection H as <-. right. eexists. split; reflexivity.
Qed.

Lemma positions_loop_reports (c : chain) (wallet_address : address)
    (price_cache : gmap string Decimal) (active : list (Z * position_data)) :
  forall (st st' : loop_state),
  positions_loop c wallet_address price_cache active st = Ok st' ->
  forall r, In r (ls_all_positions_data st') ->
  In r (ls_all_positions_data st) \/ In (pr_token_id r) (map fst active).
Proof.
  induction active as [| [tid pos] active IH]; intros st st' H r Hr.
  - cbn in H. injection H as <-. left. exact Hr.
  - cbn [positions_loop] in H. bind_inv H.
    destruct (IH _ _ H r Hr) as [Hin | Hin].
    + destruct (position_step_reports _ _ _ _ _ _ _ Ha) as [Heq | (r' & Heq & Hid)].
      * left. rewrite <- Heq. exact Hin.
      * rewrite Heq in Hin. apply in_app_or in Hin.
        destruct Hin as [Hin | [<- | []]]; [left; exact Hin |].
        right. left. symmetry. exact Hid.
    + right. right. exact Hin.
Qed.


(** What a returned portfolio report was built from. *)
Lemma find_and_display_positions_inv (c : chain) (wallet_address : address)
    (report : portfolio_report) :
  find_and_display_positions c wallet_address = Ok (Portfolio report) ->
  exists balance st,
    balanceOf c wallet_address = Ok balance
    /\ positions_loop c wallet_address (prefetch_prices c)
         (enumerate_active c wallet_address balance)
         (mk_loop_state (db_load_initial_positions c) (Dec 0) [] None None) = Ok st
    /\ num_active_positions report
       = Z.of_nat (length (enumerate_active c wallet_address balance))
    /\ report_positions report = ls_all_positions_data st.
Proof.
  unfold find_and_display_positions. intros H.
  destruct (is_connected c); cbn [negb] in H; [| discriminate].
  destruct (balanceOf c wallet_address) as [balance | e]; [| discriminate].
  destruct (balance =? 0); [discriminate |].
  destruct (enumerate_active c wallet_address balance) as [| p active] eqn:Hact;
    [discriminate |].
  do 2 bind_inv H. injection H as <-.
  exists balance, a. rewrite Hact. repeat split. exact Ha.
Qed.

(** C10. The wallet's positions are scanned from the highest index down,
    and the scan ends for good at the fifth consecutive position without
    liquidity: when the scan order is [pre], then five closed positions, then
    [rest], every position counted in [num_active_positions] and every
    position of the returned report was read at an index of [pre].  A
    position with liquidity that sits behind the five closed ones is neither
    reported nor counted. *)
Theorem scan_stops_after_five_closed (c : chain) (wallet_address : address)
    (balance : Z) (pre closed rest : list Z) (report : portfolio_report) :
  balanceOf c wallet_address = Ok balance ->
  descending_range balance = pre ++ closed ++ rest ->
  length closed = 5%nat ->
  (forall i, In i closed -> closed_at c wallet_address i) ->
  find_and_display_positions c wallet_address = Ok (Portfolio report) ->
  enumerate_active c wallet_address balance
    = rev (enumerate_loop c wallet_address (pre ++ closed) [] 0)
  /\ num_active_positions report
     = Z.of_nat (length (enumerate_active c wallet_address balance))
  /\ (forall p, In p (enumerate_active c wallet_address balance) ->
       exists i, In i pre /\ tokenOfOwnerByIndex c wallet_address i = Ok p.1)
  /\ (forall r, In r (report_positions report) ->
       exists i, In i pre
                 /\ tokenOfOwnerByIndex c wallet_address i = Ok (pr_token_id r)).
Proof.
  intros Hbal Hrange Hlen Hclosed Hreport.
  assert (enumerate_active c wallet_address balance
          = rev (enumerate_loop c wallet_address (pre ++ closed) [] 0)) as Henum.
  { unfold enumerate_active. rewrite Hrange.
    rewrite enumerate_loop_ignores_rest by (try assumption; lia). reflexivity. }
  assert (forall p, In p (enumerate_active c wallet_address balance) ->
            exists i, In i pre /\ tokenOfOwnerByIndex c wallet_address i = Ok p.1)
    as Horigin.
  { intros p Hp. rewrite Henum in Hp. apply in_rev in Hp.
    destruct (enumerate_loop_origin _ _ _ _ _ _ Hp)
      as [[] | (i & Hi & Htid & Hpos & Hliq)].
    apply in_app_or in Hi. destruct Hi as [Hi | Hi]; [exists i; auto |].
    destruct (Hclosed i Hi) as (tid & pd & Htid' & Hpos' & Hliq').
    rewrite Htid in Htid'. injection Htid' as <-.
    rewrite Hpos in Hpos'. injection Hpos' as <-. lia. }
  destruct (find_and_display_positions_inv _ _ _ Hreport)
    as (balance' & st & Hbal' & Hloop & Hnum & Hpos).
  rewrite Hbal in Hbal'. injection Hbal' as <-.
  split; [exact Henum |]. split; [exact Hnum |]. split; [exact Horigin |].
  intros r Hr. rewrite Hpos in Hr.
  destruct (positions_loop_reports _ _ _ _ _ _ Hloop r Hr) as [[] | Hin].
  apply in_map_iff in Hin. destruct Hin as (p & Hp1 & Hp).
  destruct (Horigin p Hp) as (i & Hi & Htid). exists i. rewrite <- Hp1. auto.
Qed.

Lemma run_wallet_with_hidden_position :
  find_and_display_positions wallet_with_hidden_position example_wallet
  = response_with_hidden_position.
Proof. vm_compute. reflexivity. Qed.

Lemma scan_stops_after_five_closed_witness :
  exists report,
    find_and_display_positions wallet_with_hidden_position example_wallet
      = Ok (Portfolio report)
    /\ tokenOfOwnerByIndex wallet_with_hidden_position example_wallet 0 = Ok 101
    /\ positions wallet_with_hidden_position 101 = Ok open_position
    /\ 0 < pd_liquidity open_position
    /\ num_active_positions report = 1
    /\ ~ In 101 (map pr_token_id (report_positions report)).
Proof.
  pose proof run_wallet_with_hidden_position as Hrun.
  unfold response_with_hidden_position in Hrun.
  eexists. split; [exact Hrun |].
  assert (forall i, In i [5; 4; 3; 2; 1] ->
            closed_at wallet_with_hidden_position example_wallet i) as Hclosed.
  { intros i Hi. unfold closed_at.
    repeat (destruct Hi as [<- | Hi];
            [eexists; eexists; repeat split; reflexivity |]).
    destruct Hi. }
  destruct (scan_stops_after_five_closed wallet_with_hidden_position example_wallet
              7 [6] [5; 4; 3; 2; 1] [0] _
              eq_refl eq_refl eq_refl Hclosed Hrun)
    as (_ & _ & _ & Hreported).
  split; [reflexivity |]. split; [reflexivity |]. split; [reflexivity |].
  split; [reflexivity |].
  intros Hin. apply in_map_iff in Hin. destruct Hin as (r & Hid & Hr).
  destruct (Hreported r Hr) as (i & [<- | []] & Hi).
  rewrite Hid in Hi. discriminate Hi.
Defined.

(** *** Impermanent loss *)

Lemma dsqrt_pos (a : Decimal) :
  0 < coef a -> dsqrt a = Ok (round_sqrt (dval a)) /\ 0 < coef (round_sqrt (dval a)).
Proof.
  intros Ha. split.
  - unfold dsqrt. destruct (Z.ltb_spec (coef a) 0); [lia | reflexivity].
  - apply round_sqrt_pos. apply dval_pos. exact Ha.
Qed.

Lemma deq_zero_false (a : Decimal) : deq a (Dec 0) = false -> coef a <> 0.
Proof.
  intros H Hc. apply dval_zero in Hc.
  assert (deq a (Dec 0) = true) as Ht.
  { apply deq_iff. rewrite dval_Dec. exact Hc. }
  congruence.
Qed.

(** For positive prices the range decomposition does not raise. *)
Lemma region_amounts_ok (p p_lower p_upper : Decimal) :
  0 < coef p -> 0 < coef p_lower -> 0 < coef p_upper ->
  exists amounts, region_amounts p p_lower p_upper = Ok amounts.
Proof.
  intros Hp Hl Hu. unfold region_amounts.
  destruct (dsqrt_pos p Hp) as [-> Hsp].
  destruct (dsqrt_pos p_lower Hl) as [-> Hsl].
  destruct (dsqrt_pos p_upper Hu) as [-> Hsu]. cbn.
  destruct (dle p p_lower).
  - rewrite ddiv_ok by (pose proof (dmul_pos _ _ Hsl Hsu); lia). cbn. eauto.
  - destruct (dge p p_upper); [eauto |].
    rewrite ddiv_ok by (pose proof (dmul_pos _ _ Hsp Hsu); lia). cbn. eauto.
Qed.

(** C4. [calculate_il_percentage(Pe, Pt, Pl, Pu)] is 0 when [Pt = Pe] or
    [Pl >= Pu]; otherwise, for positive prices, it does not raise, and with the
    entry amounts (the range decomposition at [Pe]) and the target amounts (the
    one at [Pt]) it is 0 when the HODL value [entryAmount0 * Pt + entryAmount1]
    is 0 and [|LPvalue / HODLvalue - 1|] otherwise, where
    [LPvalue = targetAmount0 * Pt + targetAmount1]. *)
Theorem calculate_il_percentage_spec (Pe Pt Pl Pu : Decimal) :
  (deq Pt Pe = true \/ dge Pl Pu = true ->
     calculate_il_percentage Pe Pt Pl Pu = Ok (Dec 0))
  /\ (0 < coef Pe -> 0 < coef Pt -> 0 < coef Pl -> 0 < coef Pu ->
      deq Pt Pe = false -> dge Pl Pu = false ->
      exists entry target,
        region_amounts Pe Pl Pu = Ok entry
        /\ region_amounts Pt Pl Pu = Ok target
        /\ let hodl_value := value_at Pt entry in
           let lp_value := value_at Pt target in
           (deq hodl_value (Dec 0) = true ->
              calculate_il_percentage Pe Pt Pl Pu = Ok (Dec 0))
           /\ (deq hodl_value (Dec 0) = false ->
               exists ratio,
                 ddiv lp_value hodl_value = Ok ratio
                 /\ calculate_il_percentage Pe Pt Pl Pu
                    = Ok (dabs (dsub ratio (Dec 1))))).
Proof.
  split.
  - intros Hdeg. unfold calculate_il_percentage.
    destruct Hdeg as [-> | ->]; [reflexivity | rewrite orb_true_r; reflexivity].
  - intros HPe HPt HPl HPu Hne Hrange.
    destruct (region_amounts_ok Pe Pl Pu HPe HPl HPu) as [entry Hentry].
    destruct (region_amounts_ok Pt Pl Pu HPt HPl HPu) as [target Htarget].
    exists entry, target. split; [exact Hentry |]. split; [exact Htarget |].
    unfold calculate_il_percentage. rewrite Hne, Hrange. cbn [orb].
    unfold region_amounts in Hentry, Htarget.
    destruct (dsqrt_pos Pe HPe) as [HsPe _].
    destruct (dsqrt_pos Pt HPt) as [HsPt _].
    destruct (dsqrt_pos Pl HPl) as [HsPl _].
    destruct (dsqrt_pos Pu HPu) as [HsPu _].
    rewrite HsPe, HsPl, HsPu in Hentry. rewrite HsPt, HsPl, HsPu in Htarget.
    rewrite HsPe, HsPt, HsPl, HsPu.
    cbn [mbind res_bind] in Hentry, Htarget |- *.
    set (sqrt_entry := round_sqrt (dval Pe)) in *.
    set (sqrt_target := round_sqrt (dval Pt)) in *.
    set (sqrt_lower := round_sqrt (dval Pl)) in *.
    set (sqrt_upper := round_sqrt (dval Pu)) in *.
    match goal with
    | |- context [mbind ?k ?m] =>
        match m with
        | (if dle Pe Pl then _ else _) => replace m with (Ok entry : res _)
        end
    end.
    cbn [mbind res_bind]. destruct entry as [entry0 entry1].
    match goal with
    | |- context [mbind ?k ?m] =>
        match m with
        | (if dle Pt Pl then _ else _) => replace m with (Ok target : res _)
        end
    end.
    cbn [mbind res_bind]. destruct target as [target0 target1].
    unfold value_at. cbn [fst snd].
    split.
    + intros ->. reflexivity.
    + intros Hnz. rewrite Hnz.
      rewrite ddiv_ok by (apply deq_zero_false; exact Hnz).
      eexists. split; reflexivity.
Qed.

Lemma calculate_il_percentage_spec_witness :
  0 < coef (Dec 100) /\ 0 < coef (Dec 121) /\ 0 < coef (Dec 81) /\ 0 < coef (Dec 144)
  /\ deq (Dec 121) (Dec 100) = false /\ dge (Dec 81) (Dec 144) = false
  /\ exists entry target,
       region_amounts (Dec 100) (Dec 81) (Dec 144) = Ok entry
       /\ region_amounts (Dec 121) (Dec 81) (Dec 144) = Ok target.
Proof.
  assert (0 < coef (Dec 100)) as H1 by (simpl; lia).
  assert (0 < coef (Dec 121)) as H2 by (simpl; lia).
  assert (0 < coef (Dec 81)) as H3 by (simpl; lia).
  assert (0 < coef (Dec 144)) as H4 by (simpl; lia).
  assert (deq (Dec 121) (Dec 100) = false) as H5 by reflexivity.
  assert (dge (Dec 81) (Dec 144) = false) as H6 by reflexivity.
  repeat (split; [assumption |]).
  destruct (proj2 (calculate_il_percentage_spec (Dec 100) (Dec 121) (Dec 81) (Dec 144))
              H1 H2 H3 H4 H5 H6) as (entry & target & He & Ht & _).
  exists entry, target. auto.
Defined.

(** *** Yield projection *)

Lemma ddiv_pos (a b : Decimal) :
  0 < coef a -> 0 < coef b ->
  exists r, ddiv a b = Ok r /\ 0 < coef r.
Proof.
  intros Ha Hb.
  destruct (ddiv_nonneg a b ltac:(lia) Hb) as (r & Hr & _ & _ & Hp).
  exists r. auto.
Qed.

(** C5. For a baseline snapshot [initial_info]:
    - the APR, the elapsed days and both projections are 0 when the snapshot
      is a freshly captured "(Current)" one;
    - the APR and both projections are 0 when the stored date does not read,
      when the position value is not positive or when the elapsed days are not;
    - otherwise nothing raises and
      [APR = (rewards / value) / (days / 365) * 100],
      [annual = value * (APR / 100)], [daily = annual / 365], each operation
      being the context's decimal operation;
    - for value 1000, rewards 10 and 864000 elapsed seconds the elapsed days
      are 10 and the APR is 36.5 in the 50-digit arithmetic of the program
      (within one unit of the 50th significant digit), reported as "36.50%". *)
Theorem apr_block_spec (c : chain) (initial_info : initial_position)
    (position_usd_value total_rewards_usd : Decimal) :
  let r := apr_block c (Some initial_info) position_usd_value total_rewards_usd in
  (contains " (Current)" (ip_date initial_info) = true ->
     r = mk_apr_vars (Dec 0) (Dec 0) (Dec 0) (Dec 0))
  /\ (contains " (Current)" (ip_date initial_info) = false ->
      (forall e, seconds_since c (ip_date initial_info) = Raise e ->
         r = mk_apr_vars (Dec 0) (Dec 0) (Dec 0) (Dec 0))
      /\ (forall seconds, seconds_since c (ip_date initial_info) = Ok seconds ->
          exists days,
            ddiv seconds (Dec 86400) = Ok days
            /\ days_active r = days
            /\ (dgt position_usd_value (Dec 0) = false \/ dgt days (Dec 0) = false ->
                r = mk_apr_vars (Dec 0) days (Dec 0) (Dec 0))
            /\ (dgt position_usd_value (Dec 0) = true -> dgt days (Dec 0) = true ->
                exists yield years ratio hundredth daily,
                  ddiv total_rewards_usd position_usd_value = Ok yield
                  /\ ddiv days (Dec 365) = Ok years
                  /\ ddiv yield years = Ok ratio
                  /\ annualized_apr r = dmul ratio (Dec 100)
                  /\ ddiv (annualized_apr r) (Dec 100) = Ok hundredth
                  /\ annual_projected_usd_earnings r = dmul position_usd_value hundredth
                  /\ ddiv (annual_projected_usd_earnings r) (Dec 365) = Ok daily
                  /\ daily_projected_usd_earnings r = daily)))
  /\ (contains " (Current)" (ip_date initial_info) = false ->
      seconds_since c (ip_date initial_info) = Ok (Dec 864000) ->
      position_usd_value = Dec 1000 -> total_rewards_usd = Dec 10 ->
      deq (days_active r) (Dec 10) = true
      /\ annualized_apr r
         = mkDec 36500000000000000000000000000000000000000000000001 (-48)
      /\ (Qabs (dval (annualized_apr r) - (365 # 10)) <= 1 # 10 ^ 48)%Q
      /\ (fmt_money (annualized_apr r) ++ "%")%string = "36.50%"%string).
Proof.
  intros r. subst r. unfold apr_block.
  split; [| split].
  - intros ->. reflexivity.
  - intros ->. cbn [negb]. split.
    + intros e ->. reflexivity.
    + intros seconds ->. cbn [mbind res_bind].
      rewrite ddiv_ok by (simpl; lia).
      set (days := round_ctx (dval seconds / dval (Dec 86400))).
      exists days. split; [reflexivity |].
      destruct (dgt position_usd_value (Dec 0)) eqn:Hv;
        [destruct (dgt days (Dec 0)) eqn:Hd |]; cbn [andb].
      2,3: (split; [reflexivity |]; split;
             [intros _; reflexivity | intros; discriminate]).
      apply dgt_zero_iff in Hv as Hvp. apply dgt_zero_iff in Hd as Hdp.
      rewrite (ddiv_ok total_rewards_usd position_usd_value) by lia.
      destruct (ddiv_pos days (Dec 365) Hdp ltac:(simpl; lia)) as (years & Hy & Hyp).
      rewrite Hy. cbn [mbind res_bind].
      rewrite (ddiv_ok _ years) by lia. cbn [mbind res_bind].
      rewrite (ddiv_ok _ (Dec 100)) by (simpl; lia). cbn [mbind res_bind].
      rewrite (ddiv_ok _ (Dec 365)) by (simpl; lia).
      cbn [annualized_apr days_active daily_projected_usd_earnings
             annual_projected_usd_earnings].
      split; [reflexivity |].
      split; [intros [H | H]; discriminate |]. intros _ _.
      do 5 eexists. repeat split; try reflexivity.
      rewrite ddiv_ok by (simpl; lia). reflexivity.
  - intros -> -> -> ->. vm_compute. repeat split; discriminate.
Qed.

Lemma apr_block_spec_witness :
  let c := example_chain [] ∅ (fun _ => true) true in
  contains " (Current)" (ip_date known_baseline) = false
  /\ seconds_since c (ip_date known_baseline) = Ok (Dec 864000)
  /\ (fmt_money (annualized_apr (apr_block c (Some known_baseline) (Dec 1000) (Dec 10)))
        ++ "%")%string = "36.50%"%string.
Proof.
  intros c.
  pose proof (proj2 (proj2 (apr_block_spec c known_baseline (Dec 1000) (Dec 10)))
                eq_refl eq_refl eq_refl eq_refl) as (_ & _ & _ & H).
  split; [reflexivity |]. split; [reflexivity |]. exact H.
Defined.

(** *** Breakeven estimate *)

Lemma str_of_int_head (n : Z) :
  exists ch rest, str_of_int n = String ch rest /\ ch <> "M"%char.
Proof.
  unfold str_of_int. destruct (Z.to_int n) as [d | d]; destruct d; cbn;
    eexists; eexists; (split; [reflexivity | discriminate]).
Qed.

Lemma shown_head (comp : Z * string) (comps : list (Z * string)) :
  exists ch rest,
    String.concat " " (map render_component (comp :: comps)) = String ch rest
    /\ ch <> "M"%char.
Proof.
  destruct (str_of_int_head comp.1) as (ch & rest & Hs & Hch).
  exists ch. cbn [map]. unfold render_component at 1. rewrite Hs.
  destruct (map render_component comps) as [| y l]; cbn; eexists; eauto.
Qed.

Lemma shown_components_head (total_minutes : Z) :
  shown_components total_minutes = []
  \/ exists ch rest,
       String.concat " " (shown_components total_minutes) = String ch rest
       /\ ch <> "M"%char.
Proof.
  unfold shown_components.
  destruct (firstn 3 _) as [| comp comps]; [left; reflexivity | right].
  apply shown_head.
Qed.

(** "Met" is the answer to negative values only. *)
Lemma format_timedelta_met_iff (d : Decimal) :
  format_timedelta (DaysDec d) = "Met"%string <-> dlt d (Dec 0) = true.
Proof.
  split; [| apply format_timedelta_negative].
  intros Hmet. destruct (dlt d (Dec 0)) eqn:Hneg; [reflexivity | exfalso].
  destruct (Z.eq_dec (minutes_of_days d) 0) as [Hz | Hnz].
  - rewrite (format_timedelta_zero_minutes d Hneg Hz) in Hmet. discriminate.
  - destruct (format_timedelta_shown d Hneg Hnz) as [Heq Hlen].
    rewrite Heq in Hmet.
    destruct (shown_components_head (minutes_of_days d))
      as [Hnil | (ch & rest & Hc & Hch)].
    + rewrite Hnil in Hlen. cbn [length] in Hlen. lia.
    + rewrite Hc in Hmet. injection Hmet as Hch' _. contradiction.
Qed.

(** Closes a goal whose premises are contradictory equations. *)
Ltac absurd_hyp :=
  intros;
  first [ congruence
        | match goal with H : _ = _ |- _ => discriminate H end ].

(** C7. For each bound, the days to breakeven are [ILUsd / dailyRewardUsd]
    when both are positive and 0 otherwise, where the daily reward is
    [value * (APR / 100) / 365] for a positive APR and 0 otherwise; the
    display is exactly "N/A" when the days are not positive, and otherwise the
    total time followed by "(Met)" when the remaining time is negative and by
    the remaining time and "left" when it is not.  Nothing here raises,
    whatever the inputs. *)
Theorem breakeven_spec
    (annualized_apr position_usd_value il_usd_lower il_usd_upper : Decimal) :
  (exists daily_rewards_usd days_lower days_upper,
     breakeven_days annualized_apr position_usd_value il_usd_lower il_usd_upper
       = Ok (daily_rewards_usd, days_lower, days_upper)
     /\ (dgt annualized_apr (Dec 0) = false -> daily_rewards_usd = Dec 0)
     /\ (dgt annualized_apr (Dec 0) = true ->
         exists h, ddiv annualized_apr (Dec 100) = Ok h
                   /\ ddiv (dmul position_usd_value h) (Dec 365) = Ok daily_rewards_usd)
     /\ days_rule daily_rewards_usd il_usd_lower days_lower
     /\ days_rule daily_rewards_usd il_usd_upper days_upper)
  /\ (forall days remaining : Decimal,
      (dgt days (Dec 0) = false -> breakeven_str days remaining = "N/A"%string)
      /\ (dgt days (Dec 0) = true -> dlt remaining (Dec 0) = true ->
          breakeven_str days remaining
          = (format_timedelta (DaysDec days) ++ " (Met)")%string)
      /\ (dgt days (Dec 0) = true -> dlt remaining (Dec 0) = false ->
          breakeven_str days remaining
          = (format_timedelta (DaysDec days) ++ " ("
             ++ format_timedelta (DaysDec remaining) ++ " left)")%string)
      /\ exists perc, time_remaining_perc days remaining = Ok perc).
Proof.
  split.
  - unfold breakeven_days, days_rule.
    destruct (dgt annualized_apr (Dec 0)) eqn:Hapr.
    2:{ exists (Dec 0), (Dec 0), (Dec 0). split; [reflexivity |].
        split; [reflexivity |]. split; [absurd_hyp |].
        split; (split; [absurd_hyp | reflexivity]). }
    rewrite (ddiv_ok annualized_apr (Dec 100)) by (simpl; lia).
    cbn [mbind res_bind]. rewrite (ddiv_ok _ (Dec 365)) by (simpl; lia).
    cbn [mbind res_bind].
    set (h := round_ctx (dval annualized_apr / dval (Dec 100))).
    set (daily := round_ctx (dval (dmul position_usd_value h) / dval (Dec 365))).
    assert (exists h', ddiv annualized_apr (Dec 100) = Ok h'
                       /\ ddiv (dmul position_usd_value h') (Dec 365) = Ok daily)
      as Hdaily.
    { exists h. split; apply ddiv_ok; simpl; lia. }
    destruct (dgt daily (Dec 0)) eqn:Hd.
    2:{ exists daily, (Dec 0), (Dec 0). split; [reflexivity |].
        split; [absurd_hyp |]. split; [intros _; exact Hdaily |].
        split; (split; [absurd_hyp | reflexivity]). }
    apply dgt_zero_iff in Hd as Hdp.
    destruct (dgt il_usd_lower (Dec 0)) eqn:Hl;
      destruct (dgt il_usd_upper (Dec 0)) eqn:Hu;
      repeat rewrite (ddiv_ok _ daily) by lia; cbn [mbind res_bind];
      eexists; eexists; eexists; (split; [reflexivity |]);
      (split; [absurd_hyp |]); (split; [intros _; exact Hdaily |]);
      split; split;
      first [ intros; apply ddiv_ok; lia
            | intros [H | H]; absurd_hyp
            | absurd_hyp ].
  - intros days remaining. unfold breakeven_str, time_remaining_perc.
    destruct (dgt days (Dec 0)) eqn:Hd.
    + split; [absurd_hyp |].
      apply dgt_zero_iff in Hd as Hdp.
      rewrite (ddiv_ok remaining days) by lia. cbn [mbind res_bind].
      destruct (dlt remaining (Dec 0)) eqn:Hrem.
      * rewrite (format_timedelta_negative remaining Hrem). cbn.
        split; [reflexivity |]. split; [absurd_hyp | eauto].
      * destruct (String.eqb_spec (format_timedelta (DaysDec remaining)) "Met")
          as [Hmet | Hnot].
        { apply format_timedelta_met_iff in Hmet. congruence. }
        cbn [negb]. split; [absurd_hyp |]. split; [reflexivity | eauto].
    + split; [reflexivity |]. split; [absurd_hyp |]. split; [absurd_hyp | eauto].
Qed.

Lemma breakeven_spec_witness :
  dgt (Dec 0) (Dec 0) = false
  /\ breakeven_str (Dec 0) (dsub (Dec 0) (Dec 10)) = "N/A"%string
  /\ dgt (Dec 3) (Dec 0) = true /\ dlt (dsub (Dec 3) (Dec 10)) (Dec 0) = true
  /\ breakeven_str (Dec 3) (dsub (Dec 3) (Dec 10))
     = (format_timedelta (DaysDec (Dec 3)) ++ " (Met)")%string.
Proof.
  assert (dgt (Dec 0) (Dec 0) = false) as H0 by reflexivity.
  assert (dgt (Dec 3) (Dec 0) = true) as H1 by reflexivity.
  assert (dlt (dsub (Dec 3) (Dec 10)) (Dec 0) = true) as H2 by (vm_compute; reflexivity).
  split; [exact H0 |].
  split.
  { exact (proj1 (proj2 (breakeven_spec (Dec 0) (Dec 0) (Dec 0) (Dec 0))
                   (Dec 0) (dsub (Dec 0) (Dec 10))) H0). }
  split; [exact H1 |]. split; [exact H2 |].
  exact (proj1 (proj2 (proj2 (breakeven_spec (Dec 0) (Dec 0) (Dec 0) (Dec 0))
                         (Dec 3) (dsub (Dec 3) (Dec 10)))) H1 H2).
Defined.

(** *** Rewards *)

Lemma pow10_nonzero (n : Z) : 0 <= n -> coef (Dec (10 ^ n)) <> 0.
Proof. intros H. cbn [coef Dec]. pose proof (Z.pow_pos_nonneg 10 n ltac:(lia) H). lia. Qed.





(** Five xSHADOW at 2 USD have a nominal value of 10 USD; the rewards list
    shows 5.00 and the total is 5. *)
Example rewards_of_example_position :
  let c := example_chain [] ∅ (fun _ => true) true in
  exists total,
    rewards_block c (prefetch_prices c) 101 WBTC_USDC_POOL
      = Ok ([mk_reward_entry "5.00" "xSHADOW" "5.00"], total)
    /\ deq total (Dec 5) = true.
Proof. eexists. split; vm_compute; reflexivity. Qed.

(** *** Tick prices *)

Lemma Qpower_succ (x : Q) (n : Z) : 0 <= n -> ~ (x == 0)%Q ->
  (x ^ Z.succ n == x ^ n * x)%Q.
Proof.
  intros Hn Hx. unfold Z.succ. rewrite Qpower_plus by exact Hx.
  rewrite Qpower_1_r. reflexivity.
Qed.

(** Bernoulli's inequality. *)
Lemma bernoulli (x : Q) (n : Z) : (0 <= x)%Q -> 0 <= n ->
  (1 + inject_Z n * x <= (1 + x) ^ n)%Q.
Proof.
  intros Hx Hn. revert n Hn. apply natlike_ind.
  - change ((1 + x) ^ 0)%Q with 1%Q. change (inject_Z 0) with 0%Q. lra.
  - intros n Hn IH. rewrite Qpower_succ by (try exact Hn; lra).
    unfold Z.succ. rewrite inject_Z_plus. change (inject_Z 1) with 1%Q.
    assert (0 <= inject_Z n)%Q as Hq.
    { change 0%Q with (inject_Z 0). rewrite <- Zle_Qle. exact Hn. }
    generalize dependent ((1 + x) ^ n)%Q. intros p IH. nra.
Qed.

Lemma Qpower_base_mono (a b : Q) (n : Z) : (0 < a)%Q -> (a <= b)%Q -> 0 <= n ->
  (a ^ n <= b ^ n)%Q.
Proof.
  intros Ha Hab Hn. revert n Hn. apply natlike_ind.
  - change (a ^ 0)%Q with 1%Q. change (b ^ 0)%Q with 1%Q. lra.
  - intros n Hn IH. rewrite !Qpower_succ by (try exact Hn; lra).
    pose proof (Qpower_0_lt a n Ha) as Hp.
    generalize dependent (a ^ n)%Q. generalize (b ^ n)%Q. intros q p IH Hp. nra.
Qed.

(** Rounding a positive value errs by at most one unit of the last of the 50
    digits. *)
Lemma round_ctx_upper (q : Q) : (0 < q)%Q ->
  (dval (round_ctx q) <= q * (1 + ten ^ (- (prec - 1))))%Q.
Proof.
  intros Hq. unfold round_ctx.
  destruct (Qeq_bool q 0) eqn:Hz; [apply Qeq_bool_iff in Hz; lra |].
  rewrite carry_val.
  assert (ilog10 (Qabs q) = ilog10 q) as ->.
  { unfold ilog10. destruct q as [n d]. unfold Qlt in Hq. simpl in Hq.
    destruct n; try lia. reflexivity. }
  destruct (ilog10_spec q Hq) as [Hlo _].
  set (L := ilog10 q) in *. set (e := L - (prec - 1)).
  pose proof (round_half_even_bounds (q * ten ^ (- e))%Q) as [_ Hm].
  pose proof (Qfloor_le (q * ten ^ (- e))%Q) as Hfl.
  assert (inject_Z (round_half_even (q * ten ^ (- e))) <= q * ten ^ (- e) + 1)%Q as Hm'.
  { apply Qle_trans with (inject_Z (Qfloor (q * ten ^ (- e)) + 1)).
    - rewrite <- Zle_Qle. exact Hm.
    - rewrite inject_Z_plus. change (inject_Z 1) with 1%Q. lra. }
  assert (ten ^ e * ten ^ (- e) == 1)%Q as Hinv.
  { rewrite <- ten_pow_add. replace (e + - e) with 0 by lia. reflexivity. }
  assert (ten ^ e <= q * ten ^ (- (prec - 1)))%Q as Hulp.
  { subst e. replace (L - (prec - 1)) with (L + - (prec - 1)) by lia.
    rewrite ten_pow_add. pose proof (ten_pow_pos (- (prec - 1))). nra. }
  pose proof (ten_pow_pos e) as He. pose proof (ten_pow_pos (- e)) as Hne.
  clear Hm Hfl Hlo Hz.
  set (m := round_half_even (q * ten ^ (- e))) in *. clearbody m.
  set (u := (ten ^ (- (prec - 1)))%Q) in *. clearbody u.
  set (ne := (ten ^ (- e))%Q) in *. clearbody ne.
  set (pe := (ten ^ e)%Q) in *. clearbody pe.
  assert (inject_Z m * pe <= (q * ne + 1) * pe)%Q as H1 by nra.
  assert ((q * ne + 1) * pe == q * (pe * ne) + pe)%Q as H2 by ring.
  rewrite H2, Hinv in H1. lra.
Qed.

(** The base of the code lies a relative 1.1e-17 below 1.0001. *)
Lemma base_deficit :
  (dval Decimal_1_0001 * (1 + (11 # 1000000000000000000)) <= 10001 # 10000)%Q.
Proof. vm_compute. discriminate. Qed.

Lemma adjustment_8_8 : (dval (dpow (Dec 10) (8 - 8)) == 1)%Q.
Proof. vm_compute. reflexivity. Qed.

(** For a tick [n >= 0] and equal decimal scales the code's price, scaled up
    by [1 + n * 1.1e-17], still does not exceed [1.0001^n] by more than two
    roundings. *)
Lemma tick_to_price_upper (n : Z) : 0 <= n ->
  (dval (tick_to_price n 8 8) * (1 + inject_Z n * (11 # 1000000000000000000))
   <= (10001 # 10000) ^ n * ((1 + ten ^ (- (prec - 1))) * (1 + ten ^ (- (prec - 1)))))%Q.
Proof.
  intros Hn. unfold tick_to_price, dmul.
  pose proof adjustment_8_8 as Hone.
  pose proof base_pos as HB. pose proof base_deficit as Hdef.
  unfold dpow at 1.
  set (one := dpow (Dec 10) (8 - 8)) in *. clearbody one.
  set (B := dval Decimal_1_0001) in *. clearbody B.
  pose proof (Qpower_0_lt B n HB) as HBn.
  pose proof (round_ctx_upper (B ^ n) HBn) as Hr1.
  pose proof (proj1 (dval_pos _) (round_ctx_pos (B ^ n) HBn)) as Hp1.
  set (P := dval (round_ctx (B ^ n))) in *. clearbody P.
  assert (0 < P * dval one)%Q as Hpos by (rewrite Hone; lra).
  pose proof (round_ctx_upper (P * dval one) Hpos) as Hr2.
  set (V := dval (round_ctx (P * dval one))) in *. clearbody V.
  rewrite Hone in Hr2.
  assert (B ^ n * (1 + inject_Z n * (11 # 1000000000000000000)) <= (10001 # 10000) ^ n)%Q as Hb.
  { apply Qle_trans with (B ^ n * (1 + (11 # 1000000000000000000)) ^ n)%Q.
    - apply Qmult_le_l; [exact HBn |]. apply bernoulli; [discriminate | exact Hn].
    - rewrite <- Qmult_power. apply Qpower_base_mono; [| exact Hdef | exact Hn].
      apply Qmult_lt_0_compat; [exact HB | reflexivity]. }
  assert (0 <= inject_Z n)%Q as Hq.
  { change 0%Q with (inject_Z 0). rewrite <- Zle_Qle. exact Hn. }
  pose proof (ten_pow_pos (- (prec - 1))) as Hu.
  set (u := (ten ^ (- (prec - 1)))%Q) in *. clearbody u.
  set (b0n := ((10001 # 10000) ^ n)%Q) in *. clearbody b0n.
  set (Bn := (B ^ n)%Q) in *. clearbody Bn.
  set (k := (1 + inject_Z n * (11 # 1000000000000000000))%Q) in *.
  assert (1 <= k)%Q as Hk by (subst k; nra). clearbody k.
  assert (V <= Bn * ((1 + u) * (1 + u)))%Q as HV by nra.
  assert (V * k <= Bn * k * ((1 + u) * (1 + u)))%Q as HV' by nra.
  assert (Bn * k * ((1 + u) * (1 + u)) <= b0n * ((1 + u) * (1 + u)))%Q as HV'' by nra.
  lra.
Qed.

(** At tick 887272 the code's price misses [1.0001^887272] by more than nine
    parts in 10^12. *)
Lemma tick_to_price_at_max_tick :
  (dval (tick_to_price 887272 8 8)
   < (10001 # 10000) ^ 887272 * (1 - (9 # 1000000000000)))%Q.
Proof.
  pose proof (tick_to_price_upper 887272 ltac:(lia)) as H.
  pose proof (Qpower_0_lt (10001 # 10000) 887272 ltac:(reflexivity)) as HP.
  set (V := dval (tick_to_price 887272 8 8)) in *. clearbody V.
  set (P := ((10001 # 10000) ^ 887272)%Q) in *. clearbody P.
  assert ((1 + inject_Z 887272 * (11 # 1000000000000000000)) == 1000000000009759992 # 1000000000000000000)%Q
    as Hk by reflexivity.
  assert (ten ^ (- (prec - 1)) == 1 # 10000000000000000000000000000000000000000000000000)%Q as Hu by reflexivity.
  rewrite Hk, Hu in H.
  assert (P * ((1 + (1 # 10000000000000000000000000000000000000000000000000)) * (1 + (1 # 10000000000000000000000000000000000000000000000000)))
          < P * ((1000000000009759992 # 1000000000000000000) * (1 - (9 # 1000000000000))))%Q as Hc.
  { apply Qmult_lt_l; [exact HP | reflexivity]. }
  assert (0 < 1000000000009759992 # 1000000000000000000)%Q as Hk0 by reflexivity.
  nra.
Qed.

(** [Decimal(1.0001)] is the double nearest to 1.0001, not 1.0001. *)
Lemma Decimal_1_0001_is_the_double :
  (dval Decimal_1_0001 == float_1_0001_mantissa # 2 ^ 52)%Q
  /\ (Qabs ((float_1_0001_mantissa # 2 ^ 52) - (10001 # 10000)) <= 1 # 2 ^ 53)%Q
  /\ (dval Decimal_1_0001 < 10001 # 10000)%Q.
Proof. vm_compute. repeat split; discriminate. Qed.

(** C1, on the code.  At tick 1 with both decimal scales 8 the code returns
    1.0000999999999999889865875957184471189975738525391, the 50-digit
    rounding of the double nearest to 1.0001, which differs from
    1.0001^1 = 1.0001 by more than 10^-17; at tick 887272 the result lies more
    than nine parts in 10^12 below 1.0001^887272.  Fifty significant digits
    leave room for an error of 10^-49.  Tick 0 does give 1. *)
Theorem tick_to_price_misses_1_0001 :
  tick_to_price 1 8 8
    = mkDec 10000999999999999889865875957184471189975738525391 (-49)
  /\ deq (tick_to_price 1 8 8) (mkDec 10001 (-4)) = false
  /\ ((10001 # 10000) ^ 1 * ten ^ (8 - 8) - dval (tick_to_price 1 8 8)
      > 1 # 100000000000000000)%Q
  /\ (dval (tick_to_price 887272 8 8)
      < (10001 # 10000) ^ 887272 * ten ^ (8 - 8) * (1 - (9 # 1000000000000)))%Q
  /\ deq (tick_to_price 0 8 8) (Dec 1) = true.
Proof.
  split; [vm_compute; reflexivity |].
  split; [vm_compute; reflexivity |].
  split; [vm_compute; reflexivity |].
  split; [| vm_compute; reflexivity].
  change (ten ^ (8 - 8))%Q with 1%Q. rewrite Qmult_1_r.
  exact tick_to_price_at_max_tick.
Qed.

(** *** Failures of a single position *)

(** C2, on a wallet of two open positions.  Position 107 has a stored
    baseline; the mint event of position 108 is found, but the pool cannot be
    read at the block of that event.  Nothing is stored for 108, the lookup
    [initial_data_cache[token_id_str]] raises [KeyError] outside any [try],
    and the whole call raises: position 107 is not reported either.  When
    that one read succeeds, both positions are reported.  A position whose
    mint event is not found fares no better when it comes first: its
    "(Current)" baseline skips the block that assigns [perc_to_lower], and
    building its report raises [UnboundLocalError]. *)
Theorem one_failing_position_aborts_the_report :
  find_and_display_positions wallet_with_unreadable_history example_wallet
    = Raise KeyError
  /\ (exists report,
        find_and_display_positions wallet_with_readable_history example_wallet
          = Ok (Portfolio report)
        /\ map pr_token_id (report_positions report) = [107; 108])
  /\ find_and_display_positions wallet_of_one_fresh_position example_wallet
     = Raise UnboundLocalError.
Proof.
  split; [vm_compute; reflexivity |].
  split; [| vm_compute; reflexivity].
  eexists. split; vm_compute; reflexivity.
Qed.

(** *** A freshly captured baseline *)

Lemma prefix_refl (s : string) : String.prefix s s = true.
Proof.
  induction s as [| a s IH]; [reflexivity |]. cbn.
  destruct (ascii_dec a a); [exact IH | contradiction].
Qed.

Lemma contains_refl (s : string) : contains s s = true.
Proof.
  destruct s; cbn [contains]; [reflexivity |]. rewrite prefix_refl. reflexivity.
Qed.

Lemma contains_suffix (needle s : string) : contains needle (s ++ needle) = true.
Proof.
  induction s as [| a s IH].
  - change (EmptyString ++ needle)%string with needle. apply contains_refl.
  - change (String a s ++ needle)%string with (String a (s ++ needle)).
    cbn [contains]. rewrite IH. apply orb_true_r.
Qed.

(** The IL model at the entry price. *)
Lemma il_at_entry_price (Pe Pl Pu : Decimal) :
  calculate_il_percentage Pe Pe Pl Pu = Ok (Dec 0).
Proof.
  unfold calculate_il_percentage.
  assert (deq Pe Pe = true) as -> by (apply deq_iff; reflexivity).
  reflexivity.
Qed.

(** C6 (as amended). A position that the store does not know and whose mint
    event is not found gets its baseline captured in this report, dated now
    and marked "(Current)"; when the round returns, its report has an APR and
    projections of 0 and an empty [impermanent_loss_data]: the IL block runs
    only for a positive elapsed time, so neither an IL at the current price nor
    a net gain/loss is reported.  The IL model itself is 0 when the target
    price is the entry price. *)
Theorem fresh_baseline_report (c : chain) (wallet_address : address)
    (price_cache : gmap string Decimal) (st st' : loop_state)
    (token_id : Z) (pos : position_data) (current_pool_info : pool_info) :
  ls_initial_data_cache st !! str_of_int token_id = None ->
  get_position_creation_info c token_id wallet_address = None ->
  get_pool_info c (pd_token0 pos) (pd_token1 pos) Latest = Some current_pool_info ->
  position_step c wallet_address price_cache st (token_id, pos) = Ok st' ->
  (exists r,
     ls_all_positions_data st' = ls_all_positions_data st ++ [r]
     /\ pr_token_id r = token_id
     /\ is_date (pr_initial_state r) = (now_strftime c ++ " (Current)")%string
     /\ pr_annualized_apr r = "0.00%"%string
     /\ pr_daily_projected_usd_earnings r = "0.00"%string
     /\ pr_annual_projected_usd_earnings r = "0.00"%string
     /\ pr_impermanent_loss_data r = None)
  /\ (forall Pe Pl Pu, calculate_il_percentage Pe Pe Pl Pu = Ok (Dec 0)).
Proof.
  intros Hnew Hmint Hpool Hstep. split; [| exact il_at_entry_price].
  unfold position_step in Hstep. rewrite Hpool in Hstep.
  bind_inv Hstep.
  apply bind_ok_inv in Hstep. destruct Hstep as (cache & Hcache & Hstep).
  assert (exists a1 a2,
            cache !! str_of_int token_id
            = Some (mk_initial_position (now_strftime c ++ " (Current)")%string
                      BlockNA a1 a2
                      (Some (tick_to_price (pi_current_tick current_pool_info)
                               (ti_decimals (get_token_info c (pd_token0 pos)))
                               (ti_decimals (get_token_info c (pd_token1 pos)))))))
    as (a1 & a2 & Hfresh).
  { unfold capture_baseline in Hcache. rewrite Hnew, Hmint in Hcache.
    cbn [mbind res_bind] in Hcache. rewrite lookup_insert_eq in Hcache.
    injection Hcache as <-. rewrite lookup_insert_eq. eauto. }
  rewrite Hfresh in Hstep.
  do 3 bind_inv Hstep.
  unfold apr_block in Hstep. cbn [ip_date] in Hstep.
  rewrite contains_suffix in Hstep. cbn [negb] in Hstep.
  cbn [days_active annualized_apr daily_projected_usd_earnings
         annual_projected_usd_earnings] in Hstep.
  unfold il_block in Hstep.
  replace (dgt (Dec 0) (Dec 0)) with false in Hstep by reflexivity.
  rewrite !andb_false_r in Hstep. cbn [v_perc_to_lower v_perc_to_upper v_il_data] in Hstep.
  do 7 bind_inv Hstep.
  injection Hstep as <-. eexists. cbn. repeat split; reflexivity.
Qed.

Lemma run_round_of_108 :
  position_step wallet_with_fresh_baseline example_wallet
    (prefetch_prices wallet_with_fresh_baseline) state_before_108
    (108, open_position) = round_of_108.
Proof. vm_compute. reflexivity. Qed.

Lemma fresh_baseline_report_witness :
  ls_initial_data_cache state_before_108 !! str_of_int 108 = None
  /\ get_position_creation_info wallet_with_fresh_baseline 108 example_wallet = None
  /\ exists st' r,
       position_step wallet_with_fresh_baseline example_wallet
         (prefetch_prices wallet_with_fresh_baseline) state_before_108
         (108, open_position) = Ok st'
       /\ ls_all_positions_data st' = ls_all_positions_data state_before_108 ++ [r]
       /\ pr_annualized_apr r = "0.00%"%string
       /\ pr_impermanent_loss_data r = None.
Proof.
  assert (ls_initial_data_cache state_before_108 !! str_of_int 108 = None) as Hnew
    by (vm_compute; reflexivity).
  split; [exact Hnew |]. split; [reflexivity |].
  pose proof run_round_of_108 as Hrun. unfold round_of_108 in Hrun.
  destruct (proj1 (fresh_baseline_report wallet_with_fresh_baseline example_wallet
                     (prefetch_prices wallet_with_fresh_baseline) state_before_108 _
                     108 open_position (mk_pool_info WBTC_USDC_POOL (Dec 1) 0)
                     Hnew eq_refl eq_refl Hrun))
    as (r & Hdata & _ & _ & Hapr & _ & _ & Hil).
  eexists. exists r. split; [exact Hrun |]. auto.
Defined.

(** C6 as stated fails: on a wallet whose position 108 gets its baseline
    captured in this very report, the report of 108 carries no
    impermanent-loss data at all, so it shows neither an IL of 0 at the current
    price nor a net gain/loss equal to the total rewards (5.00 USD). *)
Lemma fresh_baseline_shows_no_il_data :
  exists report r107 r108,
    find_and_display_positions wallet_with_fresh_baseline example_wallet
      = Ok (Portfolio report)
    /\ report_positions report = [r107; r108]
    /\ pr_token_id r108 = 108
    /\ is_date (pr_initial_state r108) = "Tue 2026-11-03 12:00:00 (Current)"%string
    /\ pr_total_rewards_usd r108 = "5.00"%string
    /\ ~ (exists d, pr_impermanent_loss_data r108 = Some d
                    /\ cb_il_usd (il_current d) = "0.00"%string
                    /\ cb_net_gain_loss (il_current d) = pr_total_rewards_usd r108).
Proof.
  assert (find_and_display_positions wallet_with_fresh_baseline example_wallet
          = response_with_fresh_baseline) as Hrun by (vm_compute; reflexivity).
  unfold response_with_fresh_baseline in Hrun.
  eexists. eexists. eexists. split; [exact Hrun |].
  split; [reflexivity |]. split; [reflexivity |]. split; [reflexivity |].
  split; [reflexivity |].
  intros (d & Hd & _). discriminate Hd.
Qed.

(** ** Further properties of the code *)

(** *** Monotonicity and accuracy of the rounding *)

Lemma round_half_even_mono (q1 q2 : Q) :
  (q1 <= q2)%Q -> round_half_even q1 <= round_half_even q2.
Proof.
  intros Hle.
  pose proof (Qfloor_resp_le _ _ Hle) as Hfl.
  pose proof (round_half_even_bounds q1) as Hb1.
  pose proof (round_half_even_bounds q2) as Hb2.
  destruct (Z.eq_dec (Qfloor q1) (Qfloor q2)) as [Heq | Hne]; [| lia].
  unfold round_half_even. rewrite <- Heq.
  set (f := Qfloor q1).
  destruct (q1 - inject_Z f ?= 1 # 2)%Q eqn:Hc1;
    destruct (q2 - inject_Z f ?= 1 # 2)%Q eqn:Hc2;
    try (destruct (Z.even f)); try lia; exfalso.
  - apply Qeq_alt in Hc1. apply Qlt_alt in Hc2. lra.
  - apply Qgt_alt in Hc1. apply Qeq_alt in Hc2. lra.
  - apply Qgt_alt in Hc1. apply Qlt_alt in Hc2. lra.
  - apply Qgt_alt in Hc1. apply Qlt_alt in Hc2. lra.
Qed.

Lemma round_half_even_near (q : Q) :
  (q - (1 # 2) <= inject_Z (round_half_even q) <= q + (1 # 2))%Q.
Proof.
  unfold round_half_even.
  pose proof (Qfloor_le q) as Hlo. pose proof (Qlt_floor q) as Hhi.
  rewrite inject_Z_plus in Hhi. change (inject_Z 1) with 1%Q in Hhi.
  set (f := Qfloor q) in *.
  destruct (q - inject_Z f ?= 1 # 2)%Q eqn:Hc.
  - apply Qeq_alt in Hc. destruct (Z.even f).
    + lra.
    + rewrite inject_Z_plus. change (inject_Z 1) with 1%Q. lra.
  - apply Qlt_alt in Hc. lra.
  - apply Qgt_alt in Hc. rewrite inject_Z_plus. change (inject_Z 1) with 1%Q. lra.
Qed.

Lemma ilog10_Qabs_pos (q : Q) : (0 < q)%Q -> ilog10 (Qabs q) = ilog10 q.
Proof.
  intros Hq. unfold ilog10. destruct q as [n d]. unfold Qlt in Hq. simpl in Hq.
  destruct n; try lia. reflexivity.
Qed.

(** The scaled argument of [round_ctx] has 50 integer digits. *)
Lemma round_ctx_scaled (q : Q) : (0 < q)%Q ->
  let e := ilog10 q - (prec - 1) in
  (ten ^ (prec - 1) <= q * ten ^ (- e))%Q /\ (q * ten ^ (- e) < ten ^ prec)%Q.
Proof.
  intros Hq e. destruct (ilog10_spec q Hq) as [Hlo Hhi].
  set (L := ilog10 q) in *.
  pose proof (ten_pow_pos (- e)) as Hp.
  split.
  - assert (ten ^ (prec - 1) == ten ^ L * ten ^ (- e))%Q as ->.
    { rewrite <- ten_pow_add. subst e. replace (L + - (L - (prec - 1))) with (prec - 1) by lia.
      reflexivity. }
    nra.
  - assert (ten ^ prec == ten ^ (L + 1) * ten ^ (- e))%Q as ->.
    { rewrite <- ten_pow_add. subst e. replace (L + 1 + - (L - (prec - 1))) with prec by lia.
      reflexivity. }
    nra.
Qed.

Lemma round_half_even_range (s : Q) :
  (ten ^ (prec - 1) <= s)%Q -> (s < ten ^ prec)%Q ->
  10 ^ (prec - 1) <= round_half_even s <= 10 ^ prec.
Proof.
  intros Hlo Hhi.
  pose proof (round_half_even_bounds s) as Hb.
  rewrite <- (ten_pow_Z (prec - 1)) in Hlo by (unfold prec; lia).
  rewrite <- (ten_pow_Z prec) in Hhi by (unfold prec; lia).
  apply Qfloor_resp_le in Hlo. rewrite Qfloor_Z in Hlo.
  assert (Qfloor s < 10 ^ prec) as Hf.
  { destruct (Z_lt_le_dec (Qfloor s) (10 ^ prec)) as [H | H]; [exact H | exfalso].
    pose proof (Qfloor_le s) as Hfl. rewrite Zle_Qle in H. lra. }
  lia.
Qed.

Lemma round_ctx_val_pos (q : Q) : (0 < q)%Q ->
  let e := ilog10 q - (prec - 1) in
  (dval (round_ctx q) == inject_Z (round_half_even (q * ten ^ (- e))) * ten ^ e)%Q.
Proof.
  intros Hq e. unfold round_ctx.
  destruct (Qeq_bool q 0) eqn:Hz; [apply Qeq_bool_iff in Hz; lra |].
  rewrite carry_val, ilog10_Qabs_pos by exact Hq. reflexivity.
Qed.

(** Rounding to the context is monotone. *)
Lemma round_ctx_mono (q1 q2 : Q) :
  (0 <= q1)%Q -> (q1 <= q2)%Q -> (dval (round_ctx q1) <= dval (round_ctx q2))%Q.
Proof.
  intros H1 H12.
  destruct (Qlt_le_dec 0 q1) as [Hp1 | Hz1].
  2:{ assert (q1 == 0)%Q as Hq1 by lra. rewrite (round_ctx_zero _ Hq1).
      change (dval (mkDec 0 0)) with (0 * 1)%Q.
      assert (0 <= q2)%Q as H2 by lra.
      pose proof (proj1 (coef_nonneg_val _) (round_ctx_nonneg _ H2)). lra. }
  assert (0 < q2)%Q as Hp2 by lra.
  rewrite !round_ctx_val_pos by assumption.
  destruct (round_ctx_scaled q1 Hp1) as [Hlo1 Hhi1].
  destruct (round_ctx_scaled q2 Hp2) as [Hlo2 Hhi2].
  pose proof (round_half_even_range _ Hlo1 Hhi1) as Hr1.
  pose proof (round_half_even_range _ Hlo2 Hhi2) as Hr2.
  destruct (ilog10_spec q1 Hp1) as [Ha1 Hb1].
  destruct (ilog10_spec q2 Hp2) as [Ha2 Hb2].
  assert (ilog10 q1 <= ilog10 q2) as HL.
  { destruct (Z_le_gt_dec (ilog10 q1) (ilog10 q2)) as [Hok | Hgt]; [exact Hok |].
    exfalso. pose proof (ten_pow_le (ilog10 q2 + 1) (ilog10 q1) ltac:(lia)). lra. }
  set (e1 := ilog10 q1 - (prec - 1)) in *.
  set (e2 := ilog10 q2 - (prec - 1)) in *.
  set (m1 := round_half_even (q1 * ten ^ (- e1))) in *.
  set (m2 := round_half_even (q2 * ten ^ (- e2))) in *.
  destruct (Z.eq_dec e1 e2) as [Heq | Hne].
  - assert (m1 <= m2) as Hm.
    { subst m1 m2. apply round_half_even_mono. rewrite <- Heq.
      pose proof (ten_pow_pos (- e1)). nra. }
    rewrite <- Heq. pose proof (ten_pow_pos e1).
    apply Qmult_le_compat_r; [| lra]. rewrite <- Zle_Qle. exact Hm.
  - assert (e1 < e2) as He by (subst e1 e2; lia).
    apply Qle_trans with (ten ^ (prec + e1))%Q.
    + rewrite ten_pow_add, <- (ten_pow_Z prec) by (unfold prec; lia).
      pose proof (ten_pow_pos e1).
      apply Qmult_le_compat_r; [| lra]. rewrite <- Zle_Qle. lia.
    + apply Qle_trans with (ten ^ (prec - 1 + e2))%Q.
      * apply ten_pow_le. lia.
      * rewrite ten_pow_add, <- (ten_pow_Z (prec - 1)) by (unfold prec; lia).
        pose proof (ten_pow_pos e2).
        apply Qmult_le_compat_r; [| lra]. rewrite <- Zle_Qle. lia.
Qed.

(** Rounding a positive value errs by at most half a unit of the last of the
    50 digits, in either direction. *)
Lemma round_ctx_near (q : Q) : (0 < q)%Q ->
  (q * (1 - (1 # 2) * ten ^ (- (prec - 1))) <= dval (round_ctx q)
   <= q * (1 + (1 # 2) * ten ^ (- (prec - 1))))%Q.
Proof.
  intros Hq. rewrite round_ctx_val_pos by exact Hq.
  destruct (ilog10_spec q Hq) as [Hlo _].
  set (L := ilog10 q) in *. set (e := L - (prec - 1)).
  pose proof (round_half_even_near (q * ten ^ (- e))%Q) as [Hm1 Hm2].
  assert (ten ^ e * ten ^ (- e) == 1)%Q as Hinv.
  { rewrite <- ten_pow_add. replace (e + - e) with 0 by lia. reflexivity. }
  assert (ten ^ e <= q * ten ^ (- (prec - 1)))%Q as Hulp.
  { subst e. replace (L - (prec - 1)) with (L + - (prec - 1)) by lia.
    rewrite ten_pow_add. pose proof (ten_pow_pos (- (prec - 1))). nra. }
  pose proof (ten_pow_pos e) as He. pose proof (ten_pow_pos (- e)) as Hne.
  clear Hlo.
  set (m := round_half_even (q * ten ^ (- e))) in *. clearbody m.
  set (u := (ten ^ (- (prec - 1)))%Q) in *. clearbody u.
  set (ne := (ten ^ (- e))%Q) in *. clearbody ne.
  set (pe := (ten ^ e)%Q) in *. clearbody pe.
  assert (inject_Z m * pe <= (q * ne + (1 # 2)) * pe)%Q as H1 by nra.
  assert ((q * ne - (1 # 2)) * pe <= inject_Z m * pe)%Q as H1' by nra.
  assert ((q * ne + (1 # 2)) * pe == q * (pe * ne) + (1 # 2) * pe)%Q as H2 by ring.
  assert ((q * ne - (1 # 2)) * pe == q * (pe * ne) - (1 # 2) * pe)%Q as H2' by ring.
  rewrite H2, Hinv in H1. rewrite H2', Hinv in H1'. split; lra.
Qed.

(** *** Prices of ticks *)

Lemma Qpower_step (x : Q) (t1 t2 : Z) :
  (1 <= x)%Q -> t1 < t2 -> (x ^ t1 * x <= x ^ t2)%Q.
Proof.
  intros Hx Ht.
  assert (~ (x == 0)%Q) as Hnz by lra.
  replace t2 with (t1 + (t2 - t1)) by lia.
  rewrite Qpower_plus by exact Hnz.
  assert (x ^ 1 <= x ^ (t2 - t1))%Q as Hk.
  { apply Qpower_le_compat_l; [lia | exact Hx]. }
  assert (x ^ 1 == x)%Q as H1 by (simpl; reflexivity).
  rewrite H1 in Hk.
  assert (0 < x ^ t1)%Q as Hp by (apply Qpower_0_lt; lra).
  nra.
Qed.

Lemma half_ulp_bounds : (0 < half_ulp)%Q /\ (half_ulp < 1)%Q.
Proof. split; reflexivity. Qed.

Lemma base_gap :
  ((1 + half_ulp) * (1 + half_ulp) < dval Decimal_1_0001 * ((1 - half_ulp) * (1 - half_ulp)))%Q.
Proof. reflexivity. Qed.

Lemma dpow_pos (x : Decimal) (n : Z) : 0 < coef x -> 0 < coef (dpow x n).
Proof.
  intros Hx. unfold dpow. apply round_ctx_pos, Qpower_0_lt, dval_pos, Hx.
Qed.

Lemma tick_to_price_pos (tick decimals0 decimals1 : Z) :
  0 < coef (tick_to_price tick decimals0 decimals1).
Proof.
  unfold tick_to_price. apply dmul_pos; apply dpow_pos; reflexivity.
Qed.

(** X1. The price of a tick is positive, whatever the tick and the decimals, so
    the distance of the current price to a bound always divides by it. *)
Theorem tick_to_price_positive (tick decimals0 decimals1 : Z) (numerator : Decimal) :
  let price := tick_to_price tick decimals0 decimals1 in
  dgt price (Dec 0) = true
  /\ exists r, ddiv numerator price = Ok r
               /\ perc_to_bound price numerator = Ok (dmul r (Dec 100)).
Proof.
  intros price. pose proof (tick_to_price_pos tick decimals0 decimals1) as Hp.
  fold price in Hp.
  assert (dgt price (Dec 0) = true) as Hgt by (apply dgt_zero_iff; exact Hp).
  split; [exact Hgt |].
  pose proof (ddiv_ok numerator price ltac:(lia)) as Hr.
  eexists. split; [exact Hr |].
  unfold perc_to_bound. rewrite Hgt, Hr. reflexivity.
Qed.

(** X2. Prices are strictly increasing in the tick: the rounding of the context
    never merges two ticks, so a range of [tickLower < tickUpper] has
    [price_lower < price_upper]. *)
Theorem tick_to_price_increasing (t1 t2 decimals0 decimals1 : Z) :
  t1 < t2 ->
  dlt (tick_to_price t1 decimals0 decimals1) (tick_to_price t2 decimals0 decimals1) = true.
Proof.
  intros Ht. apply dlt_iff. unfold tick_to_price, dmul.
  pose proof (proj1 (dval_pos _) (dpow_pos (Dec 10) (decimals0 - decimals1) eq_refl)) as Ha.
  set (a := dval (dpow (Dec 10) (decimals0 - decimals1))) in *. clearbody a.
  pose proof base_ge_1 as HB1. pose proof base_gap as Hgap.
  pose proof half_ulp_bounds as [Hh0 Hh1].
  pose proof (Qpower_step _ t1 t2 HB1 Ht) as Hstep.
  assert (0 < dval Decimal_1_0001 ^ t1)%Q as HX by (apply Qpower_0_lt; lra).
  assert (0 < dval Decimal_1_0001 ^ t2)%Q as HY by (apply Qpower_0_lt; lra).
  pose proof (round_ctx_near _ HX) as [_ HP1].
  pose proof (round_ctx_near _ HY) as [HP2 _].
  fold half_ulp in HP1, HP2.
  pose proof (proj1 (dval_pos _) (round_ctx_pos _ HX)) as HP1p.
  pose proof (proj1 (dval_pos _) (round_ctx_pos _ HY)) as HP2p.
  unfold dpow.
  set (P1 := dval (round_ctx (dval Decimal_1_0001 ^ t1))) in *. clearbody P1.
  set (P2 := dval (round_ctx (dval Decimal_1_0001 ^ t2))) in *. clearbody P2.
  assert (0 < P1 * a)%Q as Hq1 by nra.
  assert (0 < P2 * a)%Q as Hq2 by nra.
  pose proof (round_ctx_near _ Hq1) as [_ HT1].
  pose proof (round_ctx_near _ Hq2) as [HT2 _].
  fold half_ulp in HT1, HT2.
  set (T1 := dval (round_ctx (P1 * a))) in *. clearbody T1.
  set (T2 := dval (round_ctx (P2 * a))) in *. clearbody T2.
  set (X := (dval Decimal_1_0001 ^ t1)%Q) in *. clearbody X.
  set (Y := (dval Decimal_1_0001 ^ t2)%Q) in *. clearbody Y.
  set (B := dval Decimal_1_0001) in *. clearbody B.
  set (h := half_ulp) in *. clearbody h.
  assert (T1 <= X * a * ((1 + h) * (1 + h)))%Q as S1.
  { apply Qle_trans with (P1 * a * (1 + h))%Q; [exact HT1 |].
    assert (P1 * a * (1 + h) <= X * (1 + h) * a * (1 + h))%Q; [| lra].
    assert (0 <= a * (1 + h))%Q by nra.
    assert (P1 * a * (1 + h) == P1 * (a * (1 + h)))%Q as -> by ring.
    assert (X * (1 + h) * a * (1 + h) == (X * (1 + h)) * (a * (1 + h)))%Q as -> by ring.
    apply Qmult_le_compat_r; assumption. }
  assert (Y * a * ((1 - h) * (1 - h)) <= T2)%Q as S2.
  { apply Qle_trans with (P2 * a * (1 - h))%Q; [| exact HT2].
    assert (0 <= a * (1 - h))%Q by nra.
    assert (P2 * a * (1 - h) == P2 * (a * (1 - h)))%Q as -> by ring.
    assert (Y * a * ((1 - h) * (1 - h)) == (Y * (1 - h)) * (a * (1 - h)))%Q as -> by ring.
    apply Qmult_le_compat_r; assumption. }
  assert (X * a * ((1 + h) * (1 + h)) < X * a * (B * ((1 - h) * (1 - h))))%Q as S3.
  { assert (0 < X * a)%Q by nra. nra. }
  assert (X * a * (B * ((1 - h) * (1 - h))) <= Y * a * ((1 - h) * (1 - h)))%Q as S4.
  { assert (0 <= a * ((1 - h) * (1 - h)))%Q by nra.
    assert (X * a * (B * ((1 - h) * (1 - h))) == (X * B) * (a * ((1 - h) * (1 - h))))%Q as -> by ring.
    assert (Y * a * ((1 - h) * (1 - h)) == Y * (a * ((1 - h) * (1 - h))))%Q as -> by ring.
    apply Qmult_le_compat_r; assumption. }
  lra.
Qed.

Lemma tick_to_price_increasing_witness :
  dlt (tick_to_price (-2) 8 6) (tick_to_price 2 8 6) = true.
Proof. apply tick_to_price_increasing. lia. Defined.

(** *** What the scan lists *)

Lemma enumerate_loop_sublist (c : chain) (wallet_address : address)
    (indices : list Z) :
  forall (active : list (Z * position_data)) (cc : Z),
  exists picked,
    sublist picked indices
    /\ enumerate_loop c wallet_address indices active cc
       = active ++ omap (open_at c wallet_address) picked
    /\ length (omap (open_at c wallet_address) picked) = length picked.
Proof.
  induction indices as [| i indices IH]; intros active cc.
  - exists []. cbn. rewrite app_nil_r. auto using sublist_nil.
  - cbn [enumerate_loop].
    destruct (tokenOfOwnerByIndex c wallet_address i) as [tid | e] eqn:Htid; cbn.
    2:{ destruct (IH active cc) as (picked & Hsub & Heq & Hlen).
        exists picked. split; [apply sublist_cons, Hsub | split; [exact Heq | exact Hlen]]. }
    destruct (positions c tid) as [pd | e] eqn:Hpd; cbn.
    2:{ destruct (IH active cc) as (picked & Hsub & Heq & Hlen).
        exists picked. split; [apply sublist_cons, Hsub | split; [exact Heq | exact Hlen]]. }
    destruct (0 <? pd_liquidity pd) eqn:Hliq.
    + destruct (IH (active ++ [(tid, pd)]) 0) as (picked & Hsub & Heq & Hlen).
      assert (open_at c wallet_address i = Some (tid, pd)) as Hopen.
      { unfold open_at. rewrite Htid, Hpd, Hliq. reflexivity. }
      exists (i :: picked). split; [apply sublist_skip, Hsub |].
      cbn [omap list_omap]. rewrite Hopen, Heq, <- app_assoc.
      cbn [app length]. split; [reflexivity | lia].
    + destruct (5 <=? cc + 1).
      * exists []. cbn. rewrite app_nil_r. split; [apply sublist_nil_l | auto].
      * destruct (IH active (cc + 1)) as (picked & Hsub & Heq & Hlen).
        exists picked. split; [apply sublist_cons, Hsub | split; [exact Heq | exact Hlen]].
Qed.

Lemma omap_rev {A B : Type} (f : A -> option B) (l : list A) :
  omap f (rev l) = rev (omap f l).
Proof.
  induction l as [| a l IH]; [reflexivity |].
  cbn [rev]. rewrite omap_app, IH. cbn. destruct (f a); cbn; [reflexivity |].
  rewrite app_nil_r. reflexivity.
Qed.

Lemma sublist_rev {A : Type} (l1 l2 : list A) :
  sublist l1 l2 -> sublist (rev l1) (rev l2).
Proof.
  induction 1 as [| x l1 l2 _ IH | x l1 l2 _ IH]; cbn [rev].
  - constructor.
  - apply sublist_app; [exact IH | reflexivity].
  - apply sublist_inserts_r, IH.
Qed.

Lemma omap_length_le {A B : Type} (f : A -> option B) (l : list A) :
  (length (omap f l) <= length l)%nat.
Proof.
  induction l as [| a l IH]; cbn; [lia |]. destruct (f a); cbn; lia.
Qed.

Lemma omap_full {A B : Type} (f : A -> option B) (l : list A) :
  length (omap f l) = length l -> Forall2 (fun a b => f a = Some b) l (omap f l).
Proof.
  induction l as [| a l IH]; cbn; intros Hlen; [constructor |].
  pose proof (omap_length_le f l) as Hle.
  destruct (f a) as [b |] eqn:Hfa; cbn in Hlen; [| lia].
  constructor; [exact Hfa | apply IH; lia].
Qed.

Lemma open_at_Some (c : chain) (wallet_address : address) (i : Z)
    (p : Z * position_data) :
  open_at c wallet_address i = Some p <->
  tokenOfOwnerByIndex c wallet_address i = Ok p.1
  /\ positions c p.1 = Ok p.2 /\ 0 < pd_liquidity p.2.
Proof.
  unfold open_at. destruct p as [tid pd]. cbn [fst snd]. split.
  - destruct (tokenOfOwnerByIndex c wallet_address i) as [t | e]; [| discriminate].
    destruct (positions c t) as [d | e] eqn:Hd; [| discriminate].
    destruct (Z.ltb_spec 0 (pd_liquidity d)); [| discriminate].
    intros [= -> ->]. auto.
  - intros (-> & -> & Hliq). apply Z.ltb_lt in Hliq. rewrite Hliq. reflexivity.
Qed.

(** X3. The scan lists positions in ascending order of their wallet index, each
    read at an index of its own below the balance, and only positions with
    liquidity. *)
Theorem enumerate_active_sound (c : chain) (wallet_address : address) (balance : Z) :
  exists indices : list Z,
    sublist indices (seqZ 0 balance)
    /\ Forall2 (fun i p =>
                  tokenOfOwnerByIndex c wallet_address i = Ok p.1
                  /\ positions c p.1 = Ok p.2
                  /\ 0 < pd_liquidity p.2)
         indices (enumerate_active c wallet_address balance).
Proof.
  unfold enumerate_active, descending_range.
  destruct (enumerate_loop_sublist c wallet_address (rev (seqZ 0 balance)) [] 0)
    as (picked & Hsub & Heq & Hlen).
  rewrite Heq. cbn [app]. exists (rev picked). split.
  - apply sublist_rev in Hsub. rewrite rev_involutive in Hsub. exact Hsub.
  - rewrite <- omap_rev.
    eapply Forall2_impl;
      [apply omap_full; rewrite omap_rev, !length_rev; exact Hlen |].
    intros i p Hp. apply open_at_Some, Hp.
Qed.

(** *** When the scan is complete *)

Lemma enumerate_loop_complete (c : chain) (wallet_address : address)
    (indices : list Z) :
  forall (active : list (Z * position_data)) (cc : Z),
  (Z.to_nat cc + length (List.filter (reads_closed c wallet_address) indices) < 5)%nat ->
  0 <= cc ->
  enumerate_loop c wallet_address indices active cc
  = active ++ omap (open_at c wallet_address) indices.
Proof.
  induction indices as [| i indices IH]; intros active cc Hfew Hcc.
  - cbn. rewrite app_nil_r. reflexivity.
  - cbn [enumerate_loop omap list_omap List.filter] in *.
    unfold open_at at 1. unfold reads_closed at 1 in Hfew.
    destruct (tokenOfOwnerByIndex c wallet_address i) as [tid | e]; cbn in Hfew |- *.
    2:{ apply IH; assumption. }
    destruct (positions c tid) as [pd | e]; cbn in Hfew |- *.
    2:{ apply IH; assumption. }
    destruct (0 <? pd_liquidity pd); cbn in Hfew |- *.
    + rewrite IH by (cbn; lia). rewrite <- app_assoc. reflexivity.
    + destruct (Z.leb_spec 5 (cc + 1)) as [H5 | H5]; [lia |].
      apply IH; lia.
Qed.

(** X4. When fewer than five of the wallet's positions read as closed, the scan
    lists exactly the positions that are read with liquidity, in the order of
    their indices; a failing read only drops its own index. *)
Theorem enumerate_active_complete (c : chain) (wallet_address : address)
    (balance : Z) :
  (length (List.filter (reads_closed c wallet_address) (seqZ 0 balance)) < 5)%nat ->
  enumerate_active c wallet_address balance
  = omap (open_at c wallet_address) (seqZ 0 balance).
Proof.
  intros Hfew. unfold enumerate_active, descending_range.
  rewrite enumerate_loop_complete; [| | lia].
  - cbn [app]. rewrite omap_rev, rev_involutive. reflexivity.
  - cbn [Z.to_nat Nat.add]. 
    assert (forall l, length (List.filter (reads_closed c wallet_address) (rev l))
                      = length (List.filter (reads_closed c wallet_address) l)) as Hrev.
    { intros l. induction l as [| a l IHl]; [reflexivity |].
      cbn [rev List.filter]. rewrite List.filter_app, length_app, IHl. cbn.
      destruct (reads_closed c wallet_address a); cbn; lia. }
    rewrite Hrev. exact Hfew.
Qed.

Lemma enumerate_active_complete_witness :
  enumerate_active wallet_with_readable_history example_wallet 2
  = omap (open_at wallet_with_readable_history example_wallet) (seqZ 0 2).
Proof. apply enumerate_active_complete. vm_compute. lia. Defined.

(** *** What the loop over the active positions keeps *)

Lemma capture_baseline_keeps (c : chain) (wallet_address : address) (token_id : Z)
    (pos : position_data) (token0_info token1_info : token_info)
    (amount0 amount1 : Z) (current_price : Decimal)
    (cache cache' : gmap string initial_position) :
  capture_baseline c wallet_address token_id pos token0_info token1_info
    amount0 amount1 current_price cache = Ok cache' ->
  forall k, cache' !! k = cache !! k
            \/ (cache !! k = None /\ k = str_of_int token_id).
Proof.
  unfold capture_baseline. intros H k.
  destruct (cache !! str_of_int token_id) as [known |] eqn:Hknown.
  - cbn in H. rewrite Hknown in H. injection H as <-. left. reflexivity.
  - assert (forall v, <[str_of_int token_id := v]> cache !! k = cache !! k
                      \/ (cache !! k = None /\ k = str_of_int token_id)) as Hins.
    { intros v. destruct (decide (k = str_of_int token_id)) as [-> | Hne].
      - right. auto.
      - left. apply lookup_insert_ne. congruence. }
    destruct (get_position_creation_info c token_id wallet_address) as [ci |].
    + destruct (get_pool_info c (pd_token0 pos) (pd_token1 pos)
                  (AtBlock (ci_block_number ci))) as [hist |].
      * bind_inv H. bind_inv Ha. injection Ha as <-.
        destruct (_ !! _) in H; [| discriminate]. injection H as <-. apply Hins.
      * cbn in H. rewrite Hknown in H. discriminate.
    + cbn in H. destruct (_ !! _) in H; [| discriminate]. injection H as <-.
      apply Hins.
Qed.

Lemma position_step_inv (c : chain) (wallet_address : address)
    (price_cache : gmap string Decimal) (st st' : loop_state)
    (token_id : Z) (pos : position_data) :
  position_step c wallet_address price_cache st (token_id, pos) = Ok st' ->
  (pool_readable c (token_id, pos) = false /\ st' = st)
  \/ (pool_readable c (token_id, pos) = true
      /\ (exists r, ls_all_positions_data st' = ls_all_positions_data st ++ [r]
                    /\ pr_token_id r = token_id)
      /\ forall k, ls_initial_data_cache st' !! k = ls_initial_data_cache st !! k
                   \/ (ls_initial_data_cache st !! k = None
                       /\ k = str_of_int token_id)).
Proof.
  unfold position_step, pool_readable. cbn [fst snd]. intros H.
  destruct (get_pool_info c (pd_token0 pos) (pd_token1 pos) Latest) as [pool |].
  2:{ left. split; [reflexivity | congruence]. }
  right. split; [reflexivity |].
  bind_inv H. bind_inv H.
  pose proof (capture_baseline_keeps _ _ _ _ _ _ _ _ _ _ _ Ha0) as Hkeep.
  do 10 bind_inv H.
  injection H as <-. cbn. split; [| exact Hkeep].
  eexists. split; reflexivity.
Qed.

Lemma positions_loop_inv (c : chain) (wallet_address : address)
    (price_cache : gmap string Decimal) (active : list (Z * position_data)) :
  forall (st st' : loop_state),
  positions_loop c wallet_address price_cache active st = Ok st' ->
  map pr_token_id (ls_all_positions_data st')
  = map pr_token_id (ls_all_positions_data st)
    ++ map fst (List.filter (pool_readable c) active)
  /\ forall k, ls_initial_data_cache st' !! k = ls_initial_data_cache st !! k
               \/ (ls_initial_data_cache st !! k = None
                   /\ In k (map (fun p => str_of_int p.1) active)).
Proof.
  induction active as [| [tid pos] active IH]; intros st st' H.
  - cbn in H. injection H as <-. cbn. rewrite app_nil_r. auto.
  - cbn [positions_loop] in H. bind_inv H.
    destruct (IH _ _ H) as [Hids Hkeep].
    cbn [List.filter map].
    destruct (position_step_inv _ _ _ _ _ _ _ Ha)
      as [[Hread ->] | (Hread & (r & Hr & Hid) & Hk)]; rewrite Hread.
    + split; [exact Hids |]. intros k.
      destruct (Hkeep k) as [Hsame | [Hnone Hin]]; [left; exact Hsame |].
      right. split; [exact Hnone | right; exact Hin].
    + split.
      * rewrite Hids, Hr, map_app. cbn. rewrite Hid, <- app_assoc. reflexivity.
      * intros k. destruct (Hkeep k) as [Hsame | [Hnone Hin]].
        -- destruct (Hk k) as [Hsame' | [Hnone' ->]].
           ++ left. congruence.
           ++ destruct (ls_initial_data_cache st' !! str_of_int tid) eqn:Hl.
              ** right. split; [exact Hnone' | left; reflexivity].
              ** left. congruence.
        -- destruct (Hk k) as [Hsame' | [Hnone' ->]].
           ++ right. split; [congruence | right; exact Hin].
           ++ right. split; [exact Hnone' | left; reflexivity].
Qed.

(** X5. The report carries one entry for each active position whose pool can be
    read, in the order of the scan; [num_active_positions] counts every active
    position, also those that the report leaves out. *)
Theorem report_lists_readable_positions (c : chain) (wallet_address : address)
    (balance : Z) (report : portfolio_report) :
  balanceOf c wallet_address = Ok balance ->
  find_and_display_positions c wallet_address = Ok (Portfolio report) ->
  map pr_token_id (report_positions report)
  = map fst (List.filter (pool_readable c) (enumerate_active c wallet_address balance))
  /\ num_active_positions report
     = Z.of_nat (length (enumerate_active c wallet_address balance))
  /\ Z.of_nat (length (report_positions report)) <= num_active_positions report.
Proof.
  intros Hbal H.
  destruct (find_and_display_positions_inv _ _ _ H)
    as (balance' & st & Hbal' & Hloop & Hnum & Hrep).
  rewrite Hbal in Hbal'. injection Hbal' as <-.
  destruct (positions_loop_inv _ _ _ _ _ _ Hloop) as [Hids _].
  cbn [ls_all_positions_data map app] in Hids. rewrite <- Hrep in Hids.
  split; [exact Hids |]. split; [exact Hnum |].
  rewrite Hnum. apply inj_le.
  rewrite <- (length_map pr_token_id), Hids, length_map.
  apply filter_length_le.
Qed.

Lemma report_lists_readable_positions_witness :
  exists report,
    find_and_display_positions wallet_with_hidden_position example_wallet
      = Ok (Portfolio report)
    /\ map pr_token_id (report_positions report) = [107]
    /\ num_active_positions report = 1.
Proof.
  pose proof run_wallet_with_hidden_position as Hrun.
  unfold response_with_hidden_position in Hrun.
  eexists. split; [exact Hrun |].
  destruct (report_lists_readable_positions wallet_with_hidden_position
              example_wallet 7 _ eq_refl Hrun) as (Hids & Hnum & _).
  split; [rewrite Hids | rewrite Hnum]; reflexivity.
Defined.

(** X6. A baseline that the store holds is never replaced: the loop changes the
    baseline cache only by adding entries for positions it visits that had
    none. *)
Theorem stored_baselines_are_kept (c : chain) (wallet_address : address)
    (price_cache : gmap string Decimal) (active : list (Z * position_data))
    (st st' : loop_state) :
  positions_loop c wallet_address price_cache active st = Ok st' ->
  forall k,
    ls_initial_data_cache st' !! k = ls_initial_data_cache st !! k
    \/ (ls_initial_data_cache st !! k = None
        /\ In k (map (fun p => str_of_int p.1) active)).
Proof. intros H. apply (positions_loop_inv _ _ _ _ _ _ H). Qed.

Lemma stored_baselines_are_kept_witness :
  exists st',
    positions_loop wallet_with_fresh_baseline example_wallet
      (prefetch_prices wallet_with_fresh_baseline) [(108, open_position)]
      state_before_108 = Ok st'
    /\ forall k,
         ls_initial_data_cache st' !! k = ls_initial_data_cache state_before_108 !! k
         \/ (ls_initial_data_cache state_before_108 !! k = None
             /\ In k (map (fun p => str_of_int p.1) [(108, open_position)])).
Proof.
  assert (exists st',
            positions_loop wallet_with_fresh_baseline example_wallet
              (prefetch_prices wallet_with_fresh_baseline) [(108, open_position)]
              state_before_108 = Ok st') as [st' Hrun].
  { cbn [positions_loop]. rewrite run_round_of_108. unfold round_of_108.
    eexists. reflexivity. }
  exists st'. split; [exact Hrun |].
  exact (stored_baselines_are_kept _ _ _ _ _ _ Hrun).
Defined.

(** *** The pre-fetched prices *)


(** *** Amounts below the display precision *)

Lemma round_half_even_small (q : Q) :
  (0 <= q)%Q -> (q <= 1 # 2)%Q -> round_half_even q = 0.
Proof.
  intros H0 H1. unfold round_half_even.
  assert (Qfloor q = 0) as ->.
  { pose proof (Qfloor_le q) as Hlo. pose proof (Qlt_floor q) as Hhi.
    rewrite inject_Z_plus in Hhi. change (inject_Z 1) with 1%Q in Hhi.
    assert (inject_Z (Qfloor q) < inject_Z 1)%Q as Ha by (change (inject_Z 1) with 1%Q; lra).
    assert (inject_Z (-1) < inject_Z (Qfloor q))%Q as Hb by (change (inject_Z (-1)) with (-1)%Q; lra).
    rewrite <- Zlt_Qlt in Ha, Hb. lia. }
  destruct (q - inject_Z 0 ?= 1 # 2)%Q eqn:Hc; [reflexivity | reflexivity |].
  apply Qgt_alt in Hc. change (inject_Z 0) with 0%Q in Hc. lra.
Qed.

(** X8. [format_amount] shows a positive amount of at most half a unit of the
    eighth decimal place as zero to eight places. *)
Theorem format_amount_dust (amount decimals : Z) :
  0 < amount -> 0 <= decimals -> 200000000 * amount <= 10 ^ decimals ->
  format_amount amount decimals = Ok "0.00000000"%string.
Proof.
  intros Ha Hd Hsmall. unfold format_amount.
  destruct (Z.eqb_spec amount 0) as [-> | _]; [lia |].
  rewrite (ddiv_ok _ _ (pow10_nonzero _ Hd)). cbn [mbind res_bind].
  set (q := (dval (Dec amount) / dval (Dec (10 ^ decimals)))%Q).
  assert (0 < 10 ^ decimals) as Hpow by (apply Z.pow_pos_nonneg; lia).
  assert ((0 < q)%Q /\ (q <= 5 # 1000000000)%Q) as [Hq0 Hq1].
  { subst q. rewrite !dval_Dec.
    assert (0 < inject_Z amount)%Q as Hqa.
    { change 0%Q with (inject_Z 0). rewrite <- Zlt_Qlt. exact Ha. }
    assert (0 < inject_Z (10 ^ decimals))%Q as Hqp.
    { change 0%Q with (inject_Z 0). rewrite <- Zlt_Qlt. exact Hpow. }
    assert (inject_Z 200000000 * inject_Z amount <= inject_Z (10 ^ decimals))%Q as Hqs.
    { rewrite <- inject_Z_mult, <- Zle_Qle. exact Hsmall. }
    change (inject_Z 200000000) with (200000000 # 1)%Q in Hqs.
    split; [apply Qdiv_pos; assumption |].
    apply Qle_shift_div_r; [exact Hqp |]. lra. }
  assert (0 < coef (round_ctx q)) as Hpos by (apply round_ctx_pos, Hq0).
  assert (dval (round_ctx q) <= 5 # 1000000000)%Q as Hup.
  { apply Qle_trans with (dval (round_ctx (5 # 1000000000))).
    - apply round_ctx_mono; lra.
    - vm_compute. discriminate. }
  pose proof (proj1 (dval_pos _) Hpos) as Hvpos.
  set (adjusted := round_ctx q) in *. clearbody adjusted.
  assert (deq adjusted (Dec 0) = false) as ->.
  { destruct (deq adjusted (Dec 0)) eqn:He; [| reflexivity].
    apply deq_iff in He. rewrite dval_Dec in He. change (inject_Z 0) with 0%Q in He. lra. }
  assert (dlt adjusted float_0_0001 = true) as ->.
  { apply dlt_iff. apply Qle_lt_trans with (5 # 1000000000)%Q; [exact Hup |].
    vm_compute. reflexivity. }
  unfold fmt_8f, format_fixed.
  assert (quantize 8 (Qabs (dval adjusted)) = 0) as ->.
  { unfold quantize. apply round_half_even_small.
    - rewrite Qabs_pos by lra. change (ten ^ Z.of_nat 8)%Q with (100000000 # 1)%Q. lra.
    - rewrite Qabs_pos by lra. change (ten ^ Z.of_nat 8)%Q with (100000000 # 1)%Q. lra. }
  assert (Qle_bool 0 (dval adjusted) = true) as -> by (apply Qle_bool_iff; lra).
  reflexivity.
Qed.

Lemma format_amount_dust_witness : format_amount 1 18 = Ok "0.00000000"%string.
Proof. apply format_amount_dust; [lia | lia | vm_compute; discriminate]. Defined.

(** *** Sign and failures of the impermanent loss *)

Lemma dabs_nonneg (a : Decimal) : 0 <= coef (dabs a).
Proof. unfold dabs. apply round_ctx_nonneg, Qabs_nonneg. Qed.

(** X9. The impermanent loss is never negative. *)
Theorem calculate_il_percentage_nonneg (Pe Pt Pl Pu il : Decimal) :
  calculate_il_percentage Pe Pt Pl Pu = Ok il -> 0 <= coef il.
Proof.
  unfold calculate_il_percentage. intros H.
  destruct (deq Pt Pe || dge Pl Pu); [injection H as <-; cbn; lia |].
  do 6 bind_inv H.
  destruct (deq _ (Dec 0)); [injection H as <-; cbn; lia |].
  bind_inv H. injection H as <-. apply dabs_nonneg.
Qed.

Lemma calculate_il_percentage_nonneg_witness :
  exists il, calculate_il_percentage (Dec 100) (Dec 121) (Dec 81) (Dec 144) = Ok il
             /\ 0 <= coef il.
Proof.
  eexists. split; [vm_compute; reflexivity |].
  apply (calculate_il_percentage_nonneg (Dec 100) (Dec 121) (Dec 81) (Dec 144)).
  vm_compute. reflexivity.
Defined.

Lemma dsqrt_neg (a : Decimal) : coef a < 0 -> dsqrt a = Raise InvalidOperation.
Proof. intros Ha. unfold dsqrt. apply Z.ltb_lt in Ha. rewrite Ha. reflexivity. Qed.

Lemma dsqrt_total (a : Decimal) :
  dsqrt a = Raise InvalidOperation \/ exists r, dsqrt a = Ok r.
Proof. unfold dsqrt. destruct (coef a <? 0); eauto. Qed.

(** X10. Past the two early returns, a negative price makes
    [calculate_il_percentage] raise [InvalidOperation]. *)
Theorem calculate_il_percentage_negative_price (Pe Pt Pl Pu : Decimal) :
  deq Pt Pe = false -> dge Pl Pu = false ->
  coef Pe < 0 \/ coef Pt < 0 \/ coef Pl < 0 \/ coef Pu < 0 ->
  calculate_il_percentage Pe Pt Pl Pu = Raise InvalidOperation.
Proof.
  intros Hne Hrange Hneg. unfold calculate_il_percentage.
  rewrite Hne, Hrange. cbn [orb]. unfold dsqrt.
  destruct (Z.ltb_spec (coef Pe) 0); [reflexivity |].
  destruct (Z.ltb_spec (coef Pt) 0); [reflexivity |].
  destruct (Z.ltb_spec (coef Pl) 0); [reflexivity |].
  destruct (Z.ltb_spec (coef Pu) 0); [reflexivity |].
  lia.
Qed.

Lemma calculate_il_percentage_negative_price_witness :
  calculate_il_percentage (Dec 100) (Dec (-121)) (Dec 81) (Dec 144)
  = Raise InvalidOperation.
Proof.
  apply calculate_il_percentage_negative_price;
    [reflexivity | reflexivity | right; left; reflexivity].
Defined.

(** *** The impermanent-loss block never needs its handler *)

Lemma calculate_il_percentage_ok (Pe Pt Pl Pu : Decimal) :
  0 < coef Pe -> 0 < coef Pt -> 0 < coef Pl -> 0 < coef Pu ->
  exists il, calculate_il_percentage Pe Pt Pl Pu = Ok il.
Proof.
  intros HPe HPt HPl HPu. unfold calculate_il_percentage.
  destruct (deq Pt Pe || dge Pl Pu); [eauto |].
  destruct (dsqrt_pos Pe HPe) as [-> Hse].
  destruct (dsqrt_pos Pt HPt) as [-> Hst].
  destruct (dsqrt_pos Pl HPl) as [-> Hsl].
  destruct (dsqrt_pos Pu HPu) as [-> Hsu].
  cbn [mbind res_bind].
  set (sqrt_entry := round_sqrt (dval Pe)) in *.
  set (sqrt_target := round_sqrt (dval Pt)) in *.
  set (sqrt_lower := round_sqrt (dval Pl)) in *.
  set (sqrt_upper := round_sqrt (dval Pu)) in *.
  pose proof (dmul_pos _ _ Hsl Hsu) as Hlu.
  pose proof (dmul_pos _ _ Hse Hsu) as Heu.
  pose proof (dmul_pos _ _ Hst Hsu) as Htu.
  rewrite !(ddiv_ok _ (dmul sqrt_lower sqrt_upper)) by lia.
  rewrite !(ddiv_ok _ (dmul sqrt_entry sqrt_upper)) by lia.
  rewrite !(ddiv_ok _ (dmul sqrt_target sqrt_upper)) by lia.
  cbn [mbind res_bind].
  destruct (dle Pe Pl); [| destruct (dge Pe Pu)];
    (destruct (dle Pt Pl); [| destruct (dge Pt Pu)]);
    cbn [mbind res_bind];
    match goal with
    | |- context [deq ?h (Dec 0)] =>
        destruct (deq h (Dec 0)) eqn:Hz;
        [eauto | rewrite (ddiv_ok _ h) by (apply deq_zero_false; exact Hz);
                 cbn [mbind res_bind]; eauto]
    end.
Qed.

Lemma breakeven_days_ok (annualized_apr position_usd_value il_usd_lower il_usd_upper : Decimal) :
  exists daily lower upper,
    breakeven_days annualized_apr position_usd_value il_usd_lower il_usd_upper
    = Ok (daily, lower, upper).
Proof.
  unfold breakeven_days.
  destruct (dgt annualized_apr (Dec 0)); [| eauto].
  rewrite (ddiv_ok _ (Dec 100)) by (cbn; lia). cbn [mbind res_bind].
  rewrite (ddiv_ok _ (Dec 365)) by (cbn; lia). cbn [mbind res_bind].
  match goal with
  | |- context [ddiv il_usd_lower ?d] => destruct (dgt d (Dec 0)) eqn:Hd; [| eauto]
  end.
  apply dgt_zero_iff in Hd.
  destruct (dgt il_usd_lower (Dec 0)); destruct (dgt il_usd_upper (Dec 0));
    rewrite ?ddiv_ok by lia; cbn [mbind res_bind]; eauto.
Qed.

Lemma time_remaining_perc_ok (days_to_breakeven time_remaining : Decimal) :
  exists p, time_remaining_perc days_to_breakeven time_remaining = Ok p.
Proof.
  unfold time_remaining_perc.
  destruct (dgt days_to_breakeven (Dec 0)) eqn:Hd; [| eauto].
  apply dgt_zero_iff in Hd. rewrite ddiv_ok by lia. cbn. eauto.
Qed.

Lemma il_figures_ok (initial_info : initial_position)
    (initial_price_val position_usd_value days_active annualized_apr
       total_rewards_usd price_lower price_upper current_price : Decimal)
    (decimals0 decimals1 : Z) :
  0 < coef initial_price_val -> 0 < coef price_lower -> 0 < coef price_upper ->
  0 < coef current_price -> 0 <= decimals0 -> 0 <= decimals1 ->
  exists figures,
    il_figures initial_info initial_price_val position_usd_value days_active
      annualized_apr total_rewards_usd price_lower price_upper current_price
      decimals0 decimals1 = Ok figures.
Proof.
  intros Hi Hl Hu Hc Hd0 Hd1. unfold il_figures.
  destruct (calculate_il_percentage_ok initial_price_val price_lower price_lower
              price_upper Hi Hl Hl Hu) as [il_l ->].
  destruct (calculate_il_percentage_ok initial_price_val price_upper price_lower
              price_upper Hi Hu Hl Hu) as [il_u ->].
  destruct (calculate_il_percentage_ok initial_price_val current_price price_lower
              price_upper Hi Hc Hl Hu) as [il_c ->].
  rewrite !ddiv_ok by (apply pow10_nonzero; assumption).
  cbn [mbind res_bind].
  match goal with
  | |- context [breakeven_days ?a ?b ?c ?d] =>
      destruct (breakeven_days_ok a b c d) as (daily & lower & upper & ->)
  end.
  cbn [mbind res_bind].
  match goal with
  | |- context [time_remaining_perc lower ?t] =>
      destruct (time_remaining_perc_ok lower t) as (pl & ->)
  end.
  match goal with
  | |- context [time_remaining_perc upper ?t] =>
      destruct (time_remaining_perc_ok upper t) as (pu & ->)
  end.
  cbn [mbind res_bind]. eauto.
Qed.

(** X11. Whenever the guard of the impermanent-loss block holds for a position
    whose prices come from ticks and whose tokens have non-negative decimals,
    nothing in the block raises: the data is filled in, with the position age,
    and both distances to the bounds are assigned. *)
Theorem il_block_populated (initial_info : initial_position)
    (initial_price_val position_usd_value days_active annualized_apr
       total_rewards_usd : Decimal)
    (tickLower tickUpper current_tick decimals0 decimals1 : Z)
    (perc_to_lower perc_to_upper : option Decimal) :
  dgt initial_price_val (Dec 0) = true ->
  dgt position_usd_value (Dec 0) = true ->
  dgt days_active (Dec 0) = true ->
  0 <= decimals0 -> 0 <= decimals1 ->
  let price_lower := tick_to_price tickLower decimals0 decimals1 in
  let price_upper := tick_to_price tickUpper decimals0 decimals1 in
  let current_price := tick_to_price current_tick decimals0 decimals1 in
  exists data to_lower to_upper,
    il_block (Some initial_info) initial_price_val position_usd_value days_active
      annualized_apr total_rewards_usd price_lower price_upper current_price
      decimals0 decimals1 perc_to_lower perc_to_upper
    = mk_il_vars (Some data) (Some to_lower) (Some to_upper)
    /\ il_position_age data = format_timedelta (DaysDec days_active)
    /\ perc_to_bound current_price (dsub current_price price_lower) = Ok to_lower
    /\ perc_to_bound current_price (dsub price_upper current_price) = Ok to_upper.
Proof.
  intros Hi Hv Hd Hd0 Hd1 price_lower price_upper current_price.
  unfold il_block. rewrite Hi, Hv, Hd. cbn [andb].
  apply dgt_zero_iff in Hi.
  pose proof (tick_to_price_pos tickLower decimals0 decimals1) as Hl.
  pose proof (tick_to_price_pos tickUpper decimals0 decimals1) as Hu.
  pose proof (tick_to_price_pos current_tick decimals0 decimals1) as Hc.
  fold price_lower in Hl. fold price_upper in Hu. fold current_price in Hc.
  destruct (il_figures_ok initial_info initial_price_val position_usd_value days_active
              annualized_apr total_rewards_usd price_lower price_upper current_price
              decimals0 decimals1 Hi Hl Hu Hc Hd0 Hd1) as ([[lower upper] current] & ->).
  assert (forall numerator, exists r, perc_to_bound current_price numerator = Ok r) as Hperc.
  { intros numerator. unfold perc_to_bound.
    destruct (dgt current_price (Dec 0)); [| eauto].
    rewrite ddiv_ok by lia. cbn. eauto. }
  destruct (Hperc (dsub current_price price_lower)) as [to_lower ->].
  destruct (Hperc (dsub price_upper current_price)) as [to_upper ->].
  eexists. exists to_lower, to_upper. repeat split; reflexivity.
Qed.

Lemma il_block_populated_witness :
  exists data to_lower to_upper,
    il_block (Some known_baseline) (Dec 100) (Dec 1000) (Dec 10) (Dec 5) (Dec 1)
      (tick_to_price (-2) 8 6) (tick_to_price 2 8 6) (tick_to_price 0 8 6)
      8 6 None None
    = mk_il_vars (Some data) (Some to_lower) (Some to_upper).
Proof.
  destruct (il_block_populated known_baseline (Dec 100) (Dec 1000) (Dec 10) (Dec 5)
              (Dec 1) (-2) 2 0 8 6 None None
              eq_refl eq_refl eq_refl ltac:(lia) ltac:(lia))
    as (data & to_lower & to_upper & H & _).
  exists data, to_lower, to_upper. exact H.
Defined.

(** *** The price of a square-root price *)

Lemma ilog10_unique (q : Q) (L : Z) :
  (0 < q)%Q -> (ten ^ L <= q)%Q -> (q < ten ^ (L + 1))%Q -> ilog10 q = L.
Proof.
  intros Hq Hlo Hhi. destruct (ilog10_spec q Hq) as [Hlo' Hhi'].
  destruct (Z_lt_le_dec (ilog10 q) L) as [H1 | H1].
  - pose proof (ten_pow_le (ilog10 q + 1) L ltac:(lia)). lra.
  - destruct (Z_lt_le_dec L (ilog10 q)) as [H2 | H2]; [| lia].
    pose proof (ten_pow_le (L + 1) (ilog10 q) ltac:(lia)). lra.
Qed.

Lemma round_half_even_ext (q1 q2 : Q) :
  (q1 == q2)%Q -> round_half_even q1 = round_half_even q2.
Proof.
  intros H. unfold round_half_even. rewrite (Qfloor_comp _ _ H).
  assert ((q1 - inject_Z (Qfloor q2) ?= 1 # 2) = (q2 - inject_Z (Qfloor q2) ?= 1 # 2))%Q
    as -> by (apply Qcompare_comp; [rewrite H |]; reflexivity).
  reflexivity.
Qed.

Lemma round_half_even_Z (z : Z) : round_half_even (inject_Z z) = z.
Proof.
  unfold round_half_even. rewrite Qfloor_Z.
  assert ((inject_Z z - inject_Z z ?= 1 # 2) = Lt)%Q as ->; [| reflexivity].
  apply Qlt_alt. generalize (inject_Z z). intros x.
  assert (x - x == 0)%Q as -> by ring. reflexivity.
Qed.

(** A power of ten is not touched by the rounding. *)
Lemma round_ctx_pow10 (q : Q) (d : Z) :
  (q == ten ^ d)%Q -> (dval (round_ctx q) == ten ^ d)%Q.
Proof.
  intros Hq. pose proof (ten_pow_pos d) as Hp.
  assert (0 < q)%Q as Hq0 by lra.
  rewrite round_ctx_val_pos by exact Hq0.
  assert (ilog10 q = d) as ->.
  { apply ilog10_unique; [exact Hq0 | lra |].
    pose proof (ten_pow_lt d (d + 1) ltac:(lia)). lra. }
  rewrite (round_half_even_ext _ (inject_Z (10 ^ (prec - 1)))).
  - rewrite round_half_even_Z, ten_pow_Z by (unfold prec; lia).
    rewrite <- ten_pow_add. replace (prec - 1 + (d - (prec - 1))) with d by lia.
    reflexivity.
  - rewrite Hq, <- ten_pow_add, ten_pow_Z by (unfold prec; lia).
    replace (d + - (d - (prec - 1))) with (prec - 1) by lia. reflexivity.
Qed.

Lemma dval_Dec_10 : (dval (Dec 10) == ten)%Q.
Proof. reflexivity. Qed.

Lemma dpow_10 (d : Z) : (dval (dpow (Dec 10) d) == ten ^ d)%Q.
Proof.
  unfold dpow. apply round_ctx_pow10. rewrite dval_Dec_10. reflexivity.
Qed.

Lemma decimal_adjustment_exact (d0 d1 : Z) :
  exists adj, ddiv (dpow (Dec 10) d0) (dpow (Dec 10) d1) = Ok adj
              /\ (dval adj == ten ^ (d0 - d1))%Q.
Proof.
  rewrite ddiv_ok by (pose proof (dpow_pos (Dec 10) d1 eq_refl); lia).
  eexists. split; [reflexivity |].
  apply round_ctx_pow10. rewrite !dpow_10.
  replace (d0 - d1) with (d0 + - d1) by lia.
  rewrite ten_pow_add, Qpower_opp. reflexivity.
Qed.

Lemma Q96_nonzero : coef (Dec (2 ^ 96)) <> 0.
Proof. cbn. lia. Qed.

Lemma dpow_2 (r : Decimal) : dpow r 2 = round_ctx (dval r * dval r).
Proof. reflexivity. Qed.

Lemma calculate_price_total
    (sqrt_price_x96 token0_decimals token1_decimals : Z) :
  exists price,
    calculate_price_from_sqrt_price_x96 sqrt_price_x96 token0_decimals token1_decimals
    = Ok price
    /\ (sqrt_price_x96 = 0 -> coef price = 0)
    /\ (sqrt_price_x96 <> 0 -> 0 < coef price).
Proof.
  unfold calculate_price_from_sqrt_price_x96.
  rewrite (ddiv_ok _ _ Q96_nonzero). cbn [mbind res_bind].
  destruct (decimal_adjustment_exact token0_decimals token1_decimals) as (adj & -> & Hadj).
  cbn [mbind res_bind]. eexists. split; [reflexivity |].
  pose proof (ten_pow_pos (token0_decimals - token1_decimals)) as Hten.
  assert (0 < coef adj) as Hadjpos by (apply dval_pos; lra).
  set (q := (dval (Dec sqrt_price_x96) / dval (Dec (2 ^ 96)))%Q).
  split.
  - intros ->. rewrite dpow_2.
    assert (round_ctx q = mkDec 0 0) as -> by (apply round_ctx_zero; reflexivity).
    rewrite dmul_zero_l; [reflexivity |]. apply round_ctx_coef_zero. reflexivity.
  - intros Hne. apply dmul_pos; [| exact Hadjpos].
    rewrite dpow_2. apply round_ctx_pos.
    assert (~ (q == 0)%Q) as Hq.
    { intros H0.
      assert (inject_Z sqrt_price_x96 == q * inject_Z (2 ^ 96))%Q as Hs.
      { subst q. rewrite !dval_Dec. field. discriminate. }
      rewrite H0 in Hs. assert (0 * inject_Z (2 ^ 96) == inject_Z 0)%Q as Hz by ring.
      rewrite Hz in Hs. apply Hne.
      unfold Qeq in Hs. cbn [Qnum Qden inject_Z] in Hs. clear -Hs. lia. }
    assert (coef (round_ctx q) <> 0) as Hr by (rewrite round_ctx_coef_zero; exact Hq).
    assert (~ (dval (round_ctx q) == 0)%Q) as Hv by (rewrite <- dval_zero; exact Hr).
    nra.
Qed.

(** X12. [calculate_price_from_sqrt_price_x96] never raises; the price is zero for
    a zero square-root price and positive for every other. *)
Theorem calculate_price_from_sqrt_price_x96_sign
    (sqrt_price_x96 token0_decimals token1_decimals : Z) :
  exists price,
    calculate_price_from_sqrt_price_x96 sqrt_price_x96 token0_decimals token1_decimals
    = Ok price
    /\ (sqrt_price_x96 = 0 -> coef price = 0)
    /\ (sqrt_price_x96 <> 0 -> 0 < coef price).
Proof. apply calculate_price_total. Qed.

Lemma four_roundings :
  ((1 + half_ulp) * (1 + half_ulp) * ((1 + half_ulp) * (1 + half_ulp))
     <= 1 + (3 # 1) * ten ^ (- (prec - 1)))%Q
  /\ (1 - (3 # 1) * ten ^ (- (prec - 1))
        <= (1 - half_ulp) * (1 - half_ulp) * ((1 - half_ulp) * (1 - half_ulp)))%Q.
Proof. split; vm_compute; discriminate. Qed.

Lemma Qsquare_le (a b : Q) : (0 <= a)%Q -> (a <= b)%Q -> (a * a <= b * b)%Q.
Proof. intros. nra. Qed.

(** X13. The price computed from a positive square-root price lies within three
    units of the 50th significant digit of
    [(sqrtPriceX96 / 2^96)^2 * 10^(decimals0 - decimals1)]. *)
Theorem calculate_price_from_sqrt_price_x96_accuracy
    (sqrt_price_x96 token0_decimals token1_decimals : Z) :
  0 < sqrt_price_x96 ->
  let exact :=
    ((inject_Z sqrt_price_x96 / inject_Z (2 ^ 96)) ^ 2
     * ten ^ (token0_decimals - token1_decimals))%Q in
  exists price,
    calculate_price_from_sqrt_price_x96 sqrt_price_x96 token0_decimals token1_decimals
    = Ok price
    /\ (exact * (1 - (3 # 1) * ten ^ (- (prec - 1))) <= dval price)%Q
    /\ (dval price <= exact * (1 + (3 # 1) * ten ^ (- (prec - 1))))%Q.
Proof.
  intros Hs exact. unfold calculate_price_from_sqrt_price_x96.
  rewrite (ddiv_ok _ _ Q96_nonzero). cbn [mbind res_bind].
  destruct (decimal_adjustment_exact token0_decimals token1_decimals) as (adj & -> & Hadj).
  cbn [mbind res_bind]. eexists. split; [reflexivity |].
  rewrite dpow_2. unfold dmul.
  pose proof (ten_pow_pos (token0_decimals - token1_decimals)) as HA.
  assert (dval (Dec sqrt_price_x96) / dval (Dec (2 ^ 96))
          == inject_Z sqrt_price_x96 / inject_Z (2 ^ 96))%Q as Hq0
    by (rewrite !dval_Dec; reflexivity).
  assert (exact == (dval (Dec sqrt_price_x96) / dval (Dec (2 ^ 96)))
                   * (dval (Dec sqrt_price_x96) / dval (Dec (2 ^ 96)))
                   * ten ^ (token0_decimals - token1_decimals))%Q as Hexact
    by (subst exact; rewrite Hq0; reflexivity).
  assert (0 < dval (Dec sqrt_price_x96) / dval (Dec (2 ^ 96)))%Q as Hq.
  { rewrite Hq0. apply Qdiv_pos; [| reflexivity].
    change 0%Q with (inject_Z 0). rewrite <- Zlt_Qlt. exact Hs. }
  clear Hq0.
  set (q := (dval (Dec sqrt_price_x96) / dval (Dec (2 ^ 96)))%Q) in *. clearbody q.
  pose proof (round_ctx_near _ Hq) as [HR1 HR2]. fold half_ulp in HR1, HR2.
  pose proof (proj1 (dval_pos _) (round_ctx_pos _ Hq)) as HRp.
  set (R := dval (round_ctx q)) in *. clearbody R.
  assert (0 < R * R)%Q as HRR by nra.
  pose proof (round_ctx_near _ HRR) as [HP1 HP2]. fold half_ulp in HP1, HP2.
  pose proof (proj1 (dval_pos _) (round_ctx_pos _ HRR)) as HPp.
  set (P := dval (round_ctx (R * R))) in *. clearbody P.
  assert (0 < P * dval adj)%Q as HPA by (rewrite Hadj; nra).
  pose proof (round_ctx_near _ HPA) as [HV1 HV2]. fold half_ulp in HV1, HV2.
  set (V := dval (round_ctx (P * dval adj))) in *. clearbody V.
  rewrite Hadj in HV1, HV2. rewrite Hexact. clear Hexact exact Hadj adj HPA.
  set (A := (ten ^ (token0_decimals - token1_decimals))%Q) in *. clearbody A.
  pose proof four_roundings as [Hup Hlo].
  pose proof half_ulp_bounds as [Hh0 Hh1].
  set (u3 := ((3 # 1) * ten ^ (- (prec - 1)))%Q) in *. clearbody u3.
  set (h := half_ulp) in *. clearbody h.
  assert (0 < q * q)%Q as Hqq by nra.
  assert (R * R <= q * q * ((1 + h) * (1 + h)))%Q as HRRup.
  { assert (q * q * ((1 + h) * (1 + h)) == (q * (1 + h)) * (q * (1 + h)))%Q as -> by ring.
    apply Qsquare_le; lra. }
  assert (q * q * ((1 - h) * (1 - h)) <= R * R)%Q as HRRlo.
  { assert (q * q * ((1 - h) * (1 - h)) == (q * (1 - h)) * (q * (1 - h)))%Q as -> by ring.
    apply Qsquare_le; [nra | lra]. }
  assert (0 < (1 + h))%Q as H1h by lra. assert (0 < (1 - h))%Q as H1mh by lra.
  assert (P <= q * q * ((1 + h) * (1 + h)) * (1 + h))%Q as HPup.
  { apply Qle_trans with (R * R * (1 + h))%Q; [exact HP2 |].
    apply Qmult_le_compat_r; lra. }
  assert (q * q * ((1 - h) * (1 - h)) * (1 - h) <= P)%Q as HPlo.
  { apply Qle_trans with (R * R * (1 - h))%Q; [| exact HP1].
    apply Qmult_le_compat_r; lra. }
  assert (0 < A * (1 + h))%Q as HAh by nra.
  assert (0 < A * (1 - h))%Q as HAmh by nra.
  split.
  - apply Qle_trans with (P * A * (1 - h))%Q; [| exact HV1].
    apply Qle_trans with
      (q * q * A * ((1 - h) * (1 - h) * ((1 - h) * (1 - h))))%Q.
    + assert (0 < q * q * A)%Q by nra.
      apply Qmult_le_l; [assumption | exact Hlo].
    + assert (q * q * A * ((1 - h) * (1 - h) * ((1 - h) * (1 - h)))
              == (q * q * ((1 - h) * (1 - h)) * (1 - h)) * (A * (1 - h)))%Q as -> by ring.
      assert (P * A * (1 - h) == P * (A * (1 - h)))%Q as -> by ring.
      apply Qmult_le_compat_r; lra.
  - apply Qle_trans with (P * A * (1 + h))%Q; [exact HV2 |].
    apply Qle_trans with
      (q * q * A * ((1 + h) * (1 + h) * ((1 + h) * (1 + h))))%Q.
    + assert (q * q * A * ((1 + h) * (1 + h) * ((1 + h) * (1 + h)))
              == (q * q * ((1 + h) * (1 + h)) * (1 + h)) * (A * (1 + h)))%Q as -> by ring.
      assert (P * A * (1 + h) == P * (A * (1 + h)))%Q as -> by ring.
      apply Qmult_le_compat_r; lra.
    + assert (0 < q * q * A)%Q by nra.
      apply Qmult_le_l; [assumption | exact Hup].
Qed.

Lemma calculate_price_from_sqrt_price_x96_accuracy_witness :
  let exact := ((inject_Z (2 ^ 96) / inject_Z (2 ^ 96)) ^ 2 * ten ^ (8 - 6))%Q in
  exists price,
    calculate_price_from_sqrt_price_x96 (2 ^ 96) 8 6 = Ok price
    /\ (exact * (1 - (3 # 1) * ten ^ (- (prec - 1))) <= dval price)%Q
    /\ (dval price <= exact * (1 + (3 # 1) * ten ^ (- (prec - 1))))%Q.
Proof.
  apply (calculate_price_from_sqrt_price_x96_accuracy (2 ^ 96) 8 6). reflexivity.
Defined.

(** *** The token-info cache *)

(** X14. For a well-formed address [get_token_info] never raises; it leaves its
    answer in the cache under the checksum address, and from then on every
    call for that address is answered from the cache, whatever the node says. *)
Theorem get_token_info_cached (n : node) (token_address checksum_address : address)
    (cache : gmap address token_info) :
  to_checksum_address n token_address = Ok checksum_address ->
  exists info,
    Node.get_token_info n token_address cache
    = Ok (info, <[checksum_address := info]> cache)
    /\ forall (n' : node) (token_address' : address),
         to_checksum_address n' token_address' = Ok checksum_address ->
         Node.get_token_info n' token_address' (<[checksum_address := info]> cache)
         = Ok (info, <[checksum_address := info]> cache).
Proof.
  intros Hcs.
  assert (forall info (n' : node) (token_address' : address),
            to_checksum_address n' token_address' = Ok checksum_address ->
            Node.get_token_info n' token_address' (<[checksum_address := info]> cache)
            = Ok (info, <[checksum_address := info]> cache)) as Hagain.
  { intros info n' a' Hcs'. unfold Node.get_token_info. rewrite Hcs'.
    cbn [mbind res_bind]. rewrite lookup_insert_eq. reflexivity. }
  unfold Node.get_token_info. rewrite Hcs. cbn [mbind res_bind].
  destruct (cache !! checksum_address) as [info |] eqn:Hhit.
  - exists info. rewrite (insert_id _ _ _ Hhit) at 1. split; [reflexivity |].
    apply Hagain.
  - destruct (known_token checksum_address) as [info |].
    + exists info. split; [reflexivity | apply Hagain].
    + eexists. split; [reflexivity | apply Hagain].
Qed.

Lemma get_token_info_cached_witness :
  exists info,
    Node.get_token_info example_node "0x00000000000000000000000000000000000000D4" ∅
    = Ok (info, <["0x00000000000000000000000000000000000000D4"%string := info]> ∅).
Proof.
  destruct (get_token_info_cached example_node
              "0x00000000000000000000000000000000000000D4"
              "0x00000000000000000000000000000000000000D4" ∅ eq_refl)
    as (info & Hinfo & _).
  exists info. exact Hinfo.
Defined.

(** *** Pool prices and their cache *)

Lemma inverse_pos (price inverse : Decimal) :
  0 <= coef price -> ddiv (Dec 1) price = Ok inverse -> 0 < coef inverse.
Proof.
  intros Hp H. unfold ddiv in H.
  destruct (Z.eqb_spec (coef price) 0) as [Hz | Hnz]; [destruct (coef (Dec 1) =? 0); discriminate |].
  injection H as <-. apply round_ctx_pos, Qdiv_pos; [reflexivity |].
  apply dval_pos. lia.
Qed.

Ltac bind_as H x Hx :=
  apply bind_ok_inv in H; destruct H as (x & Hx & H).

Lemma get_v3_pool_price_nonneg (n : node) (pool_address : address) (price : Decimal) :
  Node.get_v3_pool_price n pool_address = Some price -> 0 <= coef price.
Proof.
  unfold Node.get_v3_pool_price. intros H.
  match type of H with
  | match ?m with _ => _ end = _ => destruct m as [r | e] eqn:Hm; [| discriminate]
  end.
  subst r.
  bind_as Hm pool Hpool. bind_as Hm slot0 Hslot0.
  bind_as Hm token0 Htoken0. bind_as Hm token1 Htoken1.
  bind_as Hm info0 Hinfo0. destruct info0 as [token0_info cache0].
  bind_as Hm info1 Hinfo1. destruct info1 as [token1_info cache1].
  bind_as Hm p Hp.
  assert (0 <= coef p) as Hprice.
  { destruct (calculate_price_total (Z.of_N slot0.1) (ti_decimals token0_info)
                (ti_decimals token1_info)) as (p' & Hp' & Hzero & Hpos).
    rewrite Hp' in Hp. injection Hp as <-.
    destruct (Z.eq_dec (Z.of_N slot0.1) 0) as [Hz | Hnz];
      [rewrite (Hzero Hz) | pose proof (Hpos Hnz)]; lia. }
  destruct (Node.is_usdc (ti_symbol token1_info)); [injection Hm as <-; exact Hprice |].
  destruct (Node.is_usdc (ti_symbol token0_info)); [| discriminate].
  bind_as Hm inverse Hinverse. injection Hm as <-.
  pose proof (inverse_pos _ _ Hprice Hinverse). lia.
Qed.

Lemma get_v2_pool_price_nonneg (n : node) (pool_address : address) (price : Decimal) :
  Node.get_v2_pool_price n pool_address = Some price -> 0 <= coef price.
Proof.
  unfold Node.get_v2_pool_price. intros H.
  match type of H with
  | match ?m with _ => _ end = _ => destruct m as [r | e] eqn:Hm; [| discriminate]
  end.
  subst r.
  bind_as Hm pool Hpool. bind_as Hm reserves Hreserves.
  bind_as Hm token0 Htoken0. bind_as Hm token1 Htoken1.
  bind_as Hm info0 Hinfo0. destruct info0 as [token0_info cache0].
  bind_as Hm info1 Hinfo1. destruct info1 as [token1_info cache1].
  bind_as Hm reserve0_adjusted Hr0a. bind_as Hm reserve1_adjusted Hr1a.
  destruct (dgt reserve0_adjusted (Dec 0)) eqn:Hr0; [| discriminate].
  apply dgt_zero_iff in Hr0. bind_as Hm p Hp.
  assert (0 <= coef reserve1_adjusted) as Hr1.
  { unfold ddiv in Hr1a.
    destruct (coef (Dec (10 ^ ti_decimals token1_info)) =? 0) eqn:Hz;
      [destruct (coef (Dec (Z.of_N reserves.2)) =? 0); discriminate |].
    injection Hr1a as <-. apply round_ctx_nonneg.
    apply Z.eqb_neq in Hz.
    assert (0 <= dval (Dec (Z.of_N reserves.2)))%Q
      by (apply coef_nonneg_val; cbn; lia).
    assert (0 < dval (Dec (10 ^ ti_decimals token1_info)))%Q.
    { apply dval_pos. cbn in Hz |- *.
      pose proof (Z.pow_nonneg 10 (ti_decimals token1_info)). lia. }
    apply Qdiv_nonneg; assumption. }
  assert (0 <= coef p) as Hprice.
  { rewrite ddiv_ok in Hp by lia. injection Hp as <-.
    apply round_ctx_nonneg, Qdiv_nonneg; [apply coef_nonneg_val; exact Hr1 |].
    apply dval_pos. exact Hr0. }
  destruct (Node.is_usdc (ti_symbol token1_info)); [injection Hm as <-; exact Hprice |].
  destruct (Node.is_usdc (ti_symbol token0_info)); [| discriminate].
  bind_as Hm inverse Hinverse. injection Hm as <-.
  pose proof (inverse_pos _ _ Hprice Hinverse). lia.
Qed.

Lemma prices_nonneg_insert (m : gmap address Decimal) (t : Z)
    (pool_address : address) (price : Decimal) :
  (forall k p, m !! k = Some p -> 0 <= coef p) -> 0 <= coef price ->
  Node.prices_nonneg (Node.mk_price_cache_state (<[pool_address := price]> m) t).
Proof.
  intros Hm Hp k p Hl. cbn in Hl.
  apply lookup_insert_Some in Hl. destruct Hl as [[_ <-] | [_ Hl]]; eauto.
Qed.

(** X15. The price cache never holds a negative price, and [get_pool_price] never
    returns one. *)
Theorem get_pool_price_nonneg (n : node) (current_time : Z) (pool_address : address)
    (st : Node.price_cache_state) :
  Node.prices_nonneg st ->
  Node.prices_nonneg (Node.get_pool_price n current_time pool_address st).2
  /\ forall price,
       (Node.get_pool_price n current_time pool_address st).1 = Some price ->
       0 <= coef price.
Proof.
  intros Hst. unfold Node.get_pool_price.
  assert (forall m ts,
            (forall k p, m !! k = Some p -> 0 <= coef p) ->
            let r :=
              match Node.get_v3_pool_price n pool_address with
              | Some v3_price =>
                  (Some v3_price,
                   Node.mk_price_cache_state (<[pool_address := v3_price]> m) current_time)
              | None =>
                  match Node.get_v2_pool_price n pool_address with
                  | Some v2_price =>
                      (Some v2_price,
                       Node.mk_price_cache_state (<[pool_address := v2_price]> m)
                         current_time)
                  | None => (None, Node.mk_price_cache_state m ts)
                  end
              end in
            Node.prices_nonneg r.2 /\ forall price, r.1 = Some price -> 0 <= coef price)
    as Hfetch.
  { intros m ts Hm.
    destruct (Node.get_v3_pool_price n pool_address) as [p3 |] eqn:H3.
    - pose proof (get_v3_pool_price_nonneg _ _ _ H3) as Hp. cbn. split.
      + apply prices_nonneg_insert; assumption.
      + intros price [= <-]. exact Hp.
    - destruct (Node.get_v2_pool_price n pool_address) as [p2 |] eqn:H2.
      + pose proof (get_v2_pool_price_nonneg _ _ _ H2) as Hp. cbn. split.
        * apply prices_nonneg_insert; assumption.
        * intros price [= <-]. exact Hp.
      + cbn. split; [exact Hm | discriminate]. }
  destruct st as [m ts]. cbn [Node._price_cache Node._price_cache_timestamp] in *.
  destruct (current_time - ts <? Node.cache_duration).
  - destruct (m !! pool_address) as [p |] eqn:Hhit.
    + cbn. split; [exact Hst | intros price [= <-]; exact (Hst _ _ Hhit)].
    + apply (Hfetch m ts). exact Hst.
  - apply (Hfetch ∅ ts). intros k p Hl. rewrite lookup_empty in Hl. discriminate.
Qed.

Lemma get_pool_price_nonneg_witness :
  Node.prices_nonneg
    (Node.get_pool_price example_node 1000000000 WBTC_USDC_POOL
       Node.initial_price_cache_state).2.
Proof.
  apply (get_pool_price_nonneg example_node 1000000000 WBTC_USDC_POOL
           Node.initial_price_cache_state).
  intros k p Hl. cbn in Hl. rewrite lookup_empty in Hl. discriminate Hl.
Defined.

Lemma get_pool_price_miss (n : node) (current_time : Z) (pool_address : address)
    (st : Node.price_cache_state) :
  ((current_time - Node._price_cache_timestamp st <? Node.cache_duration) = false
   \/ Node._price_cache st !! pool_address = None) ->
  (Node.get_pool_price n current_time pool_address st).1
  = Node.fresh_price n pool_address.
Proof.
  intros Hmiss. unfold Node.get_pool_price, Node.fresh_price.
  destruct (current_time - Node._price_cache_timestamp st <? Node.cache_duration).
  - destruct Hmiss as [Hmiss | ->]; [discriminate |].
    destruct (Node.get_v3_pool_price n pool_address); [reflexivity |].
    destruct (Node.get_v2_pool_price n pool_address); reflexivity.
  - destruct (Node.get_v3_pool_price n pool_address); [reflexivity |].
    destruct (Node.get_v2_pool_price n pool_address); reflexivity.
Qed.

(** X16. A failure is never cached: after a call that returned no price, the next
    call for the same pool reads the node again, at whatever time it comes. *)
Theorem failed_price_is_not_cached (n n' : node) (current_time current_time' : Z)
    (pool_address : address) (st : Node.price_cache_state) :
  (Node.get_pool_price n current_time pool_address st).1 = None ->
  (Node.get_pool_price n' current_time' pool_address
     (Node.get_pool_price n current_time pool_address st).2).1
  = Node.fresh_price n' pool_address.
Proof.
  intros Hnone. apply get_pool_price_miss. right.
  unfold Node.get_pool_price in *.
  destruct (current_time - Node._price_cache_timestamp st <? Node.cache_duration).
  - destruct (Node._price_cache st !! pool_address) eqn:Hhit; [discriminate |].
    destruct (Node.get_v3_pool_price n pool_address); [discriminate |].
    destruct (Node.get_v2_pool_price n pool_address); [discriminate |].
    exact Hhit.
  - destruct (Node.get_v3_pool_price n pool_address); [discriminate |].
    destruct (Node.get_v2_pool_price n pool_address); [discriminate |].
    apply lookup_empty.
Qed.

Lemma failed_price_is_not_cached_witness :
  (Node.get_pool_price example_node 1000000001 WBTC_USDC_POOL
     (Node.get_pool_price unreachable_node 1000000000 WBTC_USDC_POOL
        Node.initial_price_cache_state).2).1
  = Node.fresh_price example_node WBTC_USDC_POOL.
Proof.
  apply (failed_price_is_not_cached unreachable_node example_node).
  vm_compute. reflexivity.
Defined.

(** X17. A price may be served well after [PRICE_CACHE_DURATION]: the price of
    pool [A] read at [t0] is still returned at [t2], without a read of the
    node, whenever a price of another pool was read at some [t1] less than the
    duration after [t0] and less than the duration before [t2]. *)
Theorem cached_price_outlives_duration (n0 n1 n2 : node) (t0 t1 t2 : Z)
    (A B : address) (pA pB : Decimal) (st : Node.price_cache_state) :
  A <> B ->
  Node.cache_duration <= t0 - Node._price_cache_timestamp st ->
  Node.get_v3_pool_price n0 A = Some pA ->
  Node.get_v3_pool_price n1 B = Some pB ->
  t1 - t0 < Node.cache_duration ->
  t2 - t1 < Node.cache_duration ->
  let call0 := Node.get_pool_price n0 t0 A st in
  let call1 := Node.get_pool_price n1 t1 B call0.2 in
  let call2 := Node.get_pool_price n2 t2 A call1.2 in
  call0.1 = Some pA /\ call1.1 = Some pB
  /\ call2 = (Some pA, call1.2)
  /\ Node._price_cache_timestamp call1.2 = t1.
Proof.
  intros Hne Hexp HA HB H01 H12 call0 call1 call2.
  assert (call0 = (Some pA, Node.mk_price_cache_state {[A := pA]} t0)) as H0.
  { subst call0. unfold Node.get_pool_price.
    destruct (Z.ltb_spec (t0 - Node._price_cache_timestamp st) Node.cache_duration);
      [lia |].
    rewrite HA. cbn. rewrite insert_empty. reflexivity. }
  assert (call1 = (Some pB, Node.mk_price_cache_state (<[B := pB]> {[A := pA]}) t1))
    as H1.
  { subst call1. rewrite H0. unfold Node.get_pool_price. cbn [snd Node._price_cache
      Node._price_cache_timestamp].
    destruct (Z.ltb_spec (t1 - t0) Node.cache_duration); [| lia].
    rewrite lookup_singleton_ne by exact Hne. rewrite HB. reflexivity. }
  assert (call2 = (Some pA, call1.2)) as H2.
  { subst call2. rewrite H1. unfold Node.get_pool_price. cbn [snd Node._price_cache
      Node._price_cache_timestamp].
    destruct (Z.ltb_spec (t2 - t1) Node.cache_duration); [| lia].
    rewrite lookup_insert_ne by congruence. rewrite lookup_singleton_eq. reflexivity. }
  rewrite H0 at 1. rewrite H1 at 1 3. auto.
Qed.

Lemma cached_price_outlives_duration_witness :
  let t0 := 1000000000 in
  let t1 := t0 + 59000000 in
  let t2 := t0 + 118000000 in
  Node.cache_duration <= t2 - t0
  /\ (Node.get_pool_price example_node t2 WBTC_USDC_POOL
        (Node.get_pool_price example_node t1 SHADOW_USDC_POOL
           (Node.get_pool_price example_node t0 WBTC_USDC_POOL
              Node.initial_price_cache_state).2).2).1
     = Node.get_v3_pool_price example_node WBTC_USDC_POOL.
Proof.
  intros t0 t1 t2. split; [vm_compute; discriminate |].
  assert (exists p, Node.get_v3_pool_price example_node WBTC_USDC_POOL = Some p) as [pA HA]
    by (vm_compute; eexists; reflexivity).
  assert (exists p, Node.get_v3_pool_price example_node SHADOW_USDC_POOL = Some p) as [pB HB]
    by (vm_compute; eexists; reflexivity).
  destruct (cached_price_outlives_duration example_node example_node example_node
              t0 t1 t2 WBTC_USDC_POOL SHADOW_USDC_POOL pA pB
              Node.initial_price_cache_state
              ltac:(discriminate) ltac:(vm_compute; discriminate) HA HB
              ltac:(vm_compute; reflexivity) ltac:(vm_compute; reflexivity))
    as (_ & _ & H2 & _).
  rewrite H2, HA. reflexivity.
Defined.

(** *** The pool of a pair *)

Lemma known_pool_either_order (a b : address) :
  match known_pool a b with
  | Some pool_address => Some pool_address
  | None => known_pool b a
  end
  = match known_pool b a with
    | Some pool_address => Some pool_address
    | None => known_pool a b
    end.
Proof.
  unfold known_pool, KNOWN_POOLS. cbn [List.find fst snd].
  repeat match goal with
         | |- context [String.eqb ?x ?y] =>
             destruct (String.eqb_spec x y); subst; cbn [andb fmap option_fmap option_map]
         end;
    first [reflexivity | congruence].
Qed.

(** X18. The pool of a pair of tokens does not depend on the order in which the
    two tokens are given. *)
Theorem get_pool_info_either_order (n : node) (token0 token1 : address)
    (block : block_identifier) (token0_cs token1_cs : address) :
  to_checksum_address n token0 = Ok token0_cs ->
  to_checksum_address n token1 = Ok token1_cs ->
  Node.get_pool_info n token0 token1 block = Node.get_pool_info n token1 token0 block.
Proof.
  intros H0 H1. unfold Node.get_pool_info. rewrite H0, H1. cbn [mbind res_bind].
  rewrite (known_pool_either_order token0_cs token1_cs). reflexivity.
Qed.

Lemma get_pool_info_either_order_witness :
  Node.get_pool_info example_node "0x0555E30da8f98308EdB960aa94C0Db47230d2B9c"
    "0x29219dd400f2Bf60E5a23d13Be72B486D4038894" Latest
  = Node.get_pool_info example_node "0x29219dd400f2Bf60E5a23d13Be72B486D4038894"
      "0x0555E30da8f98308EdB960aa94C0Db47230d2B9c" Latest.
Proof.
  apply (get_pool_info_either_order example_node _ _ Latest
           "0x0555E30da8f98308EdB960aa94C0Db47230d2B9c"
           "0x29219dd400f2Bf60E5a23d13Be72B486D4038894"); reflexivity.
Defined.

(** *** Emission rewards *)

Lemma dict_set_keys (key : address) (value : Z) (d : list (address * Z)) :
  (In key (map fst d) -> map fst (Node.dict_set key value d) = map fst d)
  /\ (~ In key (map fst d) -> map fst (Node.dict_set key value d) = map fst d ++ [key]).
Proof.
  induction d as [| [k v] d [IH1 IH2]]; cbn [Node.dict_set map fst In].
  - split; [intros [] | reflexivity].
  - destruct (String.eqb_spec k key) as [-> | Hne]; cbn [map fst].
    + split; [reflexivity | intros H; exfalso; apply H; left; reflexivity].
    + split.
      * intros [Hk | Hin]; [congruence |]. rewrite (IH1 Hin). reflexivity.
      * intros Hnot. rewrite IH2 by tauto. reflexivity.
Qed.

Lemma dict_set_NoDup (key : address) (value : Z) (d : list (address * Z)) :
  NoDup (map fst d) -> NoDup (map fst (Node.dict_set key value d)).
Proof.
  intros Hd. destruct (dict_set_keys key value d) as [H1 H2].
  destruct (in_dec string_dec key (map fst d)) as [Hin | Hnot].
  - rewrite (H1 Hin). exact Hd.
  - rewrite (H2 Hnot). apply NoDup_app. split; [exact Hd |].
    split; [| apply NoDup_singleton].
    intros x Hx Hx'. apply list_elem_of_singleton in Hx'. subst x.
    apply Hnot. apply list_elem_of_In. exact Hx.
Qed.

Lemma dict_set_positive (key : address) (value : Z) (d : list (address * Z)) :
  0 < value -> Forall (fun kv => 0 < kv.2) d ->
  Forall (fun kv => 0 < kv.2) (Node.dict_set key value d).
Proof.
  intros Hv Hd. induction Hd as [| [k v] d Hkv Hd IH]; cbn [Node.dict_set].
  - constructor; [exact Hv | constructor].
  - destruct (String.eqb k key); constructor; auto.
Qed.

Lemma earned_loop_invariant (n : node) (gauge : address) (token_id : Z)
    (reward_tokens : list address) :
  forall rewards,
  NoDup (map fst rewards) -> Forall (fun kv => 0 < kv.2) rewards ->
  NoDup (map fst (Node.earned_loop n gauge token_id reward_tokens rewards))
  /\ Forall (fun kv => 0 < kv.2)
       (Node.earned_loop n gauge token_id reward_tokens rewards).
Proof.
  induction reward_tokens as [| token rest IH]; intros rewards Hnd Hpos;
    cbn [Node.earned_loop]; [auto |].
  destruct (to_checksum_address n token) as [cs | e]; cbn [mbind res_bind]; [| auto].
  destruct (earned_call n gauge cs token_id) as [earned | e]; [| auto].
  destruct (N.ltb_spec 0 earned) as [Hearned | Hzero].
  - apply IH; [apply dict_set_NoDup, Hnd | apply dict_set_positive; [lia | exact Hpos]].
  - apply IH; assumption.
Qed.

(** X19. The emissions of a position list every reward token at most once, and
    only amounts above zero. *)
Theorem get_emissions_rewards_positive (n : node) (token_id : Z) (pool_address : address) :
  NoDup (map fst (Node.get_emissions_rewards n token_id pool_address))
  /\ Forall (fun kv => 0 < kv.2) (Node.get_emissions_rewards n token_id pool_address).
Proof.
  unfold Node.get_emissions_rewards.
  assert (NoDup (map fst ([] : list (address * Z)))
          /\ Forall (fun kv : address * Z => 0 < kv.2) []) as Hnil
    by (split; constructor).
  destruct (to_checksum_address n VOTER_CONTRACT) as [voter | e];
    cbn [mbind res_bind]; [| exact Hnil].
  destruct (to_checksum_address n pool_address) as [pool | e];
    cbn [mbind res_bind]; [| exact Hnil].
  destruct (gaugeForPool_call n voter pool) as [gauge_address | e];
    cbn [mbind res_bind]; [| exact Hnil].
  destruct (String.eqb gauge_address Node.zero_address); [exact Hnil |].
  destruct (to_checksum_address n gauge_address) as [gauge | e];
    cbn [mbind res_bind]; [| exact Hnil].
  destruct (getRewardTokens_call n gauge) as [reward_tokens | e];
    cbn [mbind res_bind]; [| exact Hnil].
  apply earned_loop_invariant; apply Hnil.
Qed.

Lemma earned_loop_stops (n : node) (gauge : address) (token_id : Z)
    (before : list address) (failing : address) (after : list address) (e : exn) :
  (token ← to_checksum_address n failing; earned_call n gauge token token_id)
  = Raise e ->
  forall rewards,
  Node.earned_loop n gauge token_id (before ++ failing :: after) rewards
  = Node.earned_loop n gauge token_id before rewards.
Proof.
  intros He.
  induction before as [| token before IH]; intros rewards; cbn [app Node.earned_loop].
  - rewrite He. reflexivity.
  - destruct (token0 ← to_checksum_address n token;
              earned_call n gauge token0 token_id); [apply IH | reflexivity].
Qed.

(** X20. When the read of one reward token fails, the rewards of the tokens
    listed before it are returned and those of the tokens listed after it are
    dropped. *)
Theorem get_emissions_rewards_partial (n : node) (token_id : Z)
    (pool_address voter pool gauge_address gauge : address)
    (before : list address) (failing : address) (after : list address) (e : exn) :
  to_checksum_address n VOTER_CONTRACT = Ok voter ->
  to_checksum_address n pool_address = Ok pool ->
  gaugeForPool_call n voter pool = Ok gauge_address ->
  gauge_address <> Node.zero_address ->
  to_checksum_address n gauge_address = Ok gauge ->
  getRewardTokens_call n gauge = Ok (before ++ failing :: after) ->
  (token ← to_checksum_address n failing; earned_call n gauge token token_id)
  = Raise e ->
  Node.get_emissions_rewards n token_id pool_address
  = Node.earned_loop n gauge token_id before [].
Proof.
  intros Hvoter Hpool Hgauge Hnz Hcs Htokens Hfail.
  unfold Node.get_emissions_rewards.
  rewrite Hvoter, Hpool. cbn [mbind res_bind]. rewrite Hgauge. cbn [mbind res_bind].
  destruct (String.eqb_spec gauge_address Node.zero_address) as [Hz | _];
    [contradiction |].
  rewrite Hcs. cbn [mbind res_bind]. rewrite Htokens. cbn [mbind res_bind].
  apply (earned_loop_stops _ _ _ _ _ _ _ Hfail).
Qed.

Lemma get_emissions_rewards_partial_witness :
  Node.get_emissions_rewards example_node 107 WBTC_USDC_POOL
  = [("0x5050bc082FF4A74Fb6B0B04385dEfdDB114b2424"%string, 5000000000000000000)].
Proof.
  rewrite (get_emissions_rewards_partial example_node 107 WBTC_USDC_POOL
             VOTER_CONTRACT WBTC_USDC_POOL example_gauge example_gauge
             ["0x5050bc082FF4A74Fb6B0B04385dEfdDB114b2424"%string]
             "0x3333b97138D4b086720b5aE8A7844b1345a33333"
             ["0x0555E30da8f98308EdB960aa94C0Db47230d2B9c"%string] RpcError
             eq_refl eq_refl eq_refl ltac:(discriminate) eq_refl eq_refl eq_refl).
  reflexivity.
Defined.

(** *** Reading back a formatted amount *)

Lemma digits_value_app (l1 l2 : list ascii) :
  forall acc, digits_value (l1 ++ l2) acc = digits_value l2 (digits_value l1 acc).
Proof.
  induction l1 as [| c l1 IH]; intros acc; cbn [app digits_value]; [reflexivity |].
  destruct (_ && _); apply IH.
Qed.

Lemma digits_value_filter (l : list ascii) :
  forall acc, digits_value (List.filter is_digit l) acc = digits_value l acc.
Proof.
  induction l as [| c l IH]; intros acc; cbn [List.filter digits_value]; [reflexivity |].
  unfold is_digit at 1. destruct (_ && _) eqn:Hd; [| apply IH].
  cbn [digits_value]. rewrite Hd. apply IH.
Qed.

Lemma list_ascii_of_string_app (s1 s2 : string) :
  list_ascii_of_string (s1 ++ s2) = list_ascii_of_string s1 ++ list_ascii_of_string s2.
Proof.
  induction s1 as [| c s1 IH]; [reflexivity |].
  change (String c s1 ++ s2)%string with (String c (s1 ++ s2)).
  cbn [list_ascii_of_string app]. rewrite IH. reflexivity.
Qed.

Lemma group_rev_digits (l : list ascii) :
  forall n, List.filter is_digit (group_rev l n) = List.filter is_digit l.
Proof.
  induction l as [| c l IH]; intros n; [reflexivity |].
  cbn [group_rev].
  destruct n as [| [| [| n]]]; try (cbn [List.filter]; rewrite IH; reflexivity).
  destruct l as [| c' l'].
  - reflexivity.
  - change (List.filter is_digit (c :: "," :: group_rev (c' :: l') 0)%char)
      with (if is_digit c
            then c :: List.filter is_digit (group_rev (c' :: l') 0)
            else List.filter is_digit (group_rev (c' :: l') 0)).
    rewrite IH. reflexivity.
Qed.

Lemma group_thousands_digits (s : string) :
  List.filter is_digit (list_ascii_of_string (group_thousands s))
  = List.filter is_digit (list_ascii_of_string s).
Proof.
  unfold group_thousands. rewrite list_ascii_of_string_of_list_ascii.
  rewrite List.filter_rev, group_rev_digits, <- List.filter_rev, rev_involutive.
  reflexivity.
Qed.

Ltac digit_step :=
  cbn [NilEmpty.string_of_uint list_ascii_of_string digits_value];
  match goal with
  | |- context [if ?b then _ else _] => replace b with true by (vm_compute; reflexivity)
  end;
  match goal with
  | |- context [Z.of_nat (nat_of_ascii ?c) - 48] =>
      let v := eval vm_compute in (Z.of_nat (nat_of_ascii c) - 48) in
      change (Z.of_nat (nat_of_ascii c) - 48) with v
  end.

Lemma digits_value_uint_acc (d : Decimal.uint) :
  forall acc : positive,
  digits_value (list_ascii_of_string (NilEmpty.string_of_uint d)) (Zpos acc)
  = Zpos (Pos.of_uint_acc d acc).
Proof.
  induction d; intros acc; [reflexivity | ..];
    digit_step; cbn [Pos.of_uint_acc]; rewrite <- IHd; f_equal; lia.
Qed.

Lemma digits_value_uint (d : Decimal.uint) :
  digits_value (list_ascii_of_string (NilEmpty.string_of_uint d)) 0
  = Z.of_N (Pos.of_uint d).
Proof.
  induction d; [reflexivity | ..]; digit_step; cbn [Pos.of_uint];
    first [exact IHd
          | change (Z.of_N (N.pos ?p)) with (Z.pos p);
            rewrite <- digits_value_uint_acc; reflexivity].
Qed.

Lemma string_of_uint_nonnil (d : Decimal.uint) :
  d <> Decimal.Nil -> NilZero.string_of_uint d = NilEmpty.string_of_uint d.
Proof. destruct d; [contradiction | ..]; reflexivity. Qed.

Lemma digits_value_str_of_int (m : Z) :
  0 <= m -> digits_value (list_ascii_of_string (str_of_int m)) 0 = m.
Proof.
  intros Hm. unfold str_of_int. destruct m as [| p | p]; [reflexivity | | lia].
  cbn [Z.to_int NilZero.string_of_int].
  rewrite string_of_uint_nonnil by apply DecimalPos.Unsigned.to_uint_nonnil.
  rewrite digits_value_uint, DecimalPos.Unsigned.of_to. reflexivity.
Qed.

Lemma frac_chars (r : Z) :
  0 <= r < 100 ->
  list_ascii_of_string (pad_zeros 2 (str_of_int r)) = two_digits r.
Proof.
  intros Hr.
  assert (Forall (fun r => list_ascii_of_string (pad_zeros 2 (str_of_int r)) = two_digits r)
            (seqZ 0 100)) as Hall.
  { apply (bool_decide_unpack _). vm_compute. exact I. }
  rewrite Forall_forall in Hall. apply Hall. apply elem_of_seqZ. lia.
Qed.

Lemma digits_value_digit (k : Z) (rest : list ascii) (acc : Z) :
  0 <= k <= 9 ->
  digits_value (ascii_of_nat (Z.to_nat (48 + k)) :: rest) acc
  = digits_value rest (10 * acc + k).
Proof.
  intros Hk. cbn [digits_value].
  rewrite nat_ascii_embedding by lia. rewrite Z2Nat.id by lia.
  replace (48 + k - 48) with k by lia.
  destruct (Z.leb_spec 0 k); [| lia]. destruct (Z.leb_spec k 9); [| lia].
  reflexivity.
Qed.

Lemma digits_value_frac (r acc : Z) :
  0 <= r < 100 ->
  digits_value (list_ascii_of_string (pad_zeros 2 (str_of_int r))) acc = 100 * acc + r.
Proof.
  intros Hr. rewrite frac_chars by exact Hr. unfold two_digits.
  pose proof (Z.div_mod r 10 ltac:(lia)) as Hdm.
  pose proof (Z.mod_pos_bound r 10 ltac:(lia)) as Hmod.
  assert (0 <= r / 10 <= 9) as Hdiv.
  { split; [apply Z.div_pos; lia |]. apply Z.lt_succ_r, Z.div_lt_upper_bound; lia. }
  rewrite !digits_value_digit by lia. cbn [digits_value]. lia.
Qed.

Lemma uint_chars_digits (d : Decimal.uint) :
  Forall (fun c => is_digit c = true) (list_ascii_of_string (NilEmpty.string_of_uint d)).
Proof.
  induction d; cbn [NilEmpty.string_of_uint list_ascii_of_string];
    constructor; first [reflexivity | exact IHd].
Qed.

Lemma str_of_int_digits (m : Z) :
  0 <= m -> Forall (fun c => is_digit c = true) (list_ascii_of_string (str_of_int m)).
Proof.
  intros Hm. unfold str_of_int. destruct m as [| p | p]; [| | lia].
  - repeat constructor.
  - cbn [Z.to_int NilZero.string_of_int].
    rewrite string_of_uint_nonnil by apply DecimalPos.Unsigned.to_uint_nonnil.
    apply uint_chars_digits.
Qed.

Lemma group_rev_chars (l : list ascii) :
  forall n, Forall (fun c => is_digit c = true) l ->
  Forall (fun c => c <> "-"%char) (group_rev l n).
Proof.
  induction l as [| c l IH]; intros n Hl; [constructor |].
  inversion Hl as [| ? ? Hc Hl']; subst.
  assert (c <> "-"%char) as Hne by (intros ->; discriminate Hc).
  cbn [group_rev].
  destruct n as [| [| [| n]]]; try (constructor; [exact Hne | apply IH, Hl']).
  destruct l as [| c' l'].
  - constructor; [exact Hne | constructor].
  - constructor; [exact Hne |]. constructor; [discriminate |]. apply IH, Hl'.
Qed.

Lemma group_thousands_chars (s : string) :
  Forall (fun c => is_digit c = true) (list_ascii_of_string s) ->
  Forall (fun c => c <> "-"%char) (list_ascii_of_string (group_thousands s)).
Proof.
  intros Hs. unfold group_thousands. rewrite list_ascii_of_string_of_list_ascii.
  apply Forall_rev, group_rev_chars, Forall_rev, Hs.
Qed.

Lemma not_minus_head (cs : list ascii) (a b : Decimal) :
  (forall c rest, cs = c :: rest -> c <> "-"%char) ->
  match cs with
  | "-"%char :: _ => a
  | _ => b
  end = b.
Proof.
  intros H. destruct cs as [| c rest]; [reflexivity |].
  specialize (H c rest eq_refl).
  destruct c as [[] [] [] [] [] [] [] []]; try reflexivity.
  contradiction H. reflexivity.
Qed.

Lemma quantize_nonneg (places : nat) (q : Q) : (0 <= q)%Q -> 0 <= quantize places q.
Proof.
  intros Hq. unfold quantize.
  pose proof (round_half_even_bounds (q * ten ^ Z.of_nat places)) as [Hlo _].
  assert (0 <= q * ten ^ Z.of_nat places)%Q as H0.
  { pose proof (ten_pow_pos (Z.of_nat places)). nra. }
  apply Qfloor_resp_le in H0. change (Qfloor 0) with 0 in H0. lia.
Qed.

Lemma parse_fmt_money (x : Decimal) :
  parse_money (fmt_money x)
  = mkDec (if Qle_bool 0 (dval x)
           then quantize 2 (Qabs (dval x)) else - quantize 2 (Qabs (dval x)))
      (-2).
Proof.
  unfold fmt_money, format_fixed.
  pose proof (quantize_nonneg 2 _ (Qabs_nonneg (dval x))) as Hn.
  set (n := quantize 2 (Qabs (dval x))) in *. clearbody n.
  change (10 ^ Z.of_nat 2) with 100.
  pose proof (Z.div_mod n 100 ltac:(lia)) as Hdm.
  pose proof (Z.mod_pos_bound n 100 ltac:(lia)) as Hmod.
  assert (0 <= n / 100) as Hdiv by (apply Z.div_pos; lia).
  assert (digits_value
            (list_ascii_of_string
               (group_thousands (str_of_int (n / 100)) ++ "." ++
                pad_zeros 2 (str_of_int (n mod 100)))) 0 = n) as Hvalue.
  { rewrite !list_ascii_of_string_app, !digits_value_app.
    rewrite <- (digits_value_filter
                  (list_ascii_of_string (group_thousands (str_of_int (n / 100))))).
    rewrite group_thousands_digits, digits_value_filter.
    rewrite digits_value_str_of_int by exact Hdiv.
    change (digits_value (list_ascii_of_string ".") (n / 100)) with (n / 100).
    rewrite digits_value_frac by lia. lia. }
  unfold parse_money.
  destruct (Qle_bool 0 (dval x)).
  - change ("" ++ ?s)%string with s. rewrite Hvalue.
    apply not_minus_head. intros c rest Hcs.
    rewrite list_ascii_of_string_app in Hcs.
    pose proof (group_thousands_chars _ (str_of_int_digits _ Hdiv)) as Hg.
    destruct (list_ascii_of_string (group_thousands (str_of_int (n / 100))))
      as [| g gs].
    + cbn in Hcs. injection Hcs as <- _. discriminate.
    + cbn in Hcs. injection Hcs as <- _. inversion Hg; assumption.
  - change ("-" ++ ?s)%string with (String "-" s).
    cbn [list_ascii_of_string].
    change (digits_value ("-"%char :: ?l) 0) with (digits_value l 0).
    rewrite Hvalue. reflexivity.
Qed.

(** X21. Reading a formatted amount back, as the totals of the report do, gives
    the amount rounded to cents (ties to even): its number of cents is the
    quantized value, with the sign of the amount, and it lies within half a
    cent of the amount. *)
Theorem money_round_trip (x : Decimal) :
  let cents := quantize 2 (Qabs (dval x)) in
  parse_money (fmt_money x)
  = mkDec (if Qle_bool 0 (dval x) then cents else - cents) (-2)
  /\ (Qabs (dval (parse_money (fmt_money x)) - dval x) <= 1 # 200)%Q.
Proof.
  intros cents. split; [apply parse_fmt_money |].
  rewrite parse_fmt_money. fold cents.
  pose proof (round_half_even_near (Qabs (dval x) * ten ^ Z.of_nat 2)) as [Hlo Hhi].
  change (round_half_even (Qabs (dval x) * ten ^ Z.of_nat 2)) with cents in Hlo, Hhi.
  change (ten ^ Z.of_nat 2)%Q with (100 # 1)%Q in Hlo, Hhi.
  assert (forall z, dval (mkDec z (-2)) == inject_Z z * (1 # 100))%Q as Hv
    by (intros z; reflexivity).
  apply Qabs_Qle_condition.
  destruct (Qle_bool 0 (dval x)) eqn:Hsign; rewrite Hv.
  - apply Qle_bool_iff in Hsign. rewrite Qabs_pos in Hlo, Hhi by exact Hsign.
    clearbody cents. split; lra.
  - assert (dval x < 0)%Q as Hneg.
    { destruct (Qlt_le_dec (dval x) 0) as [H | H]; [exact H |].
      apply Qle_bool_iff in H. congruence. }
    rewrite Qabs_neg in Hlo, Hhi by lra.
    rewrite inject_Z_opp. clearbody cents. split; lra.
Qed.

(** *** Loading the stored baselines *)

Lemma load_rows_stops (int : string -> res Z) (before : list db_row) (bad : db_row)
    (after : list db_row) (e : exn) :
  (amount0 ← int (row_amount0 bad); amount1 ← int (row_amount1 bad);
   Ok (mk_stored_position (row_creation_date bad) (row_block_number bad)
         amount0 amount1 (row_price bad))) = Raise e ->
  forall initial_data,
  load_rows int (before ++ bad :: after) initial_data
  = load_rows int before initial_data.
Proof.
  intros Hbad. induction before as [| row before IH]; intros initial_data;
    cbn [app load_rows].
  - rewrite Hbad. reflexivity.
  - match goal with
    | |- match ?m with _ => _ end = _ => destruct m; [apply IH | reflexivity]
    end.
Qed.

(** X22. A stored row whose amount does not read as an integer ends the load: the
    rows fetched before it are kept, that row and every row after it are
    missing from the loaded baselines. *)
Theorem db_load_stops_at_unreadable_row (int : string -> res Z)
    (before : list db_row) (bad : db_row) (after : list db_row) (e : exn) :
  int (row_amount0 bad) = Raise e
  \/ (exists amount0, int (row_amount0 bad) = Ok amount0)
     /\ int (row_amount1 bad) = Raise e ->
  Db.db_load_initial_positions int (Ok (before ++ bad :: after))
  = Db.db_load_initial_positions int (Ok before).
Proof.
  intros Hbad. unfold Db.db_load_initial_positions.
  apply load_rows_stops with (e := e).
  destruct Hbad as [-> | [[amount0 ->] Hbad]]; [reflexivity |].
  cbn [mbind res_bind]. rewrite Hbad. reflexivity.
Qed.

Lemma db_load_stops_at_unreadable_row_witness :
  let int := fun s : string =>
    if String.eqb s "499950004" then Ok 499950004 else Raise ValueError in
  let good := mk_db_row "107" "Sat 2026-10-24 12:00:00" 1000 "499950004" "499950004" "100" in
  let bad := mk_db_row "108" "Sat 2026-10-24 12:00:00" 1000 "4999.5" "499950004" "100" in
  let late := mk_db_row "109" "Sat 2026-10-24 12:00:00" 1000 "499950004" "499950004" "100" in
  Db.db_load_initial_positions int (Ok [good; bad; late])
  = {[ "107"%string :=
         mk_stored_position "Sat 2026-10-24 12:00:00" 1000 499950004 499950004 "100" ]}.
Proof.
  intros int good bad late.
  change [good; bad; late] with ([good] ++ bad :: [late]).
  rewrite (db_load_stops_at_unreadable_row int [good] bad [late] ValueError).
  - reflexivity.
  - left. reflexivity.
Defined.

(** *** Status codes of the endpoint *)

(** X23. The endpoint answers 400 exactly when the wallet address is missing or
    empty and 500 exactly when the report or its serialization raises; a node
    that is not connected is answered with status 200 and an error object. *)
Theorem get_data_status (jsonify : response -> res string) (c : chain)
    (wallet_address : option string) :
  let status := (get_data jsonify c wallet_address).2 in
  (status = 400 <-> wallet_address = None \/ wallet_address = Some ""%string)
  /\ (status = 500 <->
      exists w e, wallet_address = Some w /\ w <> ""%string
                  /\ (data ← find_and_display_positions c w; jsonify data) = Raise e)
  /\ (forall w json,
        wallet_address = Some w -> w <> ""%string -> is_connected c = false ->
        jsonify (ErrorResponse "Failed to connect to Sonic RPC") = Ok json ->
        get_data jsonify c wallet_address = (JsonData json, 200)).
Proof.
  unfold get_data. destruct wallet_address as [w |].
  - destruct (String.eqb_spec w "") as [-> | Hne].
    + cbn. split; [split; auto |]. split.
      * split; [discriminate |]. intros (w & e & [= <-] & Hw & _). contradiction.
      * intros w json [= <-] Hw. contradiction.
    + split; [| split].
      * assert (Some w = None \/ Some w = Some ""%string -> False) as Hno
          by (intros [H | [= H]]; [discriminate H | contradiction]).
        destruct (_ ≫= _); cbn; (split; [discriminate | intros H; destruct (Hno H)]).
      * match goal with
        | |- context [match ?m with _ => _ end] => destruct m as [json | e] eqn:Hrun
        end; cbn; split; try discriminate.
        -- intros (w' & e & [= <-] & _ & He). rewrite Hrun in He. discriminate.
        -- intros _. exists w, e. auto.
        -- reflexivity.
      * intros w' json [= <-] _ Hconn Hjson.
        unfold find_and_display_positions. rewrite Hconn. cbn. rewrite Hjson.
        reflexivity.
  - cbn. split; [split; auto |]. split.
    + split; [discriminate |]. intros (w & e & H & _). discriminate.
    + intros w json H. discriminate.
Qed.

(** *** Distances to the bounds of a position without impermanent-loss data *)

(** X24. The distances to the range bounds are computed inside the
    impermanent-loss block only.  For a position whose baseline is captured
    in this very report the block is skipped, so when the round returns it
    has reported the distances that an earlier round left behind, and it
    leaves them unchanged for the next round. *)
Theorem skipped_block_repeats_distances (c : chain) (wallet_address : address)
    (price_cache : gmap string Decimal) (st st' : loop_state)
    (token_id : Z) (pos : position_data) (current_pool_info : pool_info) :
  ls_initial_data_cache st !! str_of_int token_id = None ->
  get_position_creation_info c token_id wallet_address = None ->
  get_pool_info c (pd_token0 pos) (pd_token1 pos) Latest = Some current_pool_info ->
  position_step c wallet_address price_cache st (token_id, pos) = Ok st' ->
  exists r to_lower to_upper,
    ls_all_positions_data st' = ls_all_positions_data st ++ [r]
    /\ ls_perc_to_lower st = Some to_lower
    /\ ls_perc_to_upper st = Some to_upper
    /\ pr_perc_to_lower r = (fmt_money to_lower ++ "%")%string
    /\ pr_perc_to_upper r = (fmt_money to_upper ++ "%")%string
    /\ ls_perc_to_lower st' = Some to_lower
    /\ ls_perc_to_upper st' = Some to_upper.
Proof.
  intros Hnew Hmint Hpool Hstep.
  unfold position_step in Hstep. rewrite Hpool in Hstep.
  bind_inv Hstep.
  apply bind_ok_inv in Hstep. destruct Hstep as (cache & Hcache & Hstep).
  assert (exists a1 a2,
            cache !! str_of_int token_id
            = Some (mk_initial_position (now_strftime c ++ " (Current)")%string
                      BlockNA a1 a2
                      (Some (tick_to_price (pi_current_tick current_pool_info)
                               (ti_decimals (get_token_info c (pd_token0 pos)))
                               (ti_decimals (get_token_info c (pd_token1 pos)))))))
    as (a1 & a2 & Hfresh).
  { unfold capture_baseline in Hcache. rewrite Hnew, Hmint in Hcache.
    cbn [mbind res_bind] in Hcache. rewrite lookup_insert_eq in Hcache.
    injection Hcache as <-. rewrite lookup_insert_eq. eauto. }
  rewrite Hfresh in Hstep.
  do 3 bind_inv Hstep.
  unfold apr_block in Hstep. cbn [ip_date] in Hstep.
  rewrite contains_suffix in Hstep. cbn [negb] in Hstep.
  cbn [days_active annualized_apr daily_projected_usd_earnings
         annual_projected_usd_earnings] in Hstep.
  unfold il_block in Hstep.
  replace (dgt (Dec 0) (Dec 0)) with false in Hstep by reflexivity.
  rewrite !andb_false_r in Hstep. cbn [v_perc_to_lower v_perc_to_upper v_il_data] in Hstep.
  bind_inv Hstep.
  apply bind_ok_inv in Hstep. destruct Hstep as (to_lower & Hlower & Hstep).
  apply bind_ok_inv in Hstep. destruct Hstep as (to_upper & Hupper & Hstep).
  do 4 bind_inv Hstep.
  injection Hstep as <-.
  unfold read_local in Hlower, Hupper.
  destruct (ls_perc_to_lower st) as [before_lower |]; [| discriminate].
  destruct (ls_perc_to_upper st) as [before_upper |]; [| discriminate].
  injection Hlower as ->. injection Hupper as ->.
  eexists. exists to_lower, to_upper. cbn. repeat split; reflexivity.
Qed.

Lemma skipped_block_repeats_distances_witness :
  exists st' r,
    position_step wallet_with_fresh_baseline example_wallet
      (prefetch_prices wallet_with_fresh_baseline) state_before_108
      (108, open_position) = Ok st'
    /\ ls_all_positions_data st' = ls_all_positions_data state_before_108 ++ [r]
    /\ pr_perc_to_lower r = "0.00%"%string.
Proof.
  assert (ls_initial_data_cache state_before_108 !! str_of_int 108 = None) as Hnew
    by (vm_compute; reflexivity).
  pose proof run_round_of_108 as Hrun. unfold round_of_108 in Hrun.
  destruct (skipped_block_repeats_distances wallet_with_fresh_baseline example_wallet
              (prefetch_prices wallet_with_fresh_baseline) state_before_108 _
              108 open_position (mk_pool_info WBTC_USDC_POOL (Dec 1) 0)
              Hnew eq_refl eq_refl Hrun)
    as (r & l & u & Hdata & Hl & _ & Hshown & _).
  eexists. exists r. split; [exact Hrun |]. split; [exact Hdata |].
  rewrite Hshown. injection Hl as <-. reflexivity.
Defined.

(** *** A range of no width *)

Lemma dle_total (a b : Decimal) : dle a b = false -> dge a b = true.
Proof.
  intros H. apply dle_false_iff in H. unfold dge. apply dle_iff. lra.
Qed.

(** X25. A position whose two ticks coincide holds nothing, whatever its
    liquidity and the pool price. *)
Theorem calculate_token_amounts_zero_width (liquidity : Z) (current_sqrt_price : Decimal)
    (tick : Z) :
  calculate_token_amounts liquidity current_sqrt_price tick tick = Ok (0, 0).
Proof.
  unfold calculate_token_amounts.
  pose proof (dpow_half_pos tick) as Hs.
  set (s := dpow_half Decimal_1_0001 tick) in *.
  assert (dsub s s = mkDec 0 0) as Hzero by (apply dsub_zero; reflexivity).
  destruct (dle current_sqrt_price s) eqn:Hle.
  - rewrite Hzero, ddiv_ok by (pose proof (dmul_pos _ _ Hs Hs); lia).
    cbn [mbind res_bind].
    assert (round_ctx (dval (mkDec 0 0) / dval (dmul s s)) = mkDec 0 0) as ->.
    { apply round_ctx_zero. unfold Qdiv. change (dval (mkDec 0 0)) with (0 * 1)%Q. ring. }
    rewrite dmul_zero_r by reflexivity. reflexivity.
  - rewrite (dle_total _ _ Hle), Hzero.
    rewrite dmul_zero_r by reflexivity. reflexivity.
Qed.
